(** * SmartCFHelper: the hybrid extraction pipeline of ProblemWebviewProvider

    A shallow embedding of [extractProblemData], [fetchFromCodeforcesAPI] and
    [scrapeWithOptimizedPuppeteer] (webview/ProblemWebViewProvider.ts), with
    the ECMAScript string and regular-expression operations they rely on.

    - JavaScript strings are sequences of UTF-16 code units ([list N]);
      [length] is the [.length] of the source.
    - The regular expressions of the source are written as lists of atoms
      and run by a backtracking matcher with the priorities of ECMAScript
      (leftmost start, greedy quantifiers).
    - The DOM is a parameter: a document answers [querySelectorAll].
    - The network and the headless browser are an oracle ([Env]); the
      asynchronous code is sequential ([await] at every call) and is
      written in a state-and-exception monad whose state is the trace of
      the external calls made so far. *)

From Stdlib Require Import List ZArith NArith Bool Lia String Ascii Arith DecimalString Sorted.
Import ListNotations.

Set Implicit Arguments.
Set Warnings "-register-all".

(* ===================================================================== *)
(** * ECMAScript strings *)
(* ===================================================================== *)

Module JS.

Local Open Scope N_scope.

(** A code unit and a string value. *)
Definition codeunit := N.
Definition jsstring := list codeunit.

(** ASCII literals of the source. *)
Definition js (s : string) : jsstring :=
  List.map N_of_ascii (list_ascii_of_string s).

(** The selector text [[class*="v"]]. *)
Definition class_has (v : string) : jsstring :=
  js "[class*=" ++ [34] ++ js v ++ [34] ++ js "]".

Definition cu_eqb (a b : codeunit) : bool := N.eqb a b.

Fixpoint str_eqb (a b : jsstring) : bool :=
  match a, b with
  | [], [] => true
  | x :: a', y :: b' => cu_eqb x y && str_eqb a' b'
  | _, _ => false
  end.

(** [s || d] on strings: the empty string is the only falsy string. *)
Definition or_default (s d : jsstring) : jsstring :=
  match s with [] => d | _ => s end.

Definition in_range (lo hi c : codeunit) : bool :=
  (N.leb lo c && N.leb c hi)%bool.

(** WhiteSpace and LineTerminator code units: what [\s] matches and what
    [String.prototype.trim] removes. *)
Definition is_space (c : codeunit) : bool :=
  in_range 9 13 c || cu_eqb c 32 || cu_eqb c 160 || cu_eqb c 5760
  || in_range 8192 8202 c || cu_eqb c 8232 || cu_eqb c 8233
  || cu_eqb c 8239 || cu_eqb c 8287 || cu_eqb c 12288 || cu_eqb c 65279.

Definition is_digit (c : codeunit) : bool := in_range 48 57 c.
Definition is_upper (c : codeunit) : bool := in_range 65 90 c.
Definition is_lower (c : codeunit) : bool := in_range 97 122 c.

(** [\w] : [A-Za-z0-9_]. *)
Definition is_word (c : codeunit) : bool :=
  is_upper c || is_lower c || is_digit c || cu_eqb c 95.

Fixpoint trimStart (s : jsstring) : jsstring :=
  match s with
  | c :: s' => if is_space c then trimStart s' else s
  | [] => []
  end.

Definition trimEnd (s : jsstring) : jsstring := rev (trimStart (rev s)).

(** [String.prototype.trim]. *)
Definition trim (s : jsstring) : jsstring := trimEnd (trimStart s).

(** Upper-casing of one code unit of the Basic Latin block.  Code units
    outside the block are left as they are: the only string the source
    upper-cases is the second group of the URL patterns, an ASCII letter
    with at most one ASCII digit (lemma [urlMatch_groups]). *)
Definition upper_cu (c : codeunit) : codeunit :=
  if is_lower c then (c - 32)%N else c.

(** [String.prototype.toUpperCase] (Basic Latin, see [upper_cu]). *)
Definition toUpperCase (s : jsstring) : jsstring := List.map upper_cu s.

(** Canonicalize of a pattern compiled with the [i] flag and without the
    [u] flag: the code unit is upper-cased, except that a code unit from
    128 on never canonicalizes to one below 128.  The patterns of the
    source are ASCII, so only whether a canonical form lies below 128, and
    which one, is observable; code units from 128 on stand for themselves. *)
Definition Canonicalize (c : codeunit) : codeunit := upper_cu c.

End JS.
Import JS.

(* ===================================================================== *)
(** * ECMAScript numbers *)
(* ===================================================================== *)

Module Num.

Local Open Scope N_scope.

(** The Number values the program meets: integer-valued doubles (contest
    numbers and ratings), the infinities ([parseInt] returns one on a
    very long digit string) and NaN.  The two zeros are not told apart:
    nothing here divides. *)
Inductive number :=
| Fin (z : Z)
| PosInf
| NegInf
| NaN.

(** [a === b] on numbers. *)
Definition strict_eq (a b : number) : bool :=
  match a, b with
  | Fin x, Fin y => Z.eqb x y
  | PosInf, PosInf => true
  | NegInf, NegInf => true
  | _, _ => false
  end.

(** ToBoolean on numbers. *)
Definition truthy (a : number) : bool :=
  match a with
  | Fin z => negb (Z.eqb z 0)
  | NaN => false
  | _ => true
  end.

(** The Number value for a non-negative mathematical integer: round to 53
    significant bits, ties to even; from 2^1024 on, infinity. *)
Definition round53 (z : Z) : Z :=
  if (z <? 2 ^ 53)%Z then z
  else
    let e := (Z.log2 z - 52)%Z in
    let q := Z.shiftr z e in
    let r := (z - Z.shiftl q e)%Z in
    let half := Z.shiftl 1 (e - 1) in
    let q' := if (half <? r)%Z then (q + 1)%Z
              else if (r =? half)%Z && Z.odd q then (q + 1)%Z
              else q in
    Z.shiftl q' e.

Definition to_number (z : Z) : number :=
  if (z <? 0)%Z then
    let m := round53 (- z) in
    if (m <? 2 ^ 1024)%Z then Fin (- m) else NegInf
  else
    let m := round53 z in
    if (m <? 2 ^ 1024)%Z then Fin m else PosInf.

(** Value of a digit in the given radix, if it is one. *)
Definition digit_value (radix : N) (c : codeunit) : option N :=
  let v :=
    if is_digit c then Some (c - 48)%N
    else if is_lower c then Some (c - 97 + 10)%N
    else if is_upper c then Some (c - 65 + 10)%N
    else None in
  match v with
  | Some d => if (d <? radix)%N then Some d else None
  | None => None
  end.

(** Longest prefix of digits, accumulated most significant first. *)
Fixpoint digits_prefix (radix : N) (s : jsstring) (seen : bool) (acc : Z)
  : option Z :=
  match s with
  | c :: s' =>
      match digit_value radix c with
      | Some d => digits_prefix radix s' true (acc * Z.of_N radix + Z.of_N d)%Z
      | None => if seen then Some acc else None
      end
  | [] => if seen then Some acc else None
  end.

(** [parseInt(string)] with no radix argument: leading white space is
    skipped, a sign is read, [0x]/[0X] selects radix 16, otherwise radix
    10; the longest digit prefix is the value, NaN if there is none.  The
    result is the correctly rounded double (ECMAScript lets an engine
    approximate after the 20th significant digit; V8 does not). *)
Definition parseInt (s : jsstring) : number :=
  let s1 := trimStart s in
  let '(neg, s2) :=
    match s1 with
    | c :: t => if cu_eqb c 45 then (true, t)
                else if cu_eqb c 43 then (false, t) else (false, s1)
    | [] => (false, s1)
    end in
  let '(radix, s3) :=
    match s2 with
    | z :: x :: t =>
        if cu_eqb z 48 && (cu_eqb x 120 || cu_eqb x 88) then (16%N, t)
        else (10%N, s2)
    | _ => (10%N, s2)
    end in
  match digits_prefix radix s3 false 0%Z with
  | Some v => to_number (if neg then (- v)%Z else v)
  | None => NaN
  end.

End Num.
Import Num.

(* ===================================================================== *)
(** * Regular expressions *)
(* ===================================================================== *)

Module Regex.

(** The patterns of the source use one-code-unit atoms (a character, a
    class, an escape) with an optional quantifier, capture parentheses
    around runs of atoms, and [^]. *)
Inductive quant := One | Opt | Star | Plus.

Inductive node :=
| Atom (p : codeunit -> bool) (q : quant)
| Open
| Close
| Bol.

Definition pattern := list node.

(** End position of the match and the captures, as pairs of positions. *)
Definition result := (nat * list (nat * nat))%type.

(** Greedy repetition of a one-code-unit atom in front of the
    continuation [k]: one more repetition is tried first, the
    continuation only when that fails. *)
Fixpoint star (p : codeunit -> bool) (k : jsstring -> nat -> option result)
  (s : jsstring) (pos : nat) : option result :=
  match s with
  | c :: s' =>
      if p c then
        match star p k s' (S pos) with
        | Some r => Some r
        | None => k s pos
        end
      else k s pos
  | [] => k s pos
  end.

(** The matcher at a fixed start: [s] is the input from position [pos]
    on, [opened] the stack of open parentheses, [caps] the captures
    closed so far (latest first). *)
Fixpoint run (re : pattern) (s : jsstring) (pos : nat)
  (opened : list nat) (caps : list (nat * nat)) {struct re} : option result :=
  match re with
  | [] => Some (pos, rev caps)
  | Open :: re' => run re' s pos (pos :: opened) caps
  | Close :: re' =>
      match opened with
      | o :: opened' => run re' s pos opened' ((o, pos) :: caps)
      | [] => None
      end
  | Bol :: re' => if Nat.eqb pos 0 then run re' s pos opened caps else None
  | Atom p One :: re' =>
      match s with
      | c :: s' => if p c then run re' s' (S pos) opened caps else None
      | [] => None
      end
  | Atom p Opt :: re' =>
      match s with
      | c :: s' =>
          if p c then
            match run re' s' (S pos) opened caps with
            | Some r => Some r
            | None => run re' s pos opened caps
            end
          else run re' s pos opened caps
      | [] => run re' s pos opened caps
      end
  | Atom p Star :: re' =>
      star p (fun s1 pos1 => run re' s1 pos1 opened caps) s pos
  | Atom p Plus :: re' =>
      match s with
      | c :: s' =>
          if p c then star p (fun s1 pos1 => run re' s1 pos1 opened caps) s' (S pos)
          else None
      | [] => None
      end
  end.

(** A match: where it starts, where it ends, its captures. *)
Record Match := { m_start : nat; m_end : nat; m_caps : list (nat * nat) }.

(** Leftmost match at or after [pos]; [s] is the input from [pos] on. *)
Fixpoint search (re : pattern) (s : jsstring) (pos : nat) : option Match :=
  match run re s pos [] [] with
  | Some (e, caps) => Some {| m_start := pos; m_end := e; m_caps := caps |}
  | None =>
      match s with
      | _ :: s' => search re s' (S pos)
      | [] => None
      end
  end.

(** RegExp exec from the start of the string. *)
Definition exec (re : pattern) (s : jsstring) : option Match := search re s 0.

Definition substring (s : jsstring) (b e : nat) : jsstring :=
  firstn (e - b) (skipn b s).

(** [s.match(re)] for a pattern without the [g] flag: the matched text
    followed by the texts of the groups, or null. *)
Definition String_match (s : jsstring) (re : pattern) : option (list jsstring) :=
  match exec re s with
  | Some m =>
      Some (substring s (m_start m) (m_end m)
            :: List.map (fun c => substring s (fst c) (snd c)) (m_caps m))
  | None => None
  end.

(** [s.replace(re, by)] for a pattern without the [g] flag and a
    replacement text without [$]: the first match is replaced. *)
Definition replace (s : jsstring) (re : pattern) (by_ : jsstring) : jsstring :=
  match exec re s with
  | Some m => firstn (m_start m) s ++ by_ ++ skipn (m_end m) s
  | None => s
  end.

(** All matches of a pattern with the [g] flag, left to right; after an
    empty match the search resumes one code unit further, and it stops
    once it would resume past the end of the input.  [s] is the input
    from [pos] on; every round moves on by at least one code unit, so
    [S (length s)] rounds are enough (lemma [matches_from_fuel]). *)
Fixpoint matches_from (fuel : nat) (re : pattern) (s : jsstring) (pos : nat)
  : list (nat * nat) :=
  match fuel with
  | O => []
  | S fuel' =>
      match search re s pos with
      | Some m =>
          let next := if Nat.eqb (m_end m) (m_start m) then S (m_end m) else m_end m in
          (m_start m, m_end m)
          :: (if List.length s <? next - pos then []
              else matches_from fuel' re (skipn (next - pos) s) next)
      | None => []
      end
  end.

Definition matches_g (re : pattern) (s : jsstring) : list (nat * nat) :=
  matches_from (S (List.length s)) re s 0.

(** [s.match(re)] for a pattern with the [g] flag: the matched texts, or
    null when there is none. *)
Definition String_match_g (s : jsstring) (re : pattern) : option (list jsstring) :=
  match matches_g re s with
  | [] => None
  | ms => Some (List.map (fun m => substring s (fst m) (snd m)) ms)
  end.

(** Pieces of [s] outside the matches [ms], joined by [by_]. *)
Fixpoint splice (s : jsstring) (pos : nat) (ms : list (nat * nat)) (by_ : jsstring)
  : jsstring :=
  match ms with
  | (b, e) :: ms' =>
      firstn (b - pos) s ++ by_ ++ splice (skipn (e - pos) s) e ms' by_
  | [] => s
  end.

(** [s.replace(re, by)] for a pattern with the [g] flag. *)
Definition replace_g (s : jsstring) (re : pattern) (by_ : jsstring) : jsstring :=
  splice s 0 (matches_g re s) by_.

(** Atoms. *)
Definition chr (a : codeunit) : node := Atom (cu_eqb a) One.

(** A pattern character under the [i] flag. *)
Definition char_i (a : codeunit) : codeunit -> bool :=
  fun c => cu_eqb (Canonicalize c) (Canonicalize a).

(** A class range under the [i] flag: some member of the range has the
    canonical form of the input code unit. *)
Definition range_i (lo hi : codeunit) : codeunit -> bool :=
  fun c =>
    existsb (fun a => cu_eqb (Canonicalize a) (Canonicalize c))
      (List.map (fun k => (lo + N.of_nat k)%N) (seq 0 (S (N.to_nat (hi - lo))))).

(** A literal run of the pattern text. *)
Definition lit (l : jsstring) : pattern := List.map chr l.
Definition lit_i (l : jsstring) : pattern :=
  List.map (fun a => Atom (char_i a) One) l.

End Regex.
Import Regex.

(* ===================================================================== *)
(** * Data model (the interfaces of ProblemWebViewProvider.ts) *)
(* ===================================================================== *)

Record TestCase := {
  input : jsstring;
  output : jsstring;
  explanation : option jsstring
}.

Record ProblemData := {
  title : jsstring;
  timeLimit : jsstring;
  memoryLimit : jsstring;
  description : jsstring;
  inputFormat : jsstring;
  outputFormat : jsstring;
  constraints : list jsstring;
  sampleTests : list TestCase;
  source : jsstring;
  difficulty : option jsstring
}.

Record CodeforcesApiProblem := {
  contestId : number;
  index : jsstring;
  name : jsstring;
  type : jsstring;
  rating : option number;
  tags : list jsstring
}.

(* ===================================================================== *)
(** * The rendered page *)
(* ===================================================================== *)

Module DOM.

(** An element as the scraper sees it: its text, its classes, and what
    [querySelector] finds below it. *)
Inductive Element := mkElement {
  textContent : option jsstring;
  classList : list jsstring;
  el_querySelector : jsstring -> option Element
}.

(** A document answers [querySelectorAll] with the matching elements in
    document order; selector matching itself belongs to the browser. *)
Record Document := {
  querySelectorAll : jsstring -> list Element
}.

(** [querySelector] is the first element of [querySelectorAll]. *)
Definition querySelector (document : Document) (selector : jsstring) : option Element :=
  hd_error (querySelectorAll document selector).

Definition classList_contains (e : Element) (c : jsstring) : bool :=
  existsb (str_eqb c) (classList e).

End DOM.
Import DOM.

(* ===================================================================== *)
(** * The callback of [page.evaluate]: extraction from the DOM *)
(* ===================================================================== *)

Module Extract.

Definition nonempty (s : jsstring) : bool :=
  match s with [] => false | _ => true end.

(** [text.replace(/\s+/g, ' ').replace(/\n+/g, ' ').trim()] *)
Definition cleanText (text : jsstring) : jsstring :=
  trim (replace_g (replace_g text [Atom is_space Plus] (js " "))
                  [Atom (cu_eqb 10%N) Plus] (js " ")).

(** The first selector whose element has text that is not all white
    space gives the cleaned text; the empty string if there is none. *)
Fixpoint getTextBySelectors (document : Document) (selectors : list jsstring) : jsstring :=
  match selectors with
  | selector :: rest =>
      match querySelector document selector with
      | Some element =>
          match textContent element with
          | Some t =>
              if nonempty t && nonempty (trim t) then cleanText t
              else getTextBySelectors document rest
          | None => getTextBySelectors document rest
          end
      | None => getTextBySelectors document rest
      end
  | [] => []
  end.

(** [/^[A-Z]\d*\.\s*/] *)
Definition re_title_prefix : pattern :=
  [Bol; Atom is_upper One; Atom is_digit Star; chr 46%N; Atom is_space Star].

Definition scraped_title (document : Document) : jsstring :=
  replace
    (getTextBySelectors document
       [js ".problem-statement .title"; js ".problemindexholder .title";
        js ".header .title"; js "h1"; js "h2"])
    re_title_prefix [].

Definition scraped_timeLimit (document : Document) : jsstring :=
  trim (replace (replace
    (getTextBySelectors document [js ".time-limit"; class_has "time-limit"])
    (lit_i (js "time limit per test")) []) (lit_i (js "time limit")) []).

Definition scraped_memoryLimit (document : Document) : jsstring :=
  trim (replace (replace
    (getTextBySelectors document [js ".memory-limit"; class_has "memory-limit"])
    (lit_i (js "memory limit per test")) []) (lit_i (js "memory limit")) []).

Definition descriptionSelectors : list jsstring :=
  [js ".problem-statement > div:not(.input-specification):not(.output-specification):not(.sample-tests):not(.note)";
   js ".problem-statement p";
   js ".problemindexholder > div"].

Definition is_some {A} (o : option A) : bool :=
  match o with Some _ => true | None => false end.

(** The inner loop over the elements of one selector, with its [break]. *)
Fixpoint description_elements (elements : list Element) (description : jsstring)
  : jsstring :=
  match elements with
  | element :: rest =>
      match textContent element with
      | Some t =>
          if nonempty t
             && negb (classList_contains element (js "section-title"))
             && negb (is_some (el_querySelector element (js ".time-limit")))
             && negb (is_some (el_querySelector element (js ".memory-limit")))
             && (20 <? List.length (trim t))
          then
            let description := description ++ cleanText t ++ js " " in
            if 200 <? List.length description then description
            else description_elements rest description
          else description_elements rest description
      | None => description_elements rest description
      end
  | [] => description
  end.

(** The outer loop over the selectors, with its [break]. *)
Fixpoint description_selectors (document : Document) (selectors : list jsstring)
  (description : jsstring) : jsstring :=
  match selectors with
  | selector :: rest =>
      let description :=
        description_elements (querySelectorAll document selector) description in
      if nonempty (trim description) then description
      else description_selectors document rest description
  | [] => description
  end.

Definition scraped_description (document : Document) : jsstring :=
  description_selectors document descriptionSelectors [].

(** [/input/i] and [/output/i] *)
Definition re_input : pattern := lit_i (js "input").
Definition re_output : pattern := lit_i (js "output").

Definition inputFormat_selectors : list jsstring :=
  [js ".input-specification"; js ".input-specification p"; class_has "input-spec"].
Definition outputFormat_selectors : list jsstring :=
  [js ".output-specification"; js ".output-specification p"; class_has "output-spec"].

Definition scraped_inputFormat (document : Document) : jsstring :=
  trim (replace (getTextBySelectors document inputFormat_selectors) re_input []).

Definition scraped_outputFormat (document : Document) : jsstring :=
  trim (replace (getTextBySelectors document outputFormat_selectors) re_output []).

(** Sample tests. *)
Definition inputSelectors : list jsstring :=
  [js ".input pre"; js ".sample-input pre"; js ".input"; js ".sample-input"].
Definition outputSelectors : list jsstring :=
  [js ".output pre"; js ".sample-output pre"; js ".output"; js ".sample-output"].

(** [e.textContent?.trim() || ''] *)
Definition trimmed_text (e : Element) : jsstring :=
  match textContent e with
  | Some t => trim t
  | None => []
  end.

(** The test of the [if] around [sampleTests.push]. *)
Definition accepted (input output : jsstring) : bool :=
  nonempty input && nonempty output
  && (List.length input <? 200) && (List.length output <? 200).

(** One round of the loop on [i]. *)
Definition pair_at (inputs outputs : list Element) (sampleTests : list TestCase)
  (i : nat) : list TestCase :=
  match nth_error inputs i, nth_error outputs i with
  | Some a, Some b =>
      let input := trimmed_text a in
      let output := trimmed_text b in
      if accepted input output
      then sampleTests ++ [{| input := input; output := output; explanation := None |}]
      else sampleTests
  | _, _ => sampleTests
  end.

(** [for (let i = 0; i < Math.min(inputs.length, outputs.length); i++)] *)
Definition pair_up (inputs outputs : list Element) (sampleTests : list TestCase)
  : list TestCase :=
  fold_left (pair_at inputs outputs)
    (seq 0 (Nat.min (List.length inputs) (List.length outputs))) sampleTests.

(** The loop over the output selectors, with its [break]. *)
Fixpoint output_families (document : Document) (inputs : list Element)
  (selectors : list jsstring) (sampleTests : list TestCase) : list TestCase :=
  match selectors with
  | outputSel :: rest =>
      let outputs := querySelectorAll document outputSel in
      if 0 <? List.length outputs then
        let sampleTests := pair_up inputs outputs sampleTests in
        if 0 <? List.length sampleTests then sampleTests
        else output_families document inputs rest sampleTests
      else output_families document inputs rest sampleTests
  | [] => sampleTests
  end.

(** The loop over the input selectors, with its [break]. *)
Fixpoint input_families (document : Document) (selectors : list jsstring)
  (sampleTests : list TestCase) : list TestCase :=
  match selectors with
  | inputSel :: rest =>
      let inputs := querySelectorAll document inputSel in
      if 0 <? List.length inputs then
        let sampleTests := output_families document inputs outputSelectors sampleTests in
        if 0 <? List.length sampleTests then sampleTests
        else input_families document rest sampleTests
      else input_families document rest sampleTests
  | [] => sampleTests
  end.

Definition scraped_sampleTests (document : Document) : list TestCase :=
  input_families document inputSelectors [].

(** Constraints.  The comparison class of the two patterns holds the
    code units U+201A, U+00E2, U+00A7, [<] and [=], as the source file
    has them. *)
Definition is_cmp (c : codeunit) : bool :=
  cu_eqb c 8218%N || cu_eqb c 226%N || cu_eqb c 167%N || cu_eqb c 60%N || cu_eqb c 61%N.

Definition constraint_patterns : list pattern :=
  [ [Atom is_digit Plus; Atom is_space Star; Atom is_cmp One; Atom is_space Star;
     Atom is_word Plus; Atom is_space Star; Atom is_cmp One; Atom is_space Star;
     Atom is_digit Plus];
    [chr 49%N; Atom is_space Star; Atom is_cmp One; Atom is_space Star;
     Atom is_word Plus; Atom is_space Star; Atom is_cmp One; Atom is_space Star;
     chr 49%N; chr 48%N; Atom (cu_eqb 94%N) Opt; Atom is_digit Plus] ].

Definition scraped_constraints (document : Document) : list jsstring :=
  let noteText :=
    getTextBySelectors document [js ".note"; js ".notes"; class_has "constraint"] in
  if nonempty noteText then
    fold_left
      (fun constraints pattern =>
         match String_match_g noteText pattern with
         | Some matches => constraints ++ matches
         | None => constraints
         end)
      constraint_patterns []
  else [].

(** The object the callback returns. *)
Definition evaluate_callback (document : Document) : ProblemData :=
  {| title := or_default (scraped_title document) (js "Problem Title");
     timeLimit := or_default (scraped_timeLimit document) (js "1 second");
     memoryLimit := or_default (scraped_memoryLimit document) (js "256 megabytes");
     description := or_default (trim (scraped_description document)) (js "Problem description");
     inputFormat := or_default (scraped_inputFormat document) (js "See problem statement");
     outputFormat := or_default (scraped_outputFormat document) (js "See problem statement");
     constraints := scraped_constraints document;
     sampleTests := scraped_sampleTests document;
     source := js "Codeforces";
     difficulty := None |}.

End Extract.
Import Extract.

(* ===================================================================== *)
(** * The outside world: network, browser, console *)
(* ===================================================================== *)

Module World.

(** Exception values: error objects with a name and a message. *)
Record Error := { err_name : jsstring; err_message : jsstring }.

(** [new Error(message)] *)
Definition new_Error (message : jsstring) : Error :=
  {| err_name := js "Error"; err_message := message |}.

(** An error in a template literal: [Error.prototype.toString]. *)
Definition Error_toString (e : Error) : jsstring :=
  match err_name e, err_message e with
  | [], m => m
  | n, [] => n
  | n, m => n ++ js ": " ++ m
  end.

(** The JSON document of the problem-set API.  [result] is absent in an
    error document. *)
Record ApiData := {
  status : jsstring;
  comment : option jsstring;
  result_problems : option (list CodeforcesApiProblem)
}.

(** What [response.json()] will give: a rejection or the document. *)
Record Response := { body : Error + ApiData }.

(** How one headless-browser session goes: for each call the source
    makes, the error it rejects with, if it does; and the DOM on which
    the callback of [page.evaluate] runs. *)
Record Session := {
  on_launch : option Error;
  on_newPage : option Error;
  on_setRequestInterception : option Error;
  on_setViewport : option Error;
  on_setUserAgent : option Error;
  on_goto : option Error;
  on_waitForFunction : option Error;
  on_evaluate : Error + Document;
  on_close : option Error
}.

(** The oracle of one run: what [fetch] answers, and how the n-th
    browser launched behaves. *)
Record Env := {
  on_fetch : Error + Response;
  sessions : nat -> Session
}.

(** The external calls, in the order they are made. *)
Inductive Event :=
| EFetch (url : jsstring)
| EJson
| ELaunch (browser : nat) (ok : bool)
| ENewPage (browser : nat)
| ESetRequestInterception (browser : nat)
| ESetViewport (browser : nat) (width height : nat)
| ESetUserAgent (browser : nat) (userAgent : jsstring)
| EGoto (browser : nat) (url : jsstring) (timeout : N)
| EWaitForFunction (browser : nat) (timeout : N)
| EEvaluate (browser : nat)
| EClose (browser : nat)
| EConsole (level : jsstring) (text : jsstring) (err : option Error).

Definition Trace := list Event.

(** Completion of an asynchronous function: a value or an exception. *)
Inductive Completion (A : Type) :=
| Normal (a : A)
| Throw (e : Error).
Arguments Normal {A} a.
Arguments Throw {A} e.

(** Sequential code over the oracle, the trace so far as its state. *)
Definition M (A : Type) := Env -> Trace -> Completion A * Trace.

Definition ret {A} (a : A) : M A := fun _ t => (Normal a, t).

Definition bind {A B} (c : M A) (k : A -> M B) : M B :=
  fun env t =>
    match c env t with
    | (Normal a, t') => k a env t'
    | (Throw e, t') => (Throw e, t')
    end.

Definition throw {A} (e : Error) : M A := fun _ t => (Throw e, t).

(** [try { c } catch (e) { handler e }] *)
Definition try_catch {A} (c : M A) (handler : Error -> M A) : M A :=
  fun env t =>
    match c env t with
    | (Normal a, t') => (Normal a, t')
    | (Throw e, t') => handler e env t'
    end.

(** [try { c } finally { f }]: [f] always runs; its exception, if any,
    replaces the completion of [c]. *)
Definition try_finally {A} (c : M A) (f : M unit) : M A :=
  fun env t =>
    match c env t with
    | (r, t') =>
        match f env t' with
        | (Normal _, t'') => (r, t'')
        | (Throw e, t'') => (Throw e, t'')
        end
    end.

Declare Scope js_scope.
Delimit Scope js_scope with js.
Notation "x <- c ;; k" := (bind c (fun x => k))
  (at level 61, c at next level, right associativity) : js_scope.
Notation "c ;; k" := (bind c (fun _ => k))
  (at level 61, right associativity) : js_scope.
Local Open Scope js_scope.

Definition emit (e : Event) : M unit := fun _ t => (Normal tt, t ++ [e]).

(** An external call that is logged and then resolves or rejects. *)
Definition call (e : Event) (rejects : option Error) : M unit :=
  emit e ;;
  match rejects with
  | Some err => throw err
  | None => ret tt
  end.

Definition console (level text : jsstring) (err : option Error) : M unit :=
  emit (EConsole level text err).

(** [await fetch(url)] *)
Definition fetch (url : jsstring) : M Response :=
  fun env t =>
    match on_fetch env with
    | inl e => (Throw e, t ++ [EFetch url])
    | inr r => (Normal r, t ++ [EFetch url])
    end.

(** [await response.json()] *)
Definition Response_json (r : Response) : M ApiData :=
  emit EJson ;;
  match body r with
  | inl e => throw e
  | inr d => ret d
  end.

(** Number of browsers launched so far: the next browser's number. *)
Definition launches (t : Trace) : nat :=
  List.length (filter (fun e => match e with ELaunch _ _ => true | _ => false end) t).

(** Number of calls of [fetch] so far. *)
Definition fetches (t : Trace) : nat :=
  List.length (filter (fun e => match e with EFetch _ => true | _ => false end) t).

(** [await puppeteer.launch(...)] *)
Definition puppeteer_launch : M nat :=
  fun env t =>
    let b := launches t in
    match on_launch (sessions env b) with
    | Some e => (Throw e, t ++ [ELaunch b false])
    | None => (Normal b, t ++ [ELaunch b true])
    end.

Definition session_of (b : nat) : M Session := fun env t => (Normal (sessions env b), t).

Definition browser_newPage (b : nat) : M unit :=
  s <- session_of b ;; call (ENewPage b) (on_newPage s).
Definition page_setRequestInterception (b : nat) : M unit :=
  s <- session_of b ;; call (ESetRequestInterception b) (on_setRequestInterception s).
Definition page_setViewport (b : nat) (width height : nat) : M unit :=
  s <- session_of b ;; call (ESetViewport b width height) (on_setViewport s).
Definition page_setUserAgent (b : nat) (ua : jsstring) : M unit :=
  s <- session_of b ;; call (ESetUserAgent b ua) (on_setUserAgent s).
Definition page_goto (b : nat) (url : jsstring) (timeout : N) : M unit :=
  s <- session_of b ;; call (EGoto b url timeout) (on_goto s).
Definition page_waitForFunction (b : nat) (timeout : N) : M unit :=
  s <- session_of b ;; call (EWaitForFunction b timeout) (on_waitForFunction s).

(** [await page.evaluate(callback)]: the callback runs on the page's DOM. *)
Definition page_evaluate {A} (b : nat) (callback : Document -> A) : M A :=
  s <- session_of b ;;
  emit (EEvaluate b) ;;
  match on_evaluate s with
  | inl e => throw e
  | inr document => ret (callback document)
  end.

(** [await browser.close()] *)
Definition browser_close (b : nat) : M unit :=
  s <- session_of b ;; call (EClose b) (on_close s).

(** Sessions open after the events [t], given those open before. *)
Fixpoint live (t : Trace) (opened : list nat) : list nat :=
  match t with
  | ELaunch b true :: t' => live t' (b :: opened)
  | EClose b :: t' => live t' (remove Nat.eq_dec b opened)
  | _ :: t' => live t' opened
  | [] => opened
  end.

End World.
Import World.
Local Open Scope js_scope.

(* ===================================================================== *)
(** * ProblemWebviewProvider *)
(* ===================================================================== *)

(** The handler of [page.on('request', ...)]. *)
Inductive RequestAction := Abort | Continue.

Definition on_request (resourceType : jsstring) : RequestAction :=
  if str_eqb resourceType (js "image") || str_eqb resourceType (js "font")
     || str_eqb resourceType (js "media") || str_eqb resourceType (js "websocket")
  then Abort else Continue.

Definition userAgent : jsstring :=
  js "Mozilla/5.0 (Windows NT 10.0; Win64; x64) AppleWebKit/537.36 (KHTML, like Gecko) Chrome/120.0.0.0 Safari/537.36".

(** [scrapeWithOptimizedPuppeteer]: the launch is outside the [try]; the
    [catch] rewraps any exception; the [finally] closes the browser. *)
Definition scrapeWithOptimizedPuppeteer (url : jsstring) : M ProblemData :=
  browser <- puppeteer_launch ;;
  try_finally
    (try_catch
       (browser_newPage browser ;;
        page_setRequestInterception browser ;;
        page_setViewport browser 800 600 ;;
        page_setUserAgent browser userAgent ;;
        console (js "log") (js "Loading problem page...") None ;;
        page_goto browser url 20000%N ;;
        try_catch (page_waitForFunction browser 10000%N)
          (fun e => console (js "log") (js "Waiting longer for content...") None) ;;
        console (js "log") (js "Extracting problem data...") None ;;
        problemData <- page_evaluate browser evaluate_callback ;;
        console (js "log") (js "Problem data extracted successfully") None ;;
        ret problemData)
       (fun error =>
          console (js "error") (js "Error during scraping:") (Some error) ;;
          throw (new_Error (js "Failed to scrape problem data: " ++ Error_toString error))))
    (browser_close browser).

(** The two URL patterns, compiled with the [i] flag:
    [/\/problemset\/problem\/(\d+)\/([A-Z]\d?)/i] and
    [/\/contest\/(\d+)\/problem\/([A-Z]\d?)/i]. *)
Definition digit_i : codeunit -> bool := range_i 48%N 57%N.
Definition letter_i : codeunit -> bool := range_i 65%N 90%N.

Definition re_problemset : pattern :=
  lit_i (js "/problemset/problem/")
  ++ [Open; Atom digit_i Plus; Close]
  ++ lit_i (js "/")
  ++ [Open; Atom letter_i One; Atom digit_i Opt; Close].

Definition re_contest : pattern :=
  lit_i (js "/contest/")
  ++ [Open; Atom digit_i Plus; Close]
  ++ lit_i (js "/problem/")
  ++ [Open; Atom letter_i One; Atom digit_i Opt; Close].

(** [url.match(re1) || url.match(re2)] *)
Definition urlMatch (url : jsstring) : option (list jsstring) :=
  match String_match url re_problemset with
  | Some m => Some m
  | None => String_match url re_contest
  end.

(** [urlMatch[i]] *)
Definition group (m : list jsstring) (i : nat) : jsstring := nth i m [].

Definition apiUrl : jsstring := js "https://codeforces.com/api/problemset.problems".

Section Pipeline.

(** Number::toString in radix 10, as template literals apply it.  It is
    a parameter of the development: no result below depends on how a
    number prints. *)
Variable NumberToString : number -> jsstring.

(** A possibly absent string in a template literal. *)
Definition show_optional (s : option jsstring) : jsstring :=
  match s with Some t => t | None => js "undefined" end.

(** [fetchFromCodeforcesAPI] *)
Definition fetchFromCodeforcesAPI (contestId_ : number) (problemIndex : jsstring)
  : M CodeforcesApiProblem :=
  try_catch
    (response <- fetch apiUrl ;;
     data <- Response_json response ;;
     if negb (str_eqb (status data) (js "OK")) then
       throw (new_Error (js "API Error: " ++ show_optional (comment data)))
     else
       match result_problems data with
       | None =>
           throw {| err_name := js "TypeError";
                    err_message := js "Cannot read properties of undefined (reading 'problems')" |}
       | Some problems =>
           match find (fun p => strict_eq (contestId p) contestId_
                                && str_eqb (index p) problemIndex) problems with
           | None =>
               throw (new_Error (js "Problem " ++ NumberToString contestId_ ++ js "/"
                                 ++ problemIndex ++ js " not found in API"))
           | Some problem => ret problem
           end
       end)
    (fun error =>
       throw (new_Error (js "Failed to fetch from Codeforces API: " ++ Error_toString error))).

(** The object literal of the [try] block of [extractProblemData]. *)
Definition combine_data (contestId_ : number) (apiData : CodeforcesApiProblem)
  (detailedData : ProblemData) : ProblemData :=
  {| title := or_default (name apiData) (title detailedData);
     timeLimit := timeLimit detailedData;
     memoryLimit := memoryLimit detailedData;
     description := description detailedData;
     inputFormat := inputFormat detailedData;
     outputFormat := outputFormat detailedData;
     constraints := constraints detailedData;
     sampleTests := sampleTests detailedData;
     source := js "Contest " ++ NumberToString contestId_;
     difficulty :=
       match rating apiData with
       | Some r => if truthy r then Some (js "*" ++ NumberToString r)
                   else difficulty detailedData
       | None => difficulty detailedData
       end |}.

(** [extractProblemData] *)
Definition extractProblemData (url : jsstring) : M ProblemData :=
  match urlMatch url with
  | None => throw (new_Error (js "Invalid Codeforces problem URL format"))
  | Some m =>
      let contestId_ := parseInt (group m 1) in
      let problemIndex := toUpperCase (group m 2) in
      try_catch
        (apiData <- fetchFromCodeforcesAPI contestId_ problemIndex ;;
         detailedData <- scrapeWithOptimizedPuppeteer url ;;
         ret (combine_data contestId_ apiData detailedData))
        (fun apiError =>
           console (js "warn") (js "API fetch failed, using scraping only:") (Some apiError) ;;
           scrapeWithOptimizedPuppeteer url)
  end.

End Pipeline.

(* ===================================================================== *)
(** * Reference notions used in the statements *)
(* ===================================================================== *)

(** Equality of two texts up to the case folding of the [i] flag. *)
Definition eq_i (a b : jsstring) : Prop :=
  List.map Canonicalize a = List.map Canonicalize b.

(** A problem index: an upper-case letter, then at most one digit. *)
Definition is_index (s : jsstring) : bool :=
  match s with
  | [l] => is_upper l
  | [l; d] => is_upper l && is_digit d
  | _ => false
  end.

(** Value of a run of decimal digits. *)
Definition decimal_value (ds : jsstring) : Z :=
  fold_left (fun acc c => (acc * 10 + Z.of_N (c - 48))%Z) ds 0%Z.

(** Number::toString on the integers of magnitude up to 2^53, the
    infinities and NaN: the printer the worked examples run with (at 0, 4
    and 800).  Past 2^53 JavaScript prints the shortest digits that read
    back as the same double, filled up with zeros, where this printer
    gives the exact expansion; the theorems take the printer as a
    parameter and do not rely on it. *)
Definition decimal_toString (n : number) : jsstring :=
  match n with
  | Fin z => js (DecimalString.NilZero.string_of_int (Z.to_int z))
  | PosInf => js "Infinity"
  | NegInf => js "-Infinity"
  | NaN => js "NaN"
  end.

(** Worked examples: a page in the layout of problem 4A and the oracles
    around it. *)
Module Sample.

Definition leaf (t : string) : Element :=
  mkElement (Some (js t)) [] (fun _ => None).

Fixpoint lookup (table : list (string * list Element)) (selector : jsstring)
  : list Element :=
  match table with
  | (k, v) :: rest => if str_eqb (js k) selector then v else lookup rest selector
  | [] => []
  end.

Definition page_of (table : list (string * list Element)) : Document :=
  {| querySelectorAll := lookup table |}.

Definition watermelon_page : Document :=
  page_of
    [ (".problem-statement .title", [leaf "A. Watermelon"]);
      (".time-limit", [leaf "time limit per test1 second"]);
      (".memory-limit", [leaf "memory limit per test64 megabytes"]);
      (".input-specification",
         [leaf "InputThe first (and the only) input line contains integer number w (1 <= w <= 100)."]);
      (".output-specification",
         [leaf "OutputPrint YES, if the boys can divide the watermelon into two parts; and NO in the opposite case."]);
      (".input pre", [leaf "8"; leaf "6"]);
      (".output pre", [leaf "YES"; leaf "YES"]) ]%string.

(** A page whose input section has no title: one paragraph is all it
    holds, so the section and the paragraph have the same text. *)
Definition untitled_page : Document :=
  page_of
    [ (".input-specification", [leaf "The first line of input holds n."]);
      (".input-specification p", [leaf "The first line of input holds n."]) ]%string.

Definition calm (document : Document) : Session :=
  {| on_launch := None; on_newPage := None; on_setRequestInterception := None;
     on_setViewport := None; on_setUserAgent := None; on_goto := None;
     on_waitForFunction := None; on_evaluate := inr document; on_close := None |}.

Definition TimeoutError : Error :=
  {| err_name := js "TimeoutError";
     err_message := js "Navigation timeout of 20000 ms exceeded" |}.

(** A session whose navigation times out. *)
Definition stalled (document : Document) : Session :=
  {| on_launch := None; on_newPage := None; on_setRequestInterception := None;
     on_setViewport := None; on_setUserAgent := None; on_goto := Some TimeoutError;
     on_waitForFunction := None; on_evaluate := inr document; on_close := None |}.

Definition record_4A (r : option number) : CodeforcesApiProblem :=
  {| contestId := Fin 4; index := js "A"; name := js "Watermelon";
     type := js "PROGRAMMING"; rating := r; tags := [js "brute force"; js "math"] |}.

Definition api_answers (problems : list CodeforcesApiProblem) : Error + Response :=
  inr {| body := inr {| status := js "OK"; comment := None;
                        result_problems := Some problems |} |}.

Definition api_down : Error + Response :=
  inl {| err_name := js "TypeError"; err_message := js "fetch failed" |}.

Definition url_4A : jsstring := js "https://codeforces.com/contest/4/problem/A".

(** The API knows 4A (rating 800); every browser session goes well. *)
Definition env_ok : Env :=
  {| on_fetch := api_answers [record_4A (Some (Fin 800))];
     sessions := fun _ => calm watermelon_page |}.

(** The API is unreachable; the browser session goes well. *)
Definition env_api_down : Env :=
  {| on_fetch := api_down; sessions := fun _ => calm watermelon_page |}.

(** The API knows 4A with a rating of 0. *)
Definition env_rating0 : Env :=
  {| on_fetch := api_answers [record_4A (Some (Fin 0))];
     sessions := fun _ => calm watermelon_page |}.

(** The API knows 4A; the first browser session times out at navigation,
    later ones go well. *)
Definition env_first_stalls : Env :=
  {| on_fetch := api_answers [record_4A (Some (Fin 800))];
     sessions := fun n => match n with
                          | O => stalled watermelon_page
                          | _ => calm watermelon_page
                          end |}.

(** The API names problem 4A "Watermelon"; the page is titled otherwise. *)
Definition retitled_page : Document :=
  page_of [ (".problem-statement .title", [leaf "A. Arbuz"]) ]%string.

Definition env_retitled : Env :=
  {| on_fetch := api_answers [record_4A (Some (Fin 800))];
     sessions := fun _ => calm retitled_page |}.

(** A contest number one past 2^53. *)
Definition url_2p53 : jsstring :=
  js "https://codeforces.com/contest/9007199254740993/problem/A".

(** A blog URL whose query string ends like a problem URL. *)
Definition url_elsewhere : jsstring :=
  js "https://codeforces.com/blog/entry/1?next=/contest/4/problem/A".

(** The URL of problem 4A with a problem URL of the other shape in its
    query string. *)
Definition url_two_shapes : jsstring :=
  js "https://codeforces.com/contest/4/problem/A?from=/problemset/problem/7/b".

(** A session whose readiness wait times out; all else goes well. *)
Definition slow_ready (document : Document) : Session :=
  {| on_launch := None; on_newPage := None; on_setRequestInterception := None;
     on_setViewport := None; on_setUserAgent := None; on_goto := None;
     on_waitForFunction := Some TimeoutError; on_evaluate := inr document;
     on_close := None |}.

(** A session in which the page is read and then the browser fails to
    close. *)
Definition close_fails (document : Document) (e : Error) : Session :=
  {| on_launch := None; on_newPage := None; on_setRequestInterception := None;
     on_setViewport := None; on_setUserAgent := None; on_goto := None;
     on_waitForFunction := None; on_evaluate := inr document;
     on_close := Some e |}.

Definition env_slow_ready : Env :=
  {| on_fetch := api_down; sessions := fun _ => slow_ready watermelon_page |}.

Definition env_close_fails : Env :=
  {| on_fetch := api_down;
     sessions := fun _ => close_fails watermelon_page
                            {| err_name := js "Error"; err_message := js "Protocol error" |} |}.

(** A page whose samples sit in bare [.input] and [.output] blocks. *)
Definition bare_samples_page : Document :=
  page_of
    [ (".input", [leaf " 3 "; leaf ""; leaf "5"]);
      (".sample-output pre", [leaf ""]);
      (".output", [leaf "9"; leaf "skipped"; leaf "25"; leaf "extra"]) ]%string.

End Sample.

(** Index [i] of the two lists passes the acceptance test. *)
Definition accepted_at (inputs outputs : list Element) (i : nat) : bool :=
  match nth_error inputs i, nth_error outputs i with
  | Some a, Some b => accepted (trimmed_text a) (trimmed_text b)
  | _, _ => false
  end.

(** The test case made of the [i]-th input and the [i]-th output. *)
Definition test_at (inputs outputs : list Element) (i : nat) : TestCase :=
  {| input := match nth_error inputs i with Some a => trimmed_text a | None => [] end;
     output := match nth_error outputs i with Some b => trimmed_text b | None => [] end;
     explanation := None |}.

(** The input starts with the text [l], up to case. *)
Fixpoint prefix_i (l s : jsstring) : bool :=
  match l, s with
  | [], _ => true
  | a :: l', c :: s' => char_i a c && prefix_i l' s'
  | _ :: _, [] => false
  end.

(** Both URL patterns: a literal, the digits group, a literal, the index
    group. *)
Definition re_url (l1 l2 : jsstring) : pattern :=
  lit_i l1 ++ [Open; Atom digit_i Plus; Close]
  ++ lit_i l2 ++ [Open; Atom letter_i One; Atom digit_i Opt; Close].

(** Length of the index the last group takes at the head of the input:
    a letter, and the digit after it when there is one. *)
Definition index_len (s : jsstring) : option nat :=
  match s with
  | c :: s' =>
      if letter_i c then
        match s' with
        | d :: _ => if digit_i d then Some 2 else Some 1
        | [] => Some 1
        end
      else None
  | [] => None
  end.

(** The shape shared by the texts the two patterns match. *)
Definition problem_text (w1 ds w2 : jsstring) (l : codeunit) : Prop :=
  ((eq_i w1 (js "/problemset/problem/") /\ eq_i w2 (js "/"))
   \/ (eq_i w1 (js "/contest/") /\ eq_i w2 (js "/problem/")))
  /\ ds <> [] /\ forallb is_digit ds = true
  /\ (is_upper l || is_lower l)%bool = true.

(** The part of a URL from its path on: after the ["://"] of the scheme,
    if there is one, what starts at the first ["/"]. *)
Fixpoint after_scheme (s : jsstring) : option jsstring :=
  match s with
  | c :: s' =>
      match s' with
      | a :: b :: rest =>
          if cu_eqb c 58%N && cu_eqb a 47%N && cu_eqb b 47%N then Some rest
          else after_scheme s'
      | _ => None
      end
  | [] => None
  end.

Fixpoint from_slash (s : jsstring) : jsstring :=
  match s with
  | c :: s' => if cu_eqb c 47%N then s else from_slash s'
  | [] => []
  end.

Definition url_path (url : jsstring) : jsstring :=
  match after_scheme url with
  | Some rest => from_slash rest
  | None => from_slash url
  end.

(** One of the two shapes begins the path of the URL. *)
Definition shape_begins_path (url : jsstring) : bool :=
  is_some (run re_problemset (url_path url) 0 [] [])
  || is_some (run re_contest (url_path url) 0 [] []).

(** A text of the shape [l1] digits [l2] index stands at position [j] of
    [url]: [ds] is its run of digits, [idx] its letter together with the
    digit that follows the letter, if one does. *)
Definition shape_at (l1 l2 url : jsstring) (j : nat) (ds idx : jsstring) : Prop :=
  exists pre w1 w2 l d rest,
    url = pre ++ w1 ++ ds ++ w2 ++ (l :: d) ++ rest
    /\ List.length pre = j
    /\ eq_i w1 l1 /\ eq_i w2 l2
    /\ ds <> [] /\ forallb is_digit ds = true
    /\ (is_upper l || is_lower l)%bool = true
    /\ ((d = [] /\ forall x rest', rest = x :: rest' -> is_digit x = false)
        \/ exists x, d = [x] /\ is_digit x = true)
    /\ idx = l :: d.

(** Some text of the shape starts at position [j]. *)
Definition shape_starts (l1 l2 url : jsstring) (j : nat) : Prop :=
  exists ds idx, shape_at l1 l2 url j ds idx.

(** The occurrence [url.match(re1) || url.match(re2)] reads: the
    leftmost text of the problemset shape, wherever in the string it
    stands, and the leftmost text of the contest shape only when there
    is no text of the problemset shape at all. *)
Definition chosen_occurrence (url : jsstring) (j : nat) (ds idx : jsstring) : Prop :=
  (shape_at (js "/problemset/problem/") (js "/") url j ds idx
   /\ forall j', j' < j -> ~ shape_starts (js "/problemset/problem/") (js "/") url j')
  \/ (shape_at (js "/contest/") (js "/problem/") url j ds idx
      /\ (forall j', ~ shape_starts (js "/problemset/problem/") (js "/") url j')
      /\ forall j', j' < j -> ~ shape_starts (js "/contest/") (js "/problem/") url j').

(** The word [w] stands, up to case, at position [j] of [s]. *)
Definition occurs_at (w s : jsstring) (j : nat) : Prop :=
  exists pre x post, s = pre ++ x ++ post /\ List.length pre = j /\ eq_i x w.

(** Removal of a leading label only: the text without the word [w] when
    it starts with it, up to case; the text itself otherwise. *)
Definition strip_leading_label (w s : jsstring) : jsstring :=
  if prefix_i w s then skipn (List.length w) s else s.

(** The events that open or close a browser session. *)
Definition is_session_boundary (e : Event) : bool :=
  match e with
  | ELaunch _ _ | EClose _ => true
  | _ => false
  end.

(** The console line of the [catch] of [extractProblemData]. *)
Definition warn_api_failed (e : Error) : Event :=
  EConsole (js "warn") (js "API fetch failed, using scraping only:") (Some e).

(** The trace at which the scrape that follows the metadata fetch
    starts: right after the fetch when it succeeded, after the warning
    when it failed. *)
Definition after_fetch (r : Completion CodeforcesApiProblem) (t : Trace) : Trace :=
  match r with
  | Normal _ => t
  | Throw e => t ++ [warn_api_failed e]
  end.

(** The exception [fetchFromCodeforcesAPI] rethrows for a cause. *)
Definition api_failure (cause : Error) : Error :=
  new_Error (js "Failed to fetch from Codeforces API: " ++ Error_toString cause).

(** The exception the [catch] of [scrapeWithOptimizedPuppeteer] rethrows
    for a cause. *)
Definition scrape_failure (cause : Error) : Error :=
  new_Error (js "Failed to scrape problem data: " ++ Error_toString cause).

(** The test of the linear scan of [fetchFromCodeforcesAPI]. *)
Definition is_problem (cid : number) (idx : jsstring) (p : CodeforcesApiProblem) : bool :=
  strict_eq (contestId p) cid && str_eqb (index p) idx.

(** The tests a pair of selector families yields. *)
Definition family_tests (document : Document) (inputSel outputSel : jsstring)
  : list TestCase :=
  pair_up (querySelectorAll document inputSel) (querySelectorAll document outputSel) [].

(** Length of the longest prefix of [s] in the class [p]. *)
Fixpoint span_len (p : codeunit -> bool) (s : jsstring) : nat :=
  match s with
  | c :: s' => if p c then S (span_len p s') else 0
  | [] => 0
  end.

(** Every maximal run of code units of the class [p] replaced by one
    space, in one pass; [inrun] tells that the code unit before was in
    the class. *)
Fixpoint collapse (p : codeunit -> bool) (inrun : bool) (s : jsstring) : jsstring :=
  match s with
  | c :: s' =>
      if p c then (if inrun then collapse p true s' else 32%N :: collapse p true s')
      else c :: collapse p false s'
  | [] => []
  end.

(** No two white-space code units stand side by side. *)
Fixpoint single_spaced (s : jsstring) : bool :=
  match s with
  | a :: s' =>
      match s' with
      | b :: _ => negb (is_space a && is_space b) && single_spaced s'
      | [] => true
      end
  | [] => true
  end.

(** The text is empty or starts with a code unit that is not white space. *)
Definition starts_nonspace (s : jsstring) : bool :=
  match s with
  | c :: _ => negb (is_space c)
  | [] => true
  end.

Definition nonspace (c : codeunit) : bool := negb (is_space c).

(** The text of the first element a selector finds, when it is there
    and not blank. *)
Definition located_text (document : Document) (selector : jsstring) : option jsstring :=
  match querySelector document selector with
  | Some element =>
      match textContent element with
      | Some t => if forallb is_space t then None else Some t
      | None => None
      end
  | None => None
  end.

(** The text of an element that passes the test of the description
    loop: text that is there, no section title, no limit below it, more
    than 20 code units once trimmed. *)
Definition qualifies (element : Element) : option jsstring :=
  match textContent element with
  | Some t =>
      if nonempty t
         && negb (classList_contains element (js "section-title"))
         && negb (is_some (el_querySelector element (js ".time-limit")))
         && negb (is_some (el_querySelector element (js ".memory-limit")))
         && (20 <? List.length (trim t))
      then Some t else None
  | None => None
  end.

(** The qualifying texts of a list of elements, in document order. *)
Fixpoint qualifying (elements : list Element) : list jsstring :=
  match elements with
  | element :: rest =>
      match qualifies element with
      | Some t => t :: qualifying rest
      | None => qualifying rest
      end
  | [] => []
  end.

(** What one qualifying text adds to the description. *)
Definition piece (t : jsstring) : jsstring := cleanText t ++ js " ".

(* ===================================================================== *)
(** * The problem viewer: markup, sample data, panel and commands *)
(* ===================================================================== *)

(** The literal text of the template of [getWebviewContent], between
    its interpolations, as the source file has it. *)
Module Markup.

(** From the start of the document to the opening of the title heading. *)
Definition page_head : jsstring :=
  js "
        <!DOCTYPE html>
        <html lang=" ++ [34]%N ++ js "en" ++ [34]%N ++ js ">
        <head>
            <meta charset=" ++ [34]%N ++ js "UTF-8" ++ [34]%N ++ js ">
            <meta name=" ++ [34]%N ++ js "viewport" ++ [34]%N ++ js " content=" ++ [34]%N ++ js "width=device-width, initial-scale=1.0" ++ [34]%N ++ js ">
            <title>Problem Viewer</title>
            <style>
                :root {
                    --bg-primary: #1e1e1e;
                    --bg-secondary: #252526;
                    --bg-tertiary: #2d2d30;
                    --text-primary: #cccccc;
                    --text-secondary: #9d9d9d;
                    --accent-blue: #007acc;
                    --accent-green: #4caf50;
                    --accent-orange: #ff9800;
                    --border: #3e3e42;
                    --success: #4caf50;
                    --error: #f44336;
                }

                * {
                    margin: 0;
                    padding: 0;
                    box-sizing: border-box;
                }

                body {
                    font-family: 'Segoe UI', Tahoma, Geneva, Verdana, sans-serif;
                    background: var(--bg-primary);
                    color: var(--text-primary);
                    line-height: 1.6;
                    overflow-x: hidden;
                }

                .container {
                    max-width: 1200px;
                    margin: 0 auto;
                    padding: 20px;
                }

                .header {
                    background: linear-gradient(135deg, var(--accent-blue), #005a9e);
                    padding: 20px;
                    border-radius: 12px;
                    margin-bottom: 24px;
                    box-shadow: 0 4px 12px rgba(0, 0, 0, 0.3);
                }

                .header h1 {
                    font-size: 1.8em;
                    margin-bottom: 8px;
                    font-weight: 600;
                }

                .header-meta {
                    display: flex;
                    gap: 20px;
                    flex-wrap: wrap;
                    font-size: 0.9em;
                    opacity: 0.9;
                }

                .meta-item {
                    display: flex;
                    align-items: center;
                    gap: 6px;
                }

                .difficulty-badge {
                    background: var(--accent-orange);
                    color: white;
                    padding: 4px 10px;
                    border-radius: 20px;
                    font-size: 0.8em;
                    font-weight: 600;
                }

                .section {
                    background: var(--bg-secondary);
                    border-radius: 12px;
                    padding: 20px;
                    margin-bottom: 20px;
                    border: 1px solid var(--border);
                    transition: transform 0.2s ease;
                }

                .section:hover {
                    transform: translateY(-2px);
                    box-shadow: 0 4px 12px rgba(0, 0, 0, 0.2);
                }

                .section-title {
                    font-size: 1.2em;
                    color: var(--accent-blue);
                    margin-bottom: 12px;
                    font-weight: 600;
                    display: flex;
                    align-items: center;
                    gap: 8px;
                }

                .section-content {
                    color: var(--text-primary);
                }

                .constraints-list {
                    list-style: none;
                    padding: 0;
                }

                .constraints-list li {
                    padding: 8px 0;
                    border-bottom: 1px solid var(--border);
                    position: relative;
                    padding-left: 20px;
                }

                .constraints-list li:before {
                    content: " ++ [34; 8218; 241; 8719; 34]%N ++ js ";
                    color: var(--accent-blue);
                    font-weight: bold;
                    position: absolute;
                    left: 0;
                }

                .constraints-list li:last-child {
                    border-bottom: none;
                }

                .test-cases {
                    display: grid;
                    gap: 16px;
                }

                .test-case {
                    background: var(--bg-tertiary);
                    border-radius: 8px;
                    padding: 16px;
                    border-left: 4px solid var(--accent-blue);
                    position: relative;
                }

                .test-case-header {
                    display: flex;
                    justify-content: space-between;
                    align-items: center;
                    margin-bottom: 12px;
                }

                .test-case-title {
                    font-weight: 600;
                    color: var(--accent-blue);
                }

                .copy-btn {
                    background: var(--accent-blue);
                    color: white;
                    border: none;
                    padding: 4px 12px;
                    border-radius: 6px;
                    cursor: pointer;
                    font-size: 0.8em;
                    transition: background 0.2s ease;
                }

                .copy-btn:hover {
                    background: #005a9e;
                }

                .io-container {
                    display: grid;
                    grid-template-columns: 1fr 1fr;
                    gap: 12px;
                }

                .io-block {
                    background: var(--bg-primary);
                    border-radius: 6px;
                    padding: 12px;
                    border: 1px solid var(--border);
                }

                .io-label {
                    font-size: 0.8em;
                    color: var(--text-secondary);
                    margin-bottom: 6px;
                    text-transform: uppercase;
                    letter-spacing: 0.5px;
                }

                .io-content {
                    font-family: 'Consolas', 'Monaco', monospace;
                    font-size: 0.9em;
                    white-space: pre-wrap;
                    word-break: break-all;
                }

                .explanation {
                    margin-top: 12px;
                    padding: 10px;
                    background: rgba(76, 175, 80, 0.1);
                    border-radius: 6px;
                    border-left: 3px solid var(--success);
                    font-size: 0.9em;
                    color: var(--text-secondary);
                }

                .actions {
                    position: sticky;
                    bottom: 20px;
                    background: var(--bg-secondary);
                    padding: 20px;
                    border-radius: 12px;
                    border: 1px solid var(--border);
                    display: flex;
                    gap: 12px;
                    justify-content: center;
                    box-shadow: 0 -2px 12px rgba(0, 0, 0, 0.2);
                }

                .action-btn {
                    background: linear-gradient(135deg, var(--accent-green), #388e3c);
                    color: white;
                    border: none;
                    padding: 12px 24px;
                    border-radius: 8px;
                    cursor: pointer;
                    font-size: 1em;
                    font-weight: 600;
                    transition: all 0.2s ease;
                    display: flex;
                    align-items: center;
                    gap: 8px;
                    min-width: 140px;
                    justify-content: center;
                }

                .action-btn.secondary {
                    background: linear-gradient(135deg, var(--accent-blue), #005a9e);
                }

                .action-btn:hover {
                    transform: translateY(-2px);
                    box-shadow: 0 4px 12px rgba(0, 0, 0, 0.3);
                }

                .action-btn:active {
                    transform: translateY(0);
                }

                .icon {
                    font-size: 1.1em;
                }

                @media (max-width: 768px) {
                    .container {
                        padding: 12px;
                    }
                    
                    .io-container {
                        grid-template-columns: 1fr;
                    }
                    
                    .actions {
                        flex-direction: column;
                    }
                    
                    .header-meta {
                        flex-direction: column;
                        gap: 8px;
                    }
                }

                /* Smooth animations */
                .section, .test-case, .action-btn {
                    animation: fadeInUp 0.3s ease forwards;
                }

                @keyframes fadeInUp {
                    from {
                        opacity: 0;
                        transform: translateY(20px);
                    }
                    to {
                        opacity: 1;
                        transform: translateY(0);
                    }
                }
            </style>
        </head>
        <body>
            <div class=" ++ [34]%N ++ js "container" ++ [34]%N ++ js ">
                <header class=" ++ [34]%N ++ js "header" ++ [34]%N ++ js ">
                    <h1>".

(** From the title to the time limit. *)
Definition page_after_title : jsstring :=
  js "</h1>
                    <div class=" ++ [34]%N ++ js "header-meta" ++ [34]%N ++ js ">
                        <div class=" ++ [34]%N ++ js "meta-item" ++ [34]%N ++ js ">
                            <span class=" ++ [34]%N ++ js "icon" ++ [34]%N ++ js ">" ++ [8218; 232; 177; 212; 8719; 232]%N ++ js "</span>
                            <span>Time: ".

(** From the time limit to the memory limit. *)
Definition page_after_time : jsstring :=
  js "</span>
                        </div>
                        <div class=" ++ [34]%N ++ js "meta-item" ++ [34]%N ++ js ">
                            <span class=" ++ [34]%N ++ js "icon" ++ [34]%N ++ js ">" ++ [63743; 252; 237; 230]%N ++ js "</span>
                            <span>Memory: ".

(** From the memory limit to the source. *)
Definition page_after_memory : jsstring :=
  js "</span>
                        </div>
                        <div class=" ++ [34]%N ++ js "meta-item" ++ [34]%N ++ js ">
                            <span class=" ++ [34]%N ++ js "icon" ++ [34]%N ++ js ">" ++ [63743; 252; 236; 246]%N ++ js "</span>
                            <span>".

(** From the source to the difficulty badge. *)
Definition page_after_source : jsstring :=
  js "</span>
                        </div>
                        ".

(** From the difficulty badge to the problem statement. *)
Definition page_after_badge : jsstring :=
  js "
                    </div>
                </header>

                <section class=" ++ [34]%N ++ js "section" ++ [34]%N ++ js ">
                    <h2 class=" ++ [34]%N ++ js "section-title" ++ [34]%N ++ js ">
                        <span class=" ++ [34]%N ++ js "icon" ++ [34]%N ++ js ">" ++ [63743; 252; 236; 227]%N ++ js "</span>
                        Problem Statement
                    </h2>
                    <div class=" ++ [34]%N ++ js "section-content" ++ [34]%N ++ js ">
                        ".

(** From the problem statement to the input format. *)
Definition page_after_description : jsstring :=
  js "
                    </div>
                </section>

                <section class=" ++ [34]%N ++ js "section" ++ [34]%N ++ js ">
                    <h2 class=" ++ [34]%N ++ js "section-title" ++ [34]%N ++ js ">
                        <span class=" ++ [34]%N ++ js "icon" ++ [34]%N ++ js ">" ++ [63743; 252; 236; 8226]%N ++ js "</span>
                        Input Format
                    </h2>
                    <div class=" ++ [34]%N ++ js "section-content" ++ [34]%N ++ js ">
                        ".

(** From the input format to the output format. *)
Definition page_after_input : jsstring :=
  js "
                    </div>
                </section>

                <section class=" ++ [34]%N ++ js "section" ++ [34]%N ++ js ">
                    <h2 class=" ++ [34]%N ++ js "section-title" ++ [34]%N ++ js ">
                        <span class=" ++ [34]%N ++ js "icon" ++ [34]%N ++ js ">" ++ [63743; 252; 236; 167]%N ++ js "</span>
                        Output Format
                    </h2>
                    <div class=" ++ [34]%N ++ js "section-content" ++ [34]%N ++ js ">
                        ".

(** From the output format to the list of constraints. *)
Definition page_after_output : jsstring :=
  js "
                    </div>
                </section>

                <section class=" ++ [34]%N ++ js "section" ++ [34]%N ++ js ">
                    <h2 class=" ++ [34]%N ++ js "section-title" ++ [34]%N ++ js ">
                        <span class=" ++ [34]%N ++ js "icon" ++ [34]%N ++ js ">" ++ [8218; 246; 241; 212; 8719; 232]%N ++ js "</span>
                        Constraints
                    </h2>
                    <ul class=" ++ [34]%N ++ js "constraints-list" ++ [34]%N ++ js ">
                        ".

(** From the constraints to the sample test cases. *)
Definition page_after_constraints : jsstring :=
  js "
                    </ul>
                </section>

                <section class=" ++ [34]%N ++ js "section" ++ [34]%N ++ js ">
                    <h2 class=" ++ [34]%N ++ js "section-title" ++ [34]%N ++ js ">
                        <span class=" ++ [34]%N ++ js "icon" ++ [34]%N ++ js ">" ++ [63743; 252; 223; 8482]%N ++ js "</span>
                        Sample Test Cases
                    </h2>
                    <div class=" ++ [34]%N ++ js "test-cases" ++ [34]%N ++ js ">
                        ".

(** From the sample test cases to the test data of the script. *)
Definition page_after_tests : jsstring :=
  js "
                    </div>
                </section>

                <div class=" ++ [34]%N ++ js "actions" ++ [34]%N ++ js ">
                    <button class=" ++ [34]%N ++ js "action-btn" ++ [34]%N ++ js " onclick=" ++ [34]%N ++ js "runTests()" ++ [34]%N ++ js ">
                        <span class=" ++ [34]%N ++ js "icon" ++ [34]%N ++ js ">" ++ [8218; 241; 8706; 212; 8719; 232]%N ++ js "</span>
                        Run Tests
                    </button>
                    <button class=" ++ [34]%N ++ js "action-btn secondary" ++ [34]%N ++ js " onclick=" ++ [34]%N ++ js "generateScript()" ++ [34]%N ++ js ">
                        <span class=" ++ [34]%N ++ js "icon" ++ [34]%N ++ js ">" ++ [63743; 252; 236; 249]%N ++ js "</span>
                        Generate Script
                    </button>
                </div>
            </div>

            <script>
                const vscode = acquireVsCodeApi();

                function runTests() {
                    vscode.postMessage({
                        command: 'runTests'
                    });
                }

                function generateScript() {
                    vscode.postMessage({
                        command: 'generateScript'
                    });
                }

                function copyTestCase(index) {
                    const testCase = ".

(** From the test data of the script to the end of the document. *)
Definition page_tail : jsstring :=
  js ";
                    vscode.postMessage({
                        command: 'copyTestCase',
                        testCase: testCase[index]
                    });
                }

                // Add smooth scroll behavior
                document.querySelectorAll('a[href^=" ++ [34]%N ++ js "#" ++ [34]%N ++ js "]').forEach(anchor => {
                    anchor.addEventListener('click', function (e) {
                        e.preventDefault();
                        document.querySelector(this.getAttribute('href')).scrollIntoView({
                            behavior: 'smooth'
                        });
                    });
                });
            </script>
        </body>
        </html>".

(** The difficulty badge, up to the difficulty. *)
Definition badge_open : jsstring :=
  js "<span class=" ++ [34]%N ++ js "difficulty-badge" ++ [34]%N ++ js ">".

(** The difficulty badge, after the difficulty. *)
Definition badge_close : jsstring :=
  js "</span>".

(** A constraint of the list, up to its text. *)
Definition item_open : jsstring :=
  js "<li>".

(** A constraint of the list, after its text. *)
Definition item_close : jsstring :=
  js "</li>".

(** A test case, up to its number. *)
Definition case_head : jsstring :=
  js "
                            <div class=" ++ [34]%N ++ js "test-case" ++ [34]%N ++ js ">
                                <div class=" ++ [34]%N ++ js "test-case-header" ++ [34]%N ++ js ">
                                    <span class=" ++ [34]%N ++ js "test-case-title" ++ [34]%N ++ js ">Test Case ".

(** A test case, from its number to the index handed to the copy button. *)
Definition case_after_number : jsstring :=
  js "</span>
                                    <button class=" ++ [34]%N ++ js "copy-btn" ++ [34]%N ++ js " onclick=" ++ [34]%N ++ js "copyTestCase(".

(** A test case, from the index of the copy button to the input. *)
Definition case_after_index : jsstring :=
  js ")" ++ [34]%N ++ js ">Copy</button>
                                </div>
                                <div class=" ++ [34]%N ++ js "io-container" ++ [34]%N ++ js ">
                                    <div class=" ++ [34]%N ++ js "io-block" ++ [34]%N ++ js ">
                                        <div class=" ++ [34]%N ++ js "io-label" ++ [34]%N ++ js ">Input</div>
                                        <div class=" ++ [34]%N ++ js "io-content" ++ [34]%N ++ js ">".

(** A test case, from the input to the output. *)
Definition case_after_input : jsstring :=
  js "</div>
                                    </div>
                                    <div class=" ++ [34]%N ++ js "io-block" ++ [34]%N ++ js ">
                                        <div class=" ++ [34]%N ++ js "io-label" ++ [34]%N ++ js ">Output</div>
                                        <div class=" ++ [34]%N ++ js "io-content" ++ [34]%N ++ js ">".

(** A test case, from the output to the explanation. *)
Definition case_after_output : jsstring :=
  js "</div>
                                    </div>
                                </div>
                                ".

(** A test case, after the explanation. *)
Definition case_tail : jsstring :=
  js "
                            </div>
                        ".

(** The explanation of a test case, up to its text. *)
Definition explanation_open : jsstring :=
  js "<div class=" ++ [34]%N ++ js "explanation" ++ [34]%N ++ js ">".

(** The explanation of a test case, after its text. *)
Definition explanation_close : jsstring :=
  js "</div>".

End Markup.

(** [getDummyProblemData] *)
Definition getDummyProblemData : ProblemData :=
  {| title := (js "A. Watermelon");
     timeLimit := (js "1 second");
     memoryLimit := (js "64 megabytes");
     description :=
       (js "One hot summer day Pete and his friend Billy decided to buy a watermelon. They chose the biggest and the most beautiful watermelon in the whole store. But to their surprise, the cashier told them that the price of the watermelon is <strong>w</strong> dollars, where <strong>w</strong> is even. Pete and Billy are only able to eat the watermelon if they can divide it into two parts such that each part weighs an even number of kilograms and each part weighs at least 2 kilograms.");
     inputFormat :=
       (js "The first line contains a single integer <strong>w</strong> (1 " ++ [8218; 226; 167]%N ++ js " w " ++ [8218; 226; 167]%N ++ js " 100) " ++ [8218; 196; 238]%N ++ js " the weight of the watermelon.");
     outputFormat :=
       (js "Print <strong>YES</strong> if the watermelon can be divided according to the rules, and <strong>NO</strong> otherwise.");
     constraints :=
       [ (js "1 " ++ [8218; 226; 167]%N ++ js " w " ++ [8218; 226; 167]%N ++ js " 100");
         (js "w is a positive integer");
         (js "Each part must weigh at least 2 kg");
         (js "Each part must have even weight") ];
     sampleTests :=
       [ {| input := (js "8"); output := (js "YES");
            explanation := Some (js "We can divide 8 into 4 + 4, both are even and " ++ [8218; 226; 8226]%N ++ js " 2") |};
         {| input := (js "6"); output := (js "YES");
            explanation := Some (js "We can divide 6 into 2 + 4, both are even and " ++ [8218; 226; 8226]%N ++ js " 2") |};
         {| input := (js "2"); output := (js "NO");
            explanation := Some (js "We cannot divide 2 into two parts where each is " ++ [8218; 226; 8226]%N ++ js " 2") |} ];
     source := (js "Codeforces Round #4 (Div. 2)");
     difficulty := Some (js "800") |}.

(** An array index in a template literal: plain decimal digits. *)
Definition index_toString (n : nat) : jsstring :=
  js (DecimalString.NilZero.string_of_uint (Nat.to_uint n)).

Module JSON.

Local Open Scope N_scope.

Definition hex_digit (n : N) : codeunit :=
  if (n <? 10)%N then (48 + n)%N else (87 + n)%N.

(** [\uXXXX] with lower-case digits. *)
Definition unicode_escape (c : codeunit) : jsstring :=
  [92%N; 117%N; hex_digit (c / 4096); hex_digit ((c / 256) mod 16);
   hex_digit ((c / 16) mod 16); hex_digit (c mod 16)]%N.

Definition is_lead (c : codeunit) : bool := in_range 55296 56319 c.
Definition is_trail (c : codeunit) : bool := in_range 56320 57343 c.

(** The inside of QuoteJSONString: the short escapes, [\uXXXX] for the
    other control characters and for surrogates that stand alone, and
    every other code unit as it is. *)
Fixpoint quote_body (s : jsstring) : jsstring :=
  match s with
  | [] => []
  | c :: s' =>
      if cu_eqb c 8 then [92; 98]%N ++ quote_body s'
      else if cu_eqb c 9 then [92; 116]%N ++ quote_body s'
      else if cu_eqb c 10 then [92; 110]%N ++ quote_body s'
      else if cu_eqb c 12 then [92; 102]%N ++ quote_body s'
      else if cu_eqb c 13 then [92; 114]%N ++ quote_body s'
      else if cu_eqb c 34 then [92; 34]%N ++ quote_body s'
      else if cu_eqb c 92 then [92; 92]%N ++ quote_body s'
      else if (c <? 32)%N then unicode_escape c ++ quote_body s'
      else if is_lead c then
        match s' with
        | d :: s'' =>
            if is_trail d then c :: d :: quote_body s''
            else unicode_escape c ++ quote_body s'
        | [] => unicode_escape c
        end
      else if is_trail c then unicode_escape c ++ quote_body s'
      else c :: quote_body s'
  end.

Definition quote (s : jsstring) : jsstring := [34%N] ++ quote_body s ++ [34%N].

Fixpoint join (sep : jsstring) (l : list jsstring) : jsstring :=
  match l with
  | [] => []
  | [x] => x
  | x :: rest => x ++ sep ++ join sep rest
  end.

Definition property (key : string) (value : jsstring) : jsstring :=
  quote (js key) ++ js ":" ++ quote value.

(** A test case as a JSON object: an absent explanation has no key. *)
Definition stringify_test (t : TestCase) : jsstring :=
  js "{"
  ++ join (js ",")
       ([property "input" (input t); property "output" (output t)]
        ++ match explanation t with
           | Some e => [property "explanation" e]
           | None => []
           end)
  ++ js "}".

(** [JSON.stringify] of the array of sample tests. *)
Definition stringify_tests (tests : list TestCase) : jsstring :=
  js "[" ++ join (js ",") (List.map stringify_test tests) ++ js "]".

End JSON.

(** [array.map((x, index) => f x index)] *)
Fixpoint map_indexed {A B} (f : A -> nat -> B) (index : nat) (l : list A) : list B :=
  match l with
  | [] => []
  | x :: rest => f x index :: map_indexed f (S index) rest
  end.

(** The difficulty badge: there when the difficulty is a non-empty string. *)
Definition difficulty_badge (problem : ProblemData) : jsstring :=
  match difficulty problem with
  | Some ((_ :: _) as d) => Markup.badge_open ++ d ++ Markup.badge_close
  | _ => []
  end.

(** The block of one sample test. *)
Definition test_case_block (testCase : TestCase) (index : nat) : jsstring :=
  Markup.case_head ++ index_toString (index + 1)
  ++ Markup.case_after_number ++ index_toString index
  ++ Markup.case_after_index ++ input testCase
  ++ Markup.case_after_input ++ output testCase
  ++ Markup.case_after_output
  ++ match explanation testCase with
     | Some ((_ :: _) as e) => Markup.explanation_open ++ e ++ Markup.explanation_close
     | _ => []
     end
  ++ Markup.case_tail.

(** [getWebviewContent]: every value goes into the page as it is. *)
Definition getWebviewContent (problem : ProblemData) : jsstring :=
  Markup.page_head ++ title problem
  ++ Markup.page_after_title ++ timeLimit problem
  ++ Markup.page_after_time ++ memoryLimit problem
  ++ Markup.page_after_memory ++ source problem
  ++ Markup.page_after_source ++ difficulty_badge problem
  ++ Markup.page_after_badge ++ description problem
  ++ Markup.page_after_description ++ inputFormat problem
  ++ Markup.page_after_input ++ outputFormat problem
  ++ Markup.page_after_output
  ++ List.concat (List.map (fun constraint => Markup.item_open ++ constraint ++ Markup.item_close)
                    (constraints problem))
  ++ Markup.page_after_constraints
  ++ List.concat (map_indexed test_case_block 0 (sampleTests problem))
  ++ Markup.page_after_tests ++ JSON.stringify_tests (sampleTests problem)
  ++ Markup.page_tail.

Module UI.

(** The calls made to the editor, in the order they are made. *)
Inductive UIEvent :=
| UShowInputBox
| UCreateWebviewPanel
| UReveal
| USetHtml (html : jsstring)
| UShowInformationMessage (message : jsstring)
| UShowErrorMessage (message : jsstring).

(** A webview panel: the document it shows, empty when created. *)
Record Panel := { html : jsstring }.

(** What the user does during one command: the answer to the input box
    (none when it is dismissed), and whether the panel is closed while
    the problem loads, which runs the dispose handler during the
    [await] of [showProblem]. *)
Record User := {
  input_box : option jsstring;
  closes_panel_while_loading : bool
}.

(** The provider's [this.panel], the calls to the editor and the
    external calls so far. *)
Record State := {
  panel : option Panel;
  ui : list UIEvent;
  net : Trace
}.

(** Sequential code of the extension over the user, the oracle of the
    network and the browser, and the state. *)
Definition P (A : Type) := User -> Env -> State -> Completion A * State.

Definition pret {A} (a : A) : P A := fun _ _ st => (Normal a, st).

Definition pbind {A B} (c : P A) (k : A -> P B) : P B :=
  fun user env st =>
    match c user env st with
    | (Normal a, st') => k a user env st'
    | (Throw e, st') => (Throw e, st')
    end.

Definition pthrow {A} (e : Error) : P A := fun _ _ st => (Throw e, st).

Definition log (e : UIEvent) : P unit :=
  fun _ _ st => (Normal tt, {| panel := panel st; ui := ui st ++ [e]; net := net st |}).

Definition get_panel : P (option Panel) := fun _ _ st => (Normal (panel st), st).

Definition set_panel (p : option Panel) : P unit :=
  fun _ _ st => (Normal tt, {| panel := p; ui := ui st; net := net st |}).

(** The handler given to [onDidDispose]. *)
Definition on_dispose : P unit := set_panel None.

(** An awaited call of the pipeline; the user may close the panel
    before it settles. *)
Definition await_loading {A} (c : M A) : P A :=
  fun user env st =>
    let '(r, t) := c env (net st) in
    (r, {| panel := if closes_panel_while_loading user then None else panel st;
           ui := ui st; net := t |}).

End UI.
Import UI.

Declare Scope ui_scope.
Delimit Scope ui_scope with ui.
Notation "x <- c ;; k" := (pbind c (fun x => k))
  (at level 61, c at next level, right associativity) : ui_scope.
Notation "c ;; k" := (pbind c (fun _ => k))
  (at level 61, right associativity) : ui_scope.

Section Viewer.

Variable NumberToString : number -> jsstring.

(** [showProblem] *)
Definition showProblem (problemUrl : option jsstring) : P unit :=
  (existing <- get_panel ;;
   match existing with
   | Some _ => log UReveal
   | None => log UCreateWebviewPanel ;; set_panel (Some {| html := [] |})
   end ;;
   problemData <-
     match problemUrl with
     | Some ((_ :: _) as url) => await_loading (extractProblemData NumberToString url)
     | _ => pret getDummyProblemData
     end ;;
   current <- get_panel ;;
   match current with
   | Some _ =>
       log (USetHtml (getWebviewContent problemData)) ;;
       set_panel (Some {| html := getWebviewContent problemData |})
   | None =>
       pthrow {| err_name := js "TypeError";
                 err_message := js "Cannot read properties of undefined (reading 'webview')" |}
   end)%ui.

(** The command [smart-codeforces-helper.loadProblem] *)
Definition loadProblem : P unit :=
  (log UShowInputBox ;;
   input <- (fun user _ st => (Normal (input_box user), st)) ;;
   match input with
   | Some ((_ :: _) as url) =>
       showProblem (Some url) ;;
       log (UShowInformationMessage (js "Loading problem from: " ++ url))
   | _ => log (UShowErrorMessage (js "No problem URL provided"))
   end)%ui.

(** The command [smart-codeforces-helper.openProblemViewer] *)
Definition openProblemViewer : P unit :=
  (showProblem None ;;
   log (UShowInformationMessage (js "Problem viewer opened with sample data")))%ui.

End Viewer.

(** The call that opens the viewer: a reveal of the panel there is, or
    the creation of one. *)
Definition opening (st : State) : UIEvent :=
  match panel st with
  | Some _ => UReveal
  | None => UCreateWebviewPanel
  end.

(** The panel once opened: the one there was, or a new, empty one. *)
Definition opened_panel (st : State) : Panel :=
  match panel st with
  | Some p => p
  | None => {| html := [] |}
  end.

(** The constraints: what a pattern of the list can match.  [atoms_within P re]
    says that every atom of [re] accepts code units of [P] only. *)
Definition atoms_within (P : codeunit -> bool) (re : pattern) : Prop :=
  Forall (fun n => match n with
                   | Atom p _ => forall c, p c = true -> P c = true
                   | _ => True
                   end) re.

(** The code units a range constraint is made of. *)
Definition constraint_unit (c : codeunit) : bool :=
  is_digit c || is_space c || is_cmp c || is_word c || cu_eqb c 94%N.

(** The text the constraints are looked for in. *)
Definition note_text (document : Document) : jsstring :=
  getTextBySelectors document [js ".note"; js ".notes"; class_has "constraint"].

(** A constraint as the patterns find it: a piece of the note text made
    of such code units, with a digit at both ends. *)
Definition range_text (note c : jsstring) : Prop :=
  (exists pre post, note = pre ++ c ++ post)
  /\ forallb constraint_unit c = true
  /\ (exists d rest, c = d :: rest /\ is_digit d = true)
  /\ is_digit (last c 0%N) = true.

(* ===================================================================== *)
(** * Proof automation *)
(* ===================================================================== *)

Ltac oracle env b :=
  repeat match goal with
  | |- context [on_launch (sessions env b)] => destruct (on_launch (sessions env b)) eqn:?
  | |- context [on_newPage (sessions env b)] => destruct (on_newPage (sessions env b)) eqn:?
  | |- context [on_setRequestInterception (sessions env b)] =>
      destruct (on_setRequestInterception (sessions env b)) eqn:?
  | |- context [on_setViewport (sessions env b)] => destruct (on_setViewport (sessions env b)) eqn:?
  | |- context [on_setUserAgent (sessions env b)] => destruct (on_setUserAgent (sessions env b)) eqn:?
  | |- context [on_goto (sessions env b)] => destruct (on_goto (sessions env b)) eqn:?
  | |- context [on_waitForFunction (sessions env b)] =>
      destruct (on_waitForFunction (sessions env b)) eqn:?
  | |- context [on_evaluate (sessions env b)] => destruct (on_evaluate (sessions env b)) eqn:?
  | |- context [on_close (sessions env b)] => destruct (on_close (sessions env b)) eqn:?
  end.

Ltac unfold_scrape :=
  unfold scrapeWithOptimizedPuppeteer, try_finally, try_catch, bind, puppeteer_launch,
    browser_newPage, page_setRequestInterception, page_setViewport, page_setUserAgent,
    page_goto, page_waitForFunction, page_evaluate, browser_close, session_of,
    call, console, emit, bind, ret, throw.

Ltac ui_run :=
  cbv beta iota zeta
    delta [showProblem loadProblem openProblemViewer pbind pret pthrow log get_panel
           set_panel await_loading on_dispose panel ui net closes_panel_while_loading
           input_box fst snd].

(* ===================================================================== *)
(** * Theorems: the matcher *)
(* ===================================================================== *)

(** A greedy repetition that succeeds took some number of code units of
    the class and then the continuation succeeded with the same result. *)
Lemma star_sound p k s pos r :
  star p k s pos = Some r ->
  exists n, n <= List.length s
            /\ forallb p (firstn n s) = true
            /\ k (skipn n s) (pos + n) = Some r.
Proof.
  revert pos. induction s as [|c s IH]; intros pos; cbn [star].
  - intros H. exists 0. rewrite Nat.add_0_r. repeat split; [lia | exact H].
  - destruct (p c) eqn:Hc.
    + destruct (star p k s (S pos)) as [r'|] eqn:Hs.
      * intros [= <-]. destruct (IH _ Hs) as (n & Hn & Hall & Hk).
        exists (S n). cbn [firstn skipn forallb List.length]. rewrite Hc, Hall.
        repeat split; [lia|]. now rewrite Nat.add_succ_r.
      * intros H. exists 0. rewrite Nat.add_0_r. repeat split; [lia | exact H].
    + intros H. exists 0. rewrite Nat.add_0_r. repeat split; [lia | exact H].
Qed.

(** If some number of repetitions lets the continuation succeed, the
    greedy repetition succeeds (backtracking finds a way). *)
Lemma star_complete p k s pos n :
  n <= List.length s ->
  forallb p (firstn n s) = true ->
  k (skipn n s) (pos + n) <> None ->
  star p k s pos <> None.
Proof.
  revert pos n. induction s as [|c s IH]; intros pos n Hn Hall Hk.
  - destruct n; [|cbn in Hn; lia]. cbn in *. now rewrite Nat.add_0_r in Hk.
  - cbn [star]. destruct n as [|n].
    + cbn in Hk. rewrite Nat.add_0_r in Hk.
      destruct (p c); [|exact Hk]. destruct (star p k s (S pos)); [discriminate | exact Hk].
    + cbn [firstn forallb skipn List.length] in *.
      apply andb_true_iff in Hall as [Hc Hall]. rewrite Hc.
      specialize (IH (S pos) n). rewrite Nat.add_succ_r in Hk.
      destruct (star p k s (S pos)); [discriminate|].
      exfalso. apply IH; [lia | exact Hall | exact Hk | reflexivity].
Qed.

(** Where the leftmost search finds its match. *)
Lemma search_sound re s pos m :
  search re s pos = Some m ->
  exists k, k <= List.length s
            /\ m_start m = pos + k
            /\ run re (skipn k s) (pos + k) [] [] = Some (m_end m, m_caps m)
            /\ forall j, j < k -> run re (skipn j s) (pos + j) [] [] = None.
Proof.
  revert pos. induction s as [|c s IH]; intros pos; cbn [search].
  - destruct (run re [] pos [] []) as [[e caps]|] eqn:Hr; [|discriminate].
    intros [= <-]. exists 0. cbn. rewrite Nat.add_0_r.
    repeat split; [lia | exact Hr | intros j Hj; lia].
  - destruct (run re (c :: s) pos [] []) as [[e caps]|] eqn:Hr.
    + intros [= <-]. exists 0. cbn. rewrite Nat.add_0_r.
      repeat split; [lia | exact Hr | intros j Hj; lia].
    + intros H. destruct (IH _ H) as (k & Hk & Hst & Hrun & Hleft).
      exists (S k). cbn [skipn List.length]. rewrite Nat.add_succ_r.
      repeat split; [lia | exact Hst | exact Hrun |].
      intros [|j] Hj; [cbn; now rewrite Nat.add_0_r|].
      cbn [skipn]. rewrite Nat.add_succ_r. apply Hleft. lia.
Qed.

Lemma search_complete re s pos k :
  k <= List.length s ->
  run re (skipn k s) (pos + k) [] [] <> None ->
  search re s pos <> None.
Proof.
  revert pos k. induction s as [|c s IH]; intros pos k Hk Hr; cbn [search].
  - destruct k; [|cbn in Hk; lia]. cbn in Hr. rewrite Nat.add_0_r in Hr.
    destruct (run re [] pos [] []) as [[e caps]|]; [discriminate | contradiction].
  - destruct (run re (c :: s) pos [] []) as [[e caps]|] eqn:Hr0; [discriminate|].
    destruct k as [|k].
    + cbn in Hr. rewrite Nat.add_0_r in Hr. contradiction.
    + cbn [skipn List.length] in *. rewrite Nat.add_succ_r in Hr.
      apply (IH (S pos) k); [lia | exact Hr].
Qed.

(** A match never ends before it starts. *)
Lemma star_end_ge p k s pos r :
  (forall s1 pos1 r1, k s1 pos1 = Some r1 -> pos1 <= fst r1) ->
  star p k s pos = Some r -> pos <= fst r.
Proof.
  intros Hk H. apply star_sound in H as (n & _ & _ & H). apply Hk in H. lia.
Qed.

Lemma run_end_ge re s pos opened caps r :
  run re s pos opened caps = Some r -> pos <= fst r.
Proof.
  revert s pos opened caps r.
  induction re as [|nd re IH]; intros s pos opened caps r; cbn [run].
  - intros [= <-]. cbn. lia.
  - destruct nd as [p q | | | ].
    + destruct q.
      * destruct s as [|c s]; [discriminate|]. destruct (p c); [|discriminate].
        intros H. apply IH in H. lia.
      * destruct s as [|c s]; [apply IH|]. destruct (p c); [|apply IH].
        destruct (run re s (S pos) opened caps) as [r'|] eqn:Hr; [|apply IH].
        intros [= <-]. apply IH in Hr. lia.
      * apply star_end_ge. intros s1 pos1 r1. apply IH.
      * destruct s as [|c s]; [discriminate|]. destruct (p c); [|discriminate].
        intros H. apply star_end_ge in H; [lia|]. intros s1 pos1 r1. apply IH.
    + apply IH.
    + destruct opened; [discriminate | apply IH].
    + destruct (Nat.eqb pos 0); [apply IH | discriminate].
Qed.

Lemma search_bounds re s pos m :
  search re s pos = Some m -> pos <= m_start m <= m_end m.
Proof.
  intros H. apply search_sound in H as (k & _ & -> & Hrun & _).
  apply run_end_ge in Hrun. cbn in Hrun. lia.
Qed.

(** The rounds of a global match are bounded by the length of the
    input: any fuel above it gives the same matches. *)
Lemma matches_from_fuel fuel1 fuel2 re s pos :
  List.length s < fuel1 -> List.length s < fuel2 ->
  matches_from fuel1 re s pos = matches_from fuel2 re s pos.
Proof.
  revert fuel2 s pos. induction fuel1 as [|fuel1 IH]; intros fuel2 s pos H1 H2; [lia|].
  destruct fuel2 as [|fuel2]; [lia|]. cbn [matches_from].
  destruct (search re s pos) as [m|] eqn:Hs; [|reflexivity].
  apply search_bounds in Hs. cbv zeta. f_equal.
  destruct (Nat.ltb_spec (List.length s)
              ((if Nat.eqb (m_end m) (m_start m) then S (m_end m) else m_end m) - pos))
    as [Hlt | Hge]; [reflexivity|].
  assert (Hstep : 1 <= (if Nat.eqb (m_end m) (m_start m) then S (m_end m) else m_end m) - pos).
  { destruct (Nat.eqb_spec (m_end m) (m_start m)); lia. }
  apply IH; rewrite length_skipn; lia.
Qed.

Lemma prefix_i_spec l s :
  prefix_i l s = true <->
  exists w, s = w ++ skipn (List.length l) s /\ eq_i w l.
Proof.
  unfold eq_i. revert s. induction l as [|a l IH]; intros s; cbn [prefix_i].
  - split; [intros _; exists []; split; reflexivity | reflexivity].
  - destruct s as [|c s].
    + split; [discriminate|]. intros (w & Hs & Hw).
      destruct w; [discriminate | cbn in Hs; discriminate].
    + rewrite andb_true_iff, IH. cbn [skipn List.length]. unfold char_i, cu_eqb.
      rewrite N.eqb_eq. split.
      * intros [Hc (w & Hs & Hw)]. exists (c :: w). cbn. split; congruence.
      * intros (w & Hs & Hw). destruct w as [|c' w]; [discriminate|].
        cbn in Hs, Hw. injection Hs as <- Hs. injection Hw as Hc Hw.
        split; [exact Hc | now exists w].
Qed.

(** A literal run in front of a pattern: the input must start with it,
    up to case, and the rest of the pattern runs on what follows. *)
Lemma run_lit_i l re s pos opened caps :
  run (lit_i l ++ re) s pos opened caps
  = if prefix_i l s
    then run re (skipn (List.length l) s) (pos + List.length l) opened caps
    else None.
Proof.
  revert s pos. induction l as [|a l IH]; intros s pos.
  - cbn. now rewrite Nat.add_0_r.
  - cbn [lit_i List.map app run prefix_i]. destruct s as [|c s]; [reflexivity|].
    destruct (char_i a c); [|reflexivity]. cbn [andb skipn List.length].
    fold (lit_i l). rewrite IH. now rewrite Nat.add_succ_r.
Qed.

(** Membership in a class range under the [i] flag, when the members of
    the range are their own canonical forms. *)
Lemma existsb_offsets (x lo : N) n :
  existsb (fun a => cu_eqb a x) (List.map (fun k => (lo + N.of_nat k)%N) (seq 0 n))
  = (N.leb lo x && N.ltb x (lo + N.of_nat n))%bool.
Proof.
  induction n as [|n IH].
  - cbn. destruct (N.leb_spec lo x), (N.ltb_spec x (lo + 0)%N); cbn; try reflexivity; lia.
  - rewrite seq_S, map_app, existsb_app. unfold codeunit in *. rewrite IH.
    cbn [List.map existsb plus].
    rewrite orb_false_r. unfold cu_eqb.
    destruct (N.leb_spec lo x), (N.ltb_spec x (lo + N.of_nat n)%N),
      (N.eqb_spec (lo + N.of_nat n)%N x), (N.ltb_spec x (lo + N.of_nat (S n))%N);
      cbn; try reflexivity; lia.
Qed.

Lemma upper_cu_fixed lo hi a :
  (hi < 97 \/ 122 < lo)%N -> (lo <= a <= hi)%N -> upper_cu a = a.
Proof.
  intros H Ha. unfold upper_cu, is_lower, in_range.
  destruct (N.leb_spec 97 a), (N.leb_spec a 122); cbn; try reflexivity; lia.
Qed.

Lemma range_i_spec lo hi c :
  (lo <= hi)%N -> (hi < 97 \/ 122 < lo)%N ->
  range_i lo hi c = in_range lo hi (Canonicalize c).
Proof.
  intros Hle Hfix. unfold range_i, in_range.
  assert (Hext : forall l,
            Forall (fun a => (lo <= a <= hi)%N) l ->
            existsb (fun a => cu_eqb (Canonicalize a) (Canonicalize c)) l
            = existsb (fun a => cu_eqb a (Canonicalize c)) l).
  { induction 1 as [|a l Ha _ IH]; cbn; [reflexivity|].
    unfold Canonicalize at 1. now rewrite (upper_cu_fixed Hfix Ha), IH. }
  rewrite Hext.
  - rewrite existsb_offsets.
    destruct (N.leb_spec lo (Canonicalize c)),
      (N.ltb_spec (Canonicalize c) (lo + N.of_nat (S (N.to_nat (hi - lo))))%N),
      (N.leb_spec (Canonicalize c) hi); cbn; try reflexivity; lia.
  - apply Forall_forall. intros a Ha. apply in_map_iff in Ha as (k & <- & Hk).
    apply in_seq in Hk. lia.
Qed.

Lemma digit_i_spec c : digit_i c = is_digit c.
Proof.
  unfold digit_i. rewrite range_i_spec by lia.
  unfold is_digit, Canonicalize, upper_cu, is_lower, in_range.
  destruct (N.leb_spec 97 c), (N.leb_spec c 122), (N.leb_spec 48 c), (N.leb_spec c 57);
    cbn;
    repeat match goal with
    | |- context [N.leb ?a ?b] => destruct (N.leb_spec a b)
    end; cbn; try reflexivity; lia.
Qed.

Lemma letter_i_spec c : letter_i c = (is_upper c || is_lower c)%bool.
Proof.
  unfold letter_i. rewrite range_i_spec by lia.
  unfold is_upper, Canonicalize, upper_cu, is_lower, in_range.
  destruct (N.leb_spec 97 c), (N.leb_spec c 122), (N.leb_spec 65 c), (N.leb_spec c 90);
    cbn;
    repeat match goal with
    | |- context [N.leb ?a ?b] => destruct (N.leb_spec a b)
    end; cbn; try reflexivity; lia.
Qed.

Lemma re_problemset_url : re_problemset = re_url (js "/problemset/problem/") (js "/").
Proof. reflexivity. Qed.

Lemma re_contest_url : re_contest = re_url (js "/contest/") (js "/problem/").
Proof. reflexivity. Qed.

Lemma run_index_group s pos caps :
  run [Open; Atom letter_i One; Atom digit_i Opt; Close] s pos [] caps
  = match index_len s with
    | Some n => Some (pos + n, rev ((pos, pos + n) :: caps))
    | None => None
    end.
Proof.
  unfold index_len. cbn [run].
  destruct s as [|c s]; [reflexivity|]. destruct (letter_i c); [|reflexivity].
  destruct s as [|d s].
  - now rewrite Nat.add_1_r.
  - destruct (digit_i d).
    + now replace (pos + 2) with (S (S pos)) by lia.
    + now rewrite Nat.add_1_r.
Qed.

Lemma eq_i_length a b : eq_i a b -> List.length a = List.length b.
Proof.
  unfold eq_i. intros H. apply (f_equal (@List.length _)) in H.
  now rewrite !length_map in H.
Qed.

Lemma index_len_shape s n :
  index_len s = Some n ->
  exists l d rest,
    s = (l :: d) ++ rest /\ n = List.length (l :: d)
    /\ letter_i l = true
    /\ ((d = [] /\ forall x rest', rest = x :: rest' -> digit_i x = false)
        \/ exists x, d = [x] /\ digit_i x = true).
Proof.
  unfold index_len. destruct s as [|l s]; [discriminate|].
  destruct (letter_i l) eqn:Hl; [|discriminate].
  destruct s as [|x s].
  - intros [= <-]. exists l, [], []. repeat split; try reflexivity; [exact Hl|].
    left. split; [reflexivity | discriminate].
  - destruct (digit_i x) eqn:Hx; intros [= <-].
    + exists l, [x], s. repeat split; try reflexivity; [exact Hl|].
      right. exists x. split; [reflexivity | exact Hx].
    + exists l, [], (x :: s). repeat split; try reflexivity; [exact Hl|].
      left. split; [reflexivity|]. intros y r [= <- <-]. exact Hx.
Qed.

(** What a successful run of a URL pattern at a given start has read. *)
Lemma run_url_sound l1 l2 s pos e caps :
  run (re_url l1 l2) s pos [] [] = Some (e, caps) ->
  exists w1 ds w2 l d rest,
    s = w1 ++ ds ++ w2 ++ (l :: d) ++ rest
    /\ eq_i w1 l1 /\ eq_i w2 l2
    /\ ds <> [] /\ forallb digit_i ds = true
    /\ letter_i l = true
    /\ ((d = [] /\ forall x rest', rest = x :: rest' -> digit_i x = false)
        \/ exists x, d = [x] /\ digit_i x = true)
    /\ e = pos + List.length (w1 ++ ds ++ w2 ++ l :: d)
    /\ caps = [ (pos + List.length w1, pos + List.length (w1 ++ ds));
                (pos + List.length (w1 ++ ds ++ w2), e) ].
Proof.
  unfold re_url. rewrite run_lit_i.
  destruct (prefix_i l1 s) eqn:Hp1; [|discriminate].
  apply prefix_i_spec in Hp1 as (w1 & Hs & Hw1).
  pose proof (eq_i_length Hw1) as Hlen1.
  set (s1 := skipn (List.length l1) s) in *.
  cbn [app run].
  destruct s1 as [|c s1]; [discriminate|].
  destruct (digit_i c) eqn:Hc; [|discriminate].
  intros H. apply star_sound in H as (n & Hn & Hall & Hk).
  cbn [run] in Hk. rewrite run_lit_i in Hk.
  destruct (prefix_i l2 (skipn n s1)) eqn:Hp2; [|discriminate].
  apply prefix_i_spec in Hp2 as (w2 & Hs2 & Hw2).
  pose proof (eq_i_length Hw2) as Hlen2.
  rewrite run_index_group in Hk.
  destruct (index_len (skipn (List.length l2) (skipn n s1))) as [k|] eqn:Hi; [|discriminate].
  injection Hk as <- <-.
  apply index_len_shape in Hi as (l & d & rest & Hs3 & -> & Hl & Hd).
  exists w1, (c :: firstn n s1), w2, l, d, rest.
  assert (Hfn : List.length (firstn n s1) = n) by (apply firstn_length_le; exact Hn).
  repeat split.
  - rewrite Hs. f_equal. cbn [app]. f_equal.
    rewrite <- (firstn_skipn n s1) at 1. f_equal.
    rewrite Hs2 at 1. f_equal. exact Hs3.
  - exact Hw1.
  - exact Hw2.
  - discriminate.
  - cbn [forallb]. now rewrite Hc, Hall.
  - exact Hl.
  - exact Hd.
  - repeat (rewrite ?length_app; cbn [List.length]). rewrite Hfn. lia.
  - cbn [rev app]. repeat (rewrite ?length_app; cbn [List.length]). rewrite Hfn.
    f_equal; [f_equal; lia|]. f_equal. f_equal. lia.
Qed.

(** Conversely a URL pattern succeeds wherever such a text starts. *)
Lemma run_url_complete l1 l2 pos w1 ds w2 l rest :
  eq_i w1 l1 -> eq_i w2 l2 ->
  ds <> [] -> forallb digit_i ds = true ->
  letter_i l = true ->
  run (re_url l1 l2) (w1 ++ ds ++ w2 ++ l :: rest) pos [] [] <> None.
Proof.
  intros Hw1 Hw2 Hne Hds Hl.
  pose proof (eq_i_length Hw1) as Hlen1. pose proof (eq_i_length Hw2) as Hlen2.
  unfold re_url. rewrite run_lit_i.
  assert (Hp1 : prefix_i l1 (w1 ++ ds ++ w2 ++ l :: rest) = true).
  { apply prefix_i_spec. exists w1. split; [|exact Hw1].
    rewrite <- Hlen1, skipn_app, skipn_all, Nat.sub_diag. reflexivity. }
  rewrite Hp1, <- Hlen1, skipn_app, skipn_all, Nat.sub_diag. cbn [skipn app run].
  destruct ds as [|c ds]; [contradiction|]. cbn [forallb] in Hds.
  apply andb_true_iff in Hds as [Hc Hds]. cbn [app]. rewrite Hc.
  apply (@star_complete _ _ _ _ (List.length ds)).
  - rewrite length_app. lia.
  - rewrite firstn_app, Nat.sub_diag, firstn_all. cbn [firstn]. now rewrite app_nil_r.
  - rewrite skipn_app, skipn_all, Nat.sub_diag. cbn [skipn app run].
    rewrite run_lit_i.
    assert (Hp2 : prefix_i l2 (w2 ++ l :: rest) = true).
    { apply prefix_i_spec. exists w2. split; [|exact Hw2].
      rewrite <- Hlen2, skipn_app, skipn_all, Nat.sub_diag. reflexivity. }
    rewrite Hp2, <- Hlen2, skipn_app, skipn_all, Nat.sub_diag. cbn [skipn app].
    rewrite run_index_group. cbn [index_len]. rewrite Hl.
    destruct rest as [|x rest]; [discriminate|]. destruct (digit_i x); discriminate.
Qed.

Lemma substring_middle (a x b : jsstring) i j :
  i = List.length a -> j = List.length a + List.length x ->
  substring (a ++ x ++ b) i j = x.
Proof.
  intros -> ->. unfold substring.
  rewrite skipn_app, skipn_all, Nat.sub_diag. cbn [skipn app].
  replace (List.length a + List.length x - List.length a) with (List.length x) by lia.
  rewrite firstn_app, Nat.sub_diag, firstn_all. cbn [firstn]. now rewrite app_nil_r.
Qed.

(** What [s.match] returns for a URL pattern: the matched text and the
    two groups, read off a decomposition of the subject. *)
Lemma String_match_url l1 l2 url m :
  String_match url (re_url l1 l2) = Some m ->
  exists pre w1 ds w2 l d rest,
    url = pre ++ w1 ++ ds ++ w2 ++ (l :: d) ++ rest
    /\ eq_i w1 l1 /\ eq_i w2 l2
    /\ ds <> [] /\ forallb digit_i ds = true
    /\ letter_i l = true
    /\ ((d = [] /\ forall x rest', rest = x :: rest' -> digit_i x = false)
        \/ exists x, d = [x] /\ digit_i x = true)
    /\ m = [w1 ++ ds ++ w2 ++ l :: d; ds; l :: d].
Proof.
  unfold String_match, exec.
  destruct (search (re_url l1 l2) url 0) as [mt|] eqn:Hs; [|discriminate].
  intros [= <-].
  apply search_sound in Hs as (k & Hk & Hst & Hrun & _). cbn [plus] in Hst, Hrun.
  apply run_url_sound in Hrun
    as (w1 & ds & w2 & l & d & rest & Hsk & Hw1 & Hw2 & Hne & Hds & Hl & Hd & He & Hc).
  exists (firstn k url), w1, ds, w2, l, d, rest.
  assert (Hurl : url = firstn k url ++ w1 ++ ds ++ w2 ++ (l :: d) ++ rest).
  { rewrite <- Hsk. symmetry. apply firstn_skipn. }
  assert (Hpre : List.length (firstn k url) = k) by (apply firstn_length_le; exact Hk).
  repeat split; try assumption.
  rewrite Hst, Hc, He. cbn [List.map fst snd].
  f_equal; [|f_equal; [|f_equal]].
  - rewrite Hurl at 1.
    replace (w1 ++ ds ++ w2 ++ (l :: d) ++ rest)
      with ((w1 ++ ds ++ w2 ++ l :: d) ++ rest) by (now rewrite <- !app_assoc).
    apply substring_middle; [now rewrite Hpre | now rewrite Hpre].
  - rewrite Hurl at 1.
    replace (firstn k url ++ w1 ++ ds ++ w2 ++ (l :: d) ++ rest)
      with ((firstn k url ++ w1) ++ ds ++ (w2 ++ (l :: d) ++ rest))
      by (now rewrite <- !app_assoc).
    apply substring_middle; rewrite !length_app, Hpre; lia.
  - rewrite Hurl at 1.
    replace (firstn k url ++ w1 ++ ds ++ w2 ++ (l :: d) ++ rest)
      with ((firstn k url ++ w1 ++ ds ++ w2) ++ (l :: d) ++ rest)
      by (now rewrite <- !app_assoc).
    apply substring_middle; repeat (rewrite ?length_app; cbn [List.length]); rewrite ?Hpre; lia.
Qed.

Lemma String_match_url_complete l1 l2 pre w1 ds w2 l rest :
  eq_i w1 l1 -> eq_i w2 l2 ->
  ds <> [] -> forallb digit_i ds = true ->
  letter_i l = true ->
  String_match (pre ++ w1 ++ ds ++ w2 ++ l :: rest) (re_url l1 l2) <> None.
Proof.
  intros Hw1 Hw2 Hne Hds Hl. unfold String_match, exec.
  destruct (search (re_url l1 l2) (pre ++ w1 ++ ds ++ w2 ++ l :: rest) 0) eqn:Hs;
    [discriminate|].
  exfalso. revert Hs.
  apply (@search_complete _ _ 0 (List.length pre)).
  - rewrite length_app. lia.
  - rewrite skipn_app, skipn_all, Nat.sub_diag. cbn [skipn app].
    now apply run_url_complete.
Qed.

Lemma forallb_digit_i ds : forallb digit_i ds = forallb is_digit ds.
Proof.
  induction ds as [|c ds IH]; cbn [forallb]; [reflexivity|].
  now rewrite digit_i_spec, IH.
Qed.

(** The groups of a successful [urlMatch]. *)
Lemma urlMatch_groups url m :
  urlMatch url = Some m ->
  exists pre w1 ds w2 l d rest,
    url = pre ++ w1 ++ ds ++ w2 ++ (l :: d) ++ rest
    /\ problem_text w1 ds w2 l
    /\ ((d = [] /\ forall x rest', rest = x :: rest' -> is_digit x = false)
        \/ exists x, d = [x] /\ is_digit x = true)
    /\ m = [w1 ++ ds ++ w2 ++ l :: d; ds; l :: d].
Proof.
  assert (Hboth : forall l1 l2,
            (eq_i l1 l1 -> forall w1 w2, eq_i w1 l1 -> eq_i w2 l2 ->
               (eq_i w1 (js "/problemset/problem/") /\ eq_i w2 (js "/"))
               \/ (eq_i w1 (js "/contest/") /\ eq_i w2 (js "/problem/"))) ->
            String_match url (re_url l1 l2) = Some m ->
            exists pre w1 ds w2 l d rest,
              url = pre ++ w1 ++ ds ++ w2 ++ (l :: d) ++ rest
              /\ problem_text w1 ds w2 l
              /\ ((d = [] /\ forall x rest', rest = x :: rest' -> is_digit x = false)
                  \/ exists x, d = [x] /\ is_digit x = true)
              /\ m = [w1 ++ ds ++ w2 ++ l :: d; ds; l :: d]).
  { intros l1 l2 Hlit H.
    apply String_match_url in H
      as (pre & w1 & ds & w2 & l & d & rest & Hu & Hw1 & Hw2 & Hne & Hds & Hl & Hd & Hm).
    rewrite forallb_digit_i in Hds. rewrite letter_i_spec in Hl.
    exists pre, w1, ds, w2, l, d, rest.
    split; [exact Hu|]. split.
    - unfold problem_text. split; [now apply Hlit|]. split; [exact Hne|].
      split; [exact Hds | exact Hl].
    - split; [|exact Hm].
      destruct Hd as [[-> Hd] | (x & -> & Hx)].
      + left. split; [reflexivity|]. intros x r Hr.
        rewrite <- (digit_i_spec x). exact (Hd x r Hr).
      + right. exists x. split; [reflexivity|]. rewrite <- (digit_i_spec x). exact Hx. }
  unfold urlMatch. rewrite re_problemset_url, re_contest_url.
  destruct (String_match url (re_url (js "/problemset/problem/") (js "/"))) as [m1|] eqn:H1.
  - intros [= <-]. apply (Hboth _ _ (fun _ w1 w2 H H' => or_introl (conj H H')) H1).
  - intros H2. apply (Hboth _ _ (fun _ w1 w2 H H' => or_intror (conj H H')) H2).
Qed.

(* ===================================================================== *)
(** * Theorems: URL recognition *)
(* ===================================================================== *)

Lemma digit_not_space c : is_digit c = true -> is_space c = false.
Proof.
  unfold is_digit, is_space, in_range, cu_eqb.
  rewrite andb_true_iff, !N.leb_le. intros [H1 H2].
  repeat match goal with
  | |- context [N.leb ?a ?b] => destruct (N.leb_spec a b); try lia
  | |- context [N.eqb ?a ?b] => destruct (N.eqb_spec a b); try lia
  end; reflexivity.
Qed.

Lemma digit_value_digit c :
  is_digit c = true -> digit_value 10 c = Some (c - 48)%N.
Proof.
  intros H. unfold digit_value. rewrite H.
  unfold is_digit, in_range in H. rewrite andb_true_iff, !N.leb_le in H.
  destruct (N.ltb_spec (c - 48) 10); [reflexivity | lia].
Qed.

Lemma digits_prefix_digits ds seen acc :
  forallb is_digit ds = true ->
  seen = true \/ ds <> [] ->
  digits_prefix 10 ds seen acc
  = Some (fold_left (fun a c => (a * 10 + Z.of_N (c - 48))%Z) ds acc).
Proof.
  revert seen acc. induction ds as [|c ds IH]; intros seen acc Hall Hs; cbn.
  - destruct Hs as [-> | Hs]; [reflexivity | contradiction].
  - cbn [forallb] in Hall. apply andb_true_iff in Hall as [Hc Hall].
    rewrite (@digit_value_digit c Hc). apply IH; [exact Hall | now left].
Qed.

Lemma decimal_value_nonneg ds : (0 <= decimal_value ds)%Z.
Proof.
  unfold decimal_value.
  assert (H : forall acc, (0 <= acc)%Z ->
            (0 <= fold_left (fun a c => (a * 10 + Z.of_N (c - 48))%Z) ds acc)%Z).
  { induction ds as [|c ds IH]; intros acc Hacc; cbn; [exact Hacc|]. apply IH. lia. }
  apply H. lia.
Qed.

(** [parseInt] on a run of decimal digits: the double nearest to its
    value. *)
Lemma digit_not c k :
  is_digit c = true -> (k < 48 \/ 57 < k)%N -> cu_eqb c k = false.
Proof.
  unfold is_digit, in_range, cu_eqb. rewrite andb_true_iff, !N.leb_le.
  intros [H1 H2] Hk. destruct (N.eqb_spec c k); [lia | reflexivity].
Qed.

Lemma parseInt_digits ds :
  ds <> [] -> forallb is_digit ds = true ->
  parseInt ds = to_number (decimal_value ds).
Proof.
  intros Hne Hall. unfold parseInt, decimal_value.
  destruct ds as [|c ds]; [contradiction|].
  pose proof Hall as Hall'. cbn [forallb] in Hall'.
  apply andb_true_iff in Hall' as [Hc Hds].
  cbn [trimStart]. rewrite (@digit_not_space c Hc).
  rewrite (@digit_not c 45%N Hc), (@digit_not c 43%N Hc) by lia.
  destruct ds as [|x t].
  - rewrite (@digits_prefix_digits [c] false 0%Z Hall); [reflexivity | right; discriminate].
  - cbn [forallb] in Hds. apply andb_true_iff in Hds as [Hx _].
    rewrite (@digit_not x 120%N Hx), (@digit_not x 88%N Hx) by lia.
    rewrite andb_false_r.
    rewrite (@digits_prefix_digits (c :: x :: t) false 0%Z Hall);
      [reflexivity | right; discriminate].
Qed.

Lemma to_number_exact v :
  (0 <= v <= 2 ^ 53)%Z -> to_number v = Fin v.
Proof.
  intros [H0 H]. unfold to_number.
  destruct (Z.ltb_spec v 0); [lia|].
  destruct (Z.eq_dec v (2 ^ 53)) as [-> | Hne]; [vm_compute; reflexivity|].
  unfold round53. destruct (Z.ltb_spec v (2 ^ 53)); [|lia].
  destruct (Z.ltb_spec v (2 ^ 1024)); [reflexivity|].
  assert (2 ^ 53 < 2 ^ 1024)%Z by (apply Z.pow_lt_mono_r; lia). lia.
Qed.

Lemma toUpperCase_index l d :
  (is_upper l || is_lower l)%bool = true ->
  (d = [] \/ exists x, d = [x] /\ is_digit x = true) ->
  is_index (toUpperCase (l :: d)) = true /\ eq_i (toUpperCase (l :: d)) (l :: d).
Proof.
  intros Hl Hd.
  assert (Hu : is_upper (upper_cu l) = true /\ upper_cu (upper_cu l) = upper_cu l).
  { unfold upper_cu, is_upper, is_lower, in_range in *.
    destruct (N.leb_spec 97 l), (N.leb_spec l 122), (N.leb_spec 65 l), (N.leb_spec l 90);
      cbn in *; try discriminate;
      repeat match goal with
      | |- context [N.leb ?a ?b] => destruct (N.leb_spec a b)
      end; cbn; split; try reflexivity; lia. }
  destruct Hu as [Hu1 Hu2].
  destruct Hd as [-> | (x & -> & Hx)]; cbn [toUpperCase List.map is_index]; unfold eq_i;
    cbn [List.map]; unfold Canonicalize.
  - split; [exact Hu1 | now rewrite Hu2].
  - assert (Hxu : upper_cu x = x).
    { unfold upper_cu, is_digit, is_lower, in_range in *.
      apply andb_true_iff in Hx as [H1 H2]. apply N.leb_le in H1, H2.
      destruct (N.leb_spec 97 x), (N.leb_spec x 122); cbn; try reflexivity; lia. }
    rewrite Hxu, Hu1, Hx, Hu2, Hxu. split; reflexivity.
Qed.

Lemma app_eq_length {A} (a a' b b' : list A) :
  List.length a = List.length a' -> a ++ b = a' ++ b' -> a = a' /\ b = b'.
Proof.
  revert a'. induction a as [|x a IH]; intros [|y a'] Hl H; cbn in *; try discriminate.
  - now split.
  - injection H as -> H. injection Hl as Hl. destruct (IH _ Hl H) as [-> ->]. now split.
Qed.

Lemma slash_not_digit w2 t :
  eq_i w2 (47%N :: t) -> exists c w, w2 = c :: w /\ is_digit c = false.
Proof.
  unfold eq_i. destruct w2 as [|c w]; [discriminate|]. cbn [List.map].
  intros [= Hc _]. exists c, w. split; [reflexivity|].
  destruct (is_digit c) eqn:Hd; [|reflexivity]. exfalso.
  assert (Hu : upper_cu c = c).
  { apply (@upper_cu_fixed 48%N 57%N); [lia|].
    unfold is_digit, in_range in Hd. apply andb_true_iff in Hd as [H1 H2].
    apply N.leb_le in H1, H2. lia. }
  unfold Canonicalize in Hc. rewrite Hu in Hc. subst c. discriminate Hd.
Qed.

Lemma digits_split_unique (ds ds' r r' : jsstring) :
  forallb is_digit ds = true -> forallb is_digit ds' = true ->
  (exists c w, r = c :: w /\ is_digit c = false) ->
  (exists c w, r' = c :: w /\ is_digit c = false) ->
  ds ++ r = ds' ++ r' -> ds = ds' /\ r = r'.
Proof.
  intros Hds Hds' (c & w & -> & Hc) (c' & w' & -> & Hc'). revert ds' Hds'.
  induction ds as [|x ds IH]; intros [|x' ds'] Hds'; cbn [app forallb] in *.
  - intros H. now split.
  - apply andb_true_iff in Hds' as [Hx' _]. intros [= -> _]. congruence.
  - apply andb_true_iff in Hds as [Hx _]. intros [= -> _]. congruence.
  - apply andb_true_iff in Hds as [_ Hds]. apply andb_true_iff in Hds' as [_ Hds'].
    intros [= -> H]. destruct (IH Hds ds' Hds' H) as [-> Hr]. now split.
Qed.

(** At one position a shape reads in one way only. *)
Lemma shape_at_unique l1 t url j ds idx ds' idx' :
  shape_at l1 (47%N :: t) url j ds idx ->
  shape_at l1 (47%N :: t) url j ds' idx' ->
  ds = ds' /\ idx = idx'.
Proof.
  intros (pre & w1 & w2 & l & d & rest & Hu & Hj & Hw1 & Hw2 & _ & Hds & _ & Hd & ->)
         (pre' & w1' & w2' & l' & d' & rest' & Hu' & Hj' & Hw1' & Hw2' & _ & Hds' & _ & Hd' & ->).
  rewrite Hu in Hu'.
  apply app_eq_length in Hu' as [_ Hu']; [|congruence].
  apply app_eq_length in Hu' as [_ Hu'];
    [|rewrite (eq_i_length Hw1), (eq_i_length Hw1'); reflexivity].
  assert (Hr : forall (w : jsstring) (tl : jsstring), eq_i w (47%N :: t) ->
            exists c v, w ++ tl = c :: v /\ is_digit c = false).
  { intros w tl Hw. destruct (slash_not_digit Hw) as (c & v & -> & Hc).
    exists c, (v ++ tl). now split. }
  apply digits_split_unique in Hu' as [Hdd Hu'];
    [|exact Hds | exact Hds' | now apply Hr | now apply Hr].
  split; [exact Hdd|].
  apply app_eq_length in Hu' as [_ Hu'];
    [|rewrite (eq_i_length Hw2), (eq_i_length Hw2'); reflexivity].
  cbn [app] in Hu'. injection Hu' as <- Hu'. f_equal.
  destruct Hd as [[-> Hd] | (x & -> & Hx)], Hd' as [[-> Hd'] | (x' & -> & Hx')];
    cbn [app] in Hu'.
  - reflexivity.
  - rewrite (Hd x' rest' Hu') in Hx'. discriminate.
  - symmetry in Hu'. rewrite (Hd' x rest Hu') in Hx. discriminate.
  - now injection Hu' as <- _.
Qed.

Lemma shape_starts_run l1 l2 url j :
  shape_starts l1 l2 url j ->
  run (re_url l1 l2) (skipn j url) j [] [] <> None.
Proof.
  intros (ds & idx & pre & w1 & w2 & l & d & rest & -> & <- & Hw1 & Hw2 & Hne & Hds & Hl & _ & _).
  rewrite skipn_app, skipn_all, Nat.sub_diag. cbn [skipn app].
  rewrite <- forallb_digit_i in Hds. rewrite <- letter_i_spec in Hl.
  change ((l :: d) ++ rest) with (l :: (d ++ rest)).
  now apply run_url_complete.
Qed.

(** [s.match] with a URL pattern reads the leftmost text of its shape. *)
Lemma String_match_url_leftmost l1 l2 url m :
  String_match url (re_url l1 l2) = Some m ->
  exists j ds idx,
    shape_at l1 l2 url j ds idx
    /\ (forall j', j' < j -> ~ shape_starts l1 l2 url j')
    /\ group m 1 = ds /\ group m 2 = idx.
Proof.
  unfold String_match, exec.
  destruct (search (re_url l1 l2) url 0) as [mt|] eqn:Hs; [|discriminate].
  intros [= <-].
  apply search_sound in Hs as (k & Hk & Hst & Hrun & Hleft). cbn [plus] in Hst, Hrun, Hleft.
  apply run_url_sound in Hrun
    as (w1 & ds & w2 & l & d & rest & Hsk & Hw1 & Hw2 & Hne & Hds & Hl & Hd & He & Hc).
  assert (Hurl : url = firstn k url ++ w1 ++ ds ++ w2 ++ (l :: d) ++ rest).
  { rewrite <- Hsk. symmetry. apply firstn_skipn. }
  assert (Hpre : List.length (firstn k url) = k) by (apply firstn_length_le; exact Hk).
  exists k, ds, (l :: d). split; [|split].
  - exists (firstn k url), w1, w2, l, d, rest.
    rewrite forallb_digit_i in Hds. rewrite letter_i_spec in Hl.
    repeat split; try assumption.
    destruct Hd as [[-> Hd] | (x & -> & Hx)].
    + left. split; [reflexivity|]. intros x r Hr.
      rewrite <- (digit_i_spec x). exact (Hd x r Hr).
    + right. exists x. split; [reflexivity|]. rewrite <- (digit_i_spec x). exact Hx.
  - intros j' Hj' Hsh. apply shape_starts_run in Hsh. apply Hsh, Hleft, Hj'.
  - rewrite Hst, Hc, He. cbn [List.map fst snd group nth]. split.
    + rewrite Hurl at 1.
      replace (firstn k url ++ w1 ++ ds ++ w2 ++ (l :: d) ++ rest)
        with ((firstn k url ++ w1) ++ ds ++ (w2 ++ (l :: d) ++ rest))
        by (now rewrite <- !app_assoc).
      apply substring_middle; rewrite !length_app, Hpre; lia.
    + rewrite Hurl at 1.
      replace (firstn k url ++ w1 ++ ds ++ w2 ++ (l :: d) ++ rest)
        with ((firstn k url ++ w1 ++ ds ++ w2) ++ (l :: d) ++ rest)
        by (now rewrite <- !app_assoc).
      apply substring_middle; repeat (rewrite ?length_app; cbn [List.length]);
        rewrite ?Hpre; lia.
Qed.

Lemma String_match_url_nowhere l1 l2 url :
  String_match url (re_url l1 l2) = None ->
  forall j, ~ shape_starts l1 l2 url j.
Proof.
  intros Hn j (ds & idx & pre & w1 & w2 & l & d & rest & -> & _ & Hw1 & Hw2 & Hne & Hds & Hl & _ & _).
  rewrite <- forallb_digit_i in Hds. rewrite <- letter_i_spec in Hl.
  change ((l :: d) ++ rest) with (l :: (d ++ rest)) in Hn.
  exact (@String_match_url_complete _ _ pre w1 ds w2 l (d ++ rest) Hw1 Hw2 Hne Hds Hl Hn).
Qed.

Lemma leftmost_unique (P : nat -> Prop) j j' :
  P j -> (forall i, i < j -> ~ P i) -> P j' -> (forall i, i < j' -> ~ P i) -> j' = j.
Proof.
  intros Hj Hl Hj' Hl'.
  destruct (Nat.lt_trichotomy j j') as [H | [H | H]]; [|now symmetry|].
  - destruct (Hl' j H Hj).
  - destruct (Hl j' H Hj').
Qed.

(** C4, as the code has it.  When a URL is accepted, the reference is
    read from one text of the URL string and from no other: the leftmost
    text that reads, up to case, ["/problemset/problem/"] digits ["/"]
    letter, wherever it stands, or, when the string holds no such text,
    the leftmost text that reads ["/contest/"] digits ["/problem/"]
    letter.  The first group is the run of digits of that text and the
    second its letter with the digit that follows it, if any; the index
    handed on is the second group in upper case, an upper-case letter
    with at most one digit; the contest id handed on is the double
    nearest to the value of the digits, which is that value itself up
    to 2^53. *)
Theorem url_reference url m :
  urlMatch url = Some m ->
  exists j ds idx,
    chosen_occurrence url j ds idx
    /\ (forall j' ds' idx',
          chosen_occurrence url j' ds' idx' -> j' = j /\ ds' = ds /\ idx' = idx)
    /\ group m 1 = ds /\ group m 2 = idx
    /\ is_index (toUpperCase (group m 2)) = true
    /\ eq_i (toUpperCase (group m 2)) idx
    /\ parseInt (group m 1) = to_number (decimal_value ds)
    /\ ((decimal_value ds <= 2 ^ 53)%Z -> parseInt (group m 1) = Fin (decimal_value ds)).
Proof.
  intros H.
  assert (Hread : exists j ds idx,
            chosen_occurrence url j ds idx
            /\ (forall j' ds' idx',
                  chosen_occurrence url j' ds' idx' -> j' = j /\ ds' = ds /\ idx' = idx)
            /\ group m 1 = ds /\ group m 2 = idx).
  { unfold urlMatch in H. rewrite re_problemset_url, re_contest_url in H.
    destruct (String_match url (re_url (js "/problemset/problem/") (js "/")))
      as [m1|] eqn:H1.
    - injection H as <-.
      apply String_match_url_leftmost in H1 as (j & ds & idx & Hat & Hleft & Hg1 & Hg2).
      exists j, ds, idx. split; [left; now split|]. split; [|now split].
      intros j' ds' idx' [[Hat' Hleft'] | [_ [Hno _]]].
      + assert (j' = j).
        { apply (@leftmost_unique (shape_starts (js "/problemset/problem/") (js "/") url));
            [now exists ds, idx | exact Hleft | now exists ds', idx' | exact Hleft']. }
        subst j'. split; [reflexivity|].
        destruct (shape_at_unique Hat' Hat) as [-> ->]. now split.
      + destruct (Hno j). now exists ds, idx.
    - pose proof (@String_match_url_nowhere _ _ _ H1) as Hno.
      apply String_match_url_leftmost in H as (j & ds & idx & Hat & Hleft & Hg1 & Hg2).
      exists j, ds, idx. split; [right; now repeat split|]. split; [|now split].
      intros j' ds' idx' [[Hat' _] | [Hat' [_ Hleft']]].
      + destruct (Hno j'). now exists ds', idx'.
      + assert (j' = j).
        { apply (@leftmost_unique (shape_starts (js "/contest/") (js "/problem/") url));
            [now exists ds, idx | exact Hleft | now exists ds', idx' | exact Hleft']. }
        subst j'. split; [reflexivity|].
        destruct (shape_at_unique Hat' Hat) as [-> ->]. now split. }
  destruct Hread as (j & ds & idx & Hch & Huniq & Hg1 & Hg2).
  exists j, ds, idx.
  assert (Hshape : exists l d,
            idx = l :: d /\ ds <> [] /\ forallb is_digit ds = true
            /\ (is_upper l || is_lower l)%bool = true
            /\ (d = [] \/ exists x, d = [x] /\ is_digit x = true)).
  { assert (Hany : forall l1 l2, shape_at l1 l2 url j ds idx ->
              exists l d, idx = l :: d /\ ds <> [] /\ forallb is_digit ds = true
                          /\ (is_upper l || is_lower l)%bool = true
                          /\ (d = [] \/ exists x, d = [x] /\ is_digit x = true)).
    { intros l1 l2 (pre & w1 & w2 & l & d & rest & _ & _ & _ & _ & Hne & Hds & Hl & Hd & ->).
      exists l, d. repeat split; try assumption.
      destruct Hd as [[-> _] | Hx]; [now left | now right]. }
    destruct Hch as [[Hat _] | [Hat _]]; exact (Hany _ _ Hat). }
  destruct Hshape as (l & d & Hidx & Hne & Hds & Hl & Hd).
  destruct (toUpperCase_index l Hl Hd) as [Hi He].
  pose proof (parseInt_digits Hne Hds) as Hp.
  rewrite Hg1, Hg2, Hidx. rewrite Hidx in Hch, Huniq.
  split; [exact Hch|]. split; [exact Huniq|].
  split; [reflexivity|]. split; [reflexivity|].
  split; [exact Hi|]. split; [exact He|]. split; [exact Hp|].
  intros Hle. rewrite Hp. apply to_number_exact.
  split; [apply decimal_value_nonneg | exact Hle].
Qed.

(** The scenario of the specification: problem 4A. *)
Lemma url_reference_witness :
  urlMatch Sample.url_4A = Some [js "/contest/4/problem/A"; js "4"; js "A"]
  /\ parseInt (js "4") = Fin 4
  /\ toUpperCase (js "A") = js "A"
  /\ exists j ds idx,
       chosen_occurrence Sample.url_4A j ds idx
       /\ js "4" = ds /\ js "A" = idx
       /\ eq_i (toUpperCase (js "A")) idx
       /\ parseInt (js "4") = to_number (decimal_value ds).
Proof.
  split; [vm_compute; reflexivity|]. split; [vm_compute; reflexivity|].
  split; [vm_compute; reflexivity|].
  destruct (@url_reference Sample.url_4A [js "/contest/4/problem/A"; js "4"; js "A"])
    as (j & ds & idx & Hch & _ & Hg1 & Hg2 & _ & He & Hp & _);
    [vm_compute; reflexivity|].
  exists j, ds, idx. split; [exact Hch|]. split; [exact Hg1|]. split; [exact Hg2|].
  split; [exact He | exact Hp].
Defined.

(** C4 as the specification words it fails past 2^53: the segment reads
    9007199254740993 and the contest id is 9007199254740992. *)
Lemma contest_id_rounded_counterexample :
  urlMatch Sample.url_2p53
  = Some [js "/contest/9007199254740993/problem/A"; js "9007199254740993"; js "A"]
  /\ decimal_value (js "9007199254740993") = 9007199254740993%Z
  /\ parseInt (js "9007199254740993") = Fin 9007199254740992
  /\ parseInt (js "9007199254740993") <> Fin (decimal_value (js "9007199254740993")).
Proof.
  split; [vm_compute; reflexivity|]. split; [vm_compute; reflexivity|].
  split; [vm_compute; reflexivity|]. vm_compute. discriminate.
Qed.

(** The text the reference is read from need not lie in the path: the
    path of this URL names problem 4A, its query string holds a text of
    the problemset shape, and the reference is 7 and ["B"]. *)
Lemma reference_read_from_query_example :
  url_path Sample.url_two_shapes = js "/contest/4/problem/A?from=/problemset/problem/7/b"
  /\ urlMatch Sample.url_two_shapes = Some [js "/problemset/problem/7/b"; js "7"; js "b"]
  /\ parseInt (js "7") = Fin 7
  /\ toUpperCase (js "b") = js "B".
Proof. repeat split; vm_compute; reflexivity. Qed.

(** C7 as the specification words it fails: the pattern sits in the
    query string, the path begins with ["/blog/"], and the URL is
    accepted as problem 4A. *)
Lemma match_not_at_path_start_counterexample :
  url_path Sample.url_elsewhere = js "/blog/entry/1?next=/contest/4/problem/A"
  /\ shape_begins_path Sample.url_elsewhere = false
  /\ urlMatch Sample.url_elsewhere = Some [js "/contest/4/problem/A"; js "4"; js "A"].
Proof. repeat split; vm_compute; reflexivity. Qed.

(** Acceptance is the occurrence of a problem text somewhere. *)
Lemma urlMatch_occurs url :
  urlMatch url <> None
  <-> exists pre w1 ds w2 l rest,
        url = pre ++ w1 ++ ds ++ w2 ++ l :: rest /\ problem_text w1 ds w2 l.
Proof.
  split.
  - destruct (urlMatch url) as [m|] eqn:H; [intros _ | congruence].
    apply urlMatch_groups in H
      as (pre & w1 & ds & w2 & l & d & rest & Hu & Hp & _ & _).
    exists pre, w1, ds, w2, l, (d ++ rest). split; [|exact Hp].
    rewrite Hu. now rewrite <- app_comm_cons.
  - intros (pre & w1 & ds & w2 & l & rest & -> & Hlit & Hne & Hds & Hl).
    rewrite <- forallb_digit_i in Hds. rewrite <- letter_i_spec in Hl.
    unfold urlMatch. rewrite re_problemset_url, re_contest_url.
    destruct Hlit as [[Hw1 Hw2] | [Hw1 Hw2]].
    + pose proof (@String_match_url_complete _ _ pre w1 ds w2 l rest Hw1 Hw2 Hne Hds Hl) as H.
      destruct (String_match _ (re_url (js "/problemset/problem/") (js "/")));
        [discriminate | contradiction].
    + pose proof (@String_match_url_complete _ _ pre w1 ds w2 l rest Hw1 Hw2 Hne Hds Hl) as H.
      destruct (String_match _ (re_url (js "/problemset/problem/") (js "/")));
        [discriminate | exact H].
Qed.

(** C7, as the code has it.  A URL is accepted exactly when, somewhere
    in it, there is a text that reads, up to case,
    ["/problemset/problem/"] digits ["/"] letter, or ["/contest/"] digits
    ["/problem/"] letter; what stands before that text and after it
    plays no part. *)
Theorem url_accepted_iff url :
  urlMatch url <> None
  <-> exists pre w1 ds w2 l rest,
        url = pre ++ w1 ++ ds ++ w2 ++ l :: rest /\ problem_text w1 ds w2 l.
Proof. exact (urlMatch_occurs url). Qed.

(* ===================================================================== *)
(** * Theorems: the label of the input and output formats *)
(* ===================================================================== *)

Lemma prefix_occurs w s j :
  j <= List.length s ->
  (prefix_i w (skipn j s) = true <-> occurs_at w s j).
Proof.
  intros Hj. rewrite prefix_i_spec. unfold occurs_at. split.
  - intros (x & Hs & Hx).
    exists (firstn j s), x, (skipn (List.length w) (skipn j s)).
    split; [|split; [now apply firstn_length_le | exact Hx]].
    rewrite <- Hs. symmetry. apply firstn_skipn.
  - intros (pre & x & post & -> & <- & Hx). exists x. split; [|exact Hx].
    rewrite skipn_app, skipn_all, Nat.sub_diag. cbn [skipn app].
    rewrite <- (eq_i_length Hx), skipn_app, skipn_all, Nat.sub_diag. reflexivity.
Qed.

Lemma occurs_at_bound w s j : occurs_at w s j -> j <= List.length s.
Proof. intros (pre & x & post & -> & <- & _). rewrite length_app. lia. Qed.

Lemma run_lit_only l s pos :
  run (lit_i l) s pos [] []
  = if prefix_i l s then Some (pos + List.length l, []) else None.
Proof.
  rewrite <- (app_nil_r (lit_i l)), run_lit_i. reflexivity.
Qed.

(** [s.replace(/w/i, '')]: the leftmost occurrence of the word is taken
    out, wherever it stands; without an occurrence the text is kept. *)
Lemma replace_word_i w s :
  (replace s (lit_i w) [] = s /\ forall j, ~ occurs_at w s j)
  \/ exists pre x post,
       s = pre ++ x ++ post /\ eq_i x w
       /\ (forall j, j < List.length pre -> ~ occurs_at w s j)
       /\ replace s (lit_i w) [] = pre ++ post.
Proof.
  unfold replace, exec.
  destruct (search (lit_i w) s 0) as [m|] eqn:Hs.
  - right. apply search_sound in Hs as (k & Hk & Hst & Hrun & Hleft).
    cbn [plus] in *. rewrite run_lit_only in Hrun.
    destruct (prefix_i w (skipn k s)) eqn:Hp; [|discriminate].
    injection Hrun as He _.
    pose proof Hp as Hocc. apply (prefix_occurs w s Hk) in Hocc.
    destruct Hocc as (pre & x & post & Hsx & Hpre & Hx).
    exists pre, x, post. split; [exact Hsx|]. split; [exact Hx|]. split.
    + intros j Hj Hocc. rewrite Hpre in Hj.
      apply prefix_occurs in Hocc; [|lia].
      specialize (Hleft j Hj). rewrite run_lit_only, Hocc in Hleft. discriminate.
    + rewrite Hst, <- He, <- Hpre, <- (eq_i_length Hx). cbn [app]. rewrite Hsx.
      rewrite firstn_app, Nat.sub_diag, firstn_all. cbn [firstn]. rewrite app_nil_r.
      f_equal. rewrite app_assoc, skipn_app, skipn_all2 by (rewrite length_app; lia).
      rewrite length_app. now replace (_ - _) with 0 by lia.
  - left. split; [reflexivity|]. intros j Hocc.
    pose proof (occurs_at_bound Hocc) as Hj.
    apply prefix_occurs in Hocc; [|exact Hj].
    revert Hs. apply (@search_complete _ _ 0 j Hj). cbn [plus].
    rewrite run_lit_only, Hocc. discriminate.
Qed.

(** C8, as the code has it.  Of the text the selector cascade locates,
    the input format is the trimmed text when the word "input" does not
    occur in it, and otherwise the trimmed text without the leftmost
    occurrence of the word, up to case, wherever that occurrence stands;
    likewise the output format with the word "output". *)
Theorem format_label_removal document :
  let located_in := getTextBySelectors document inputFormat_selectors in
  let located_out := getTextBySelectors document outputFormat_selectors in
  ((scraped_inputFormat document = trim located_in
    /\ forall j, ~ occurs_at (js "input") located_in j)
   \/ exists pre x post,
        located_in = pre ++ x ++ post /\ eq_i x (js "input")
        /\ (forall j, j < List.length pre -> ~ occurs_at (js "input") located_in j)
        /\ scraped_inputFormat document = trim (pre ++ post))
  /\ ((scraped_outputFormat document = trim located_out
       /\ forall j, ~ occurs_at (js "output") located_out j)
      \/ exists pre x post,
           located_out = pre ++ x ++ post /\ eq_i x (js "output")
           /\ (forall j, j < List.length pre -> ~ occurs_at (js "output") located_out j)
           /\ scraped_outputFormat document = trim (pre ++ post)).
Proof.
  cbv zeta. unfold scraped_inputFormat, scraped_outputFormat, re_input, re_output. split.
  - destruct (replace_word_i (js "input") (getTextBySelectors document inputFormat_selectors))
      as [[-> Hno] | (pre & x & post & Hs & Hx & Hleft & ->)].
    + left. split; [reflexivity | exact Hno].
    + right. exists pre, x, post. repeat split; assumption.
  - destruct (replace_word_i (js "output") (getTextBySelectors document outputFormat_selectors))
      as [[-> Hno] | (pre & x & post & Hs & Hx & Hleft & ->)].
    + left. split; [reflexivity | exact Hno].
    + right. exists pre, x, post. repeat split; assumption.
Qed.

(** C8 as the specification words it fails: the located text does not
    start with the label, and yet a later "input" is taken out of it. *)
Lemma inner_word_removed_counterexample :
  let located := getTextBySelectors Sample.untitled_page inputFormat_selectors in
  located = js "The first line of input holds n."
  /\ strip_leading_label (js "input") located = located
  /\ scraped_inputFormat Sample.untitled_page = js "The first line of  holds n."
  /\ scraped_inputFormat Sample.untitled_page
     <> trim (strip_leading_label (js "input") located).
Proof.
  cbv zeta. split; [vm_compute; reflexivity|]. split; [vm_compute; reflexivity|].
  split; [vm_compute; reflexivity|]. vm_compute. discriminate.
Qed.

(* ===================================================================== *)
(** * Theorems: sample-test pairing *)
(* ===================================================================== *)

(** The pair the loop builds at index [i]. *)
Lemma pair_at_spec inputs outputs acc i a b :
  nth_error inputs i = Some a ->
  nth_error outputs i = Some b ->
  pair_at inputs outputs acc i
  = acc ++ (if accepted (trimmed_text a) (trimmed_text b)
            then [{| input := trimmed_text a; output := trimmed_text b;
                     explanation := None |}]
            else []).
Proof.
  intros Ha Hb. unfold pair_at. rewrite Ha, Hb.
  destruct (accepted _ _); [reflexivity | now rewrite app_nil_r].
Qed.

Lemma pair_loop_spec inputs outputs idx acc :
  fold_left (pair_at inputs outputs) idx acc
  = acc ++ List.map (test_at inputs outputs) (filter (accepted_at inputs outputs) idx).
Proof.
  revert acc. induction idx as [|i idx IH]; intros acc; cbn [fold_left filter].
  - cbn. now rewrite app_nil_r.
  - rewrite IH.
    assert (Hstep : pair_at inputs outputs acc i
                    = acc ++ (if accepted_at inputs outputs i
                              then [test_at inputs outputs i] else [])).
    { unfold pair_at, accepted_at, test_at.
      destruct (nth_error inputs i) as [a|]; [|now rewrite app_nil_r].
      destruct (nth_error outputs i) as [b|]; [|now rewrite app_nil_r].
      destruct (accepted _ _); [reflexivity | now rewrite app_nil_r]. }
    rewrite Hstep.
    destruct (accepted_at inputs outputs i); cbn [List.map]; rewrite <- app_assoc; reflexivity.
Qed.

Lemma pair_up_spec inputs outputs :
  pair_up inputs outputs []
  = List.map (test_at inputs outputs)
      (filter (accepted_at inputs outputs)
         (seq 0 (Nat.min (List.length inputs) (List.length outputs)))).
Proof. unfold pair_up. now rewrite pair_loop_spec. Qed.

Lemma length_pos_false {A} (l : list A) : (0 <? List.length l) = false -> l = [].
Proof. destruct l; [reflexivity | discriminate]. Qed.

(** The loop over the output selectors, entered with no test yet, ends
    with the pairs of one output family, or with none when no family
    gives an accepted pair. *)
Lemma output_families_spec document inputs selectors :
  (exists outputSel,
      In outputSel selectors
      /\ output_families document inputs selectors []
         = pair_up inputs (querySelectorAll document outputSel) [])
  \/ (output_families document inputs selectors [] = []
      /\ forall outputSel, In outputSel selectors ->
           pair_up inputs (querySelectorAll document outputSel) [] = []).
Proof.
  induction selectors as [|sel rest IH]; cbn [output_families].
  - right. split; [reflexivity | intros ? []].
  - destruct (0 <? List.length (querySelectorAll document sel)) eqn:Hlen.
    + destruct (0 <? List.length (pair_up inputs (querySelectorAll document sel) [])) eqn:Hp.
      * left. exists sel. split; [now left | reflexivity].
      * apply length_pos_false in Hp. rewrite Hp.
        destruct IH as [(o & Hin & Ho) | [He Hall]].
        -- left. exists o. split; [now right | exact Ho].
        -- right. split; [exact He|]. intros o [<- | Hin]; [exact Hp | now apply Hall].
    + apply length_pos_false in Hlen.
      assert (Hnil : pair_up inputs (querySelectorAll document sel) [] = []).
      { rewrite Hlen. unfold pair_up. cbn. now rewrite Nat.min_0_r. }
      destruct IH as [(o & Hin & Ho) | [He Hall]].
      * left. exists o. split; [now right | exact Ho].
      * right. split; [exact He|]. intros o [<- | Hin]; [exact Hnil | now apply Hall].
Qed.

(** The whole pairing step ends with the pairs of one input family and
    one output family. *)
Lemma input_families_spec document selectors :
  selectors <> [] ->
  exists inputSel outputSel,
    In inputSel selectors /\ In outputSel outputSelectors
    /\ input_families document selectors []
       = pair_up (querySelectorAll document inputSel)
                 (querySelectorAll document outputSel) [].
Proof.
  induction selectors as [|sel rest IH]; [congruence|]. intros _.
  cbn [input_families].
  assert (Hfirst : In (js ".output pre") outputSelectors) by (now left).
  assert (Hrest : rest <> [] ->
            exists inputSel outputSel,
              In inputSel (sel :: rest) /\ In outputSel outputSelectors
              /\ input_families document rest []
                 = pair_up (querySelectorAll document inputSel)
                           (querySelectorAll document outputSel) []).
  { intros Hne. destruct (IH Hne) as (i' & o' & Hi' & Ho' & Heq).
    exists i', o'. split; [now right | split; [exact Ho' | exact Heq]]. }
  assert (Hend : forall o, In o outputSelectors ->
            pair_up (querySelectorAll document sel) (querySelectorAll document o) [] = [] ->
            exists inputSel outputSel,
              In inputSel (sel :: rest) /\ In outputSel outputSelectors
              /\ input_families document rest []
                 = pair_up (querySelectorAll document inputSel)
                           (querySelectorAll document outputSel) []).
  { intros o Ho Hnil. destruct rest as [|sel' rest'].
    - exists sel, o. split; [now left | split; [exact Ho | now rewrite Hnil]].
    - apply Hrest. discriminate. }
  destruct (0 <? List.length (querySelectorAll document sel)) eqn:Hlen.
  - destruct (output_families_spec document (querySelectorAll document sel) outputSelectors)
      as [(o & Hin & Ho) | [He Hall]].
    + rewrite Ho.
      destruct (0 <? List.length (pair_up (querySelectorAll document sel)
                                          (querySelectorAll document o) [])) eqn:Hp.
      * exists sel, o. split; [now left | split; [exact Hin | reflexivity]].
      * apply length_pos_false in Hp. rewrite Hp. now apply (Hend o).
    + rewrite He. cbn [List.length Nat.ltb Nat.leb].
      apply (Hend (js ".output pre") Hfirst). now apply Hall.
  - apply length_pos_false in Hlen.
    apply (Hend (js ".output pre") Hfirst). rewrite Hlen. reflexivity.
Qed.

Lemma seq_strongly_sorted a n : StronglySorted lt (seq a n).
Proof.
  revert a. induction n as [|n IH]; intros a; cbn; constructor; [apply IH|].
  apply Forall_forall. intros x Hx. apply in_seq in Hx. lia.
Qed.

Lemma filter_strongly_sorted {A} (R : A -> A -> Prop) f l :
  StronglySorted R l -> StronglySorted R (filter f l).
Proof.
  induction 1 as [|x l Hl IH Hx]; cbn; [constructor|].
  destruct (f x); [|exact IH]. constructor; [exact IH|].
  apply Forall_forall. intros y Hy. apply filter_In in Hy as [Hy _].
  rewrite Forall_forall in Hx. now apply Hx.
Qed.

Lemma accepted_bounds a b :
  accepted a b = true ->
  a <> [] /\ b <> [] /\ List.length a < 200 /\ List.length b < 200.
Proof.
  unfold accepted. rewrite !andb_true_iff, !Nat.ltb_lt.
  intros [[[Ha Hb] Hla] Hlb].
  repeat split; try assumption; intros ->; discriminate.
Qed.

(** C3.  The sample tests come from one input family and one output
    family of selectors.  They are, in increasing order of the position
    [i], the pairs of the trimmed text of the [i]-th input block with the
    trimmed text of the [i]-th output block, for exactly those [i] below
    the smaller of the two counts at which the acceptance test passes;
    every test emitted has both sides non-empty and shorter than 200
    code units. *)
Theorem sample_tests_positional document :
  exists inputSel outputSel,
    In inputSel inputSelectors /\ In outputSel outputSelectors
    /\ exists idx,
         let inputs := querySelectorAll document inputSel in
         let outputs := querySelectorAll document outputSel in
         StronglySorted lt idx
         /\ (forall i, In i idx <->
                       i < Nat.min (List.length inputs) (List.length outputs)
                       /\ accepted_at inputs outputs i = true)
         /\ scraped_sampleTests document = List.map (test_at inputs outputs) idx
         /\ (forall i, In i idx ->
               exists a b, nth_error inputs i = Some a /\ nth_error outputs i = Some b
                           /\ test_at inputs outputs i
                              = {| input := trimmed_text a; output := trimmed_text b;
                                   explanation := None |})
         /\ Forall (fun tc => input tc <> [] /\ output tc <> []
                              /\ List.length (input tc) < 200
                              /\ List.length (output tc) < 200)
                   (scraped_sampleTests document).
Proof.
  destruct (input_families_spec document (selectors := inputSelectors))
    as (inputSel & outputSel & Hi & Ho & Heq); [discriminate|].
  exists inputSel, outputSel. split; [exact Hi|]. split; [exact Ho|].
  set (inputs := querySelectorAll document inputSel) in *.
  set (outputs := querySelectorAll document outputSel) in *.
  exists (filter (accepted_at inputs outputs)
            (seq 0 (Nat.min (List.length inputs) (List.length outputs)))).
  cbv zeta.
  assert (Hmem : forall i,
            In i (filter (accepted_at inputs outputs)
                    (seq 0 (Nat.min (List.length inputs) (List.length outputs))))
            <-> i < Nat.min (List.length inputs) (List.length outputs)
                /\ accepted_at inputs outputs i = true).
  { intros i. rewrite filter_In, in_seq. intuition lia. }
  assert (Hat : forall i, accepted_at inputs outputs i = true ->
            exists a b, nth_error inputs i = Some a /\ nth_error outputs i = Some b
                        /\ accepted (trimmed_text a) (trimmed_text b) = true
                        /\ test_at inputs outputs i
                           = {| input := trimmed_text a; output := trimmed_text b;
                                explanation := None |}).
  { intros i. unfold accepted_at, test_at.
    destruct (nth_error inputs i) as [a|]; [|discriminate].
    destruct (nth_error outputs i) as [b|]; [|discriminate].
    intros H. exists a, b. repeat split; assumption. }
  split; [apply filter_strongly_sorted, seq_strongly_sorted|].
  split; [exact Hmem|].
  unfold scraped_sampleTests. rewrite Heq, pair_up_spec.
  split; [reflexivity|]. split.
  - intros i Hin. apply Hmem in Hin as [_ Hacc].
    destruct (Hat i Hacc) as (a & b & Ha & Hb & _ & Ht).
    exists a, b. split; [exact Ha | split; [exact Hb | exact Ht]].
  - apply Forall_forall. intros tc Htc. apply in_map_iff in Htc as (i & <- & Hin).
    apply Hmem in Hin as [_ Hacc].
    destruct (Hat i Hacc) as (a & b & _ & _ & Hok & ->).
    exact (accepted_bounds _ _ Hok).
Qed.

(** The scenario of the specification: two input blocks "8", "6" and two
    output blocks "YES", "YES" give the two tests in page order. *)
Example sample_tests_watermelon :
  scraped_sampleTests Sample.watermelon_page
  = [ {| input := js "8"; output := js "YES"; explanation := None |};
      {| input := js "6"; output := js "YES"; explanation := None |} ].
Proof. vm_compute. reflexivity. Qed.

(* ===================================================================== *)
(** * Theorems: the orchestrator and the browser session *)
(* ===================================================================== *)

(** A scrape that completes normally returns what the callback computes
    on the DOM of the session it launched. *)
Lemma scrape_normal url env t pd t' :
  scrapeWithOptimizedPuppeteer url env t = (Normal pd, t') ->
  exists document,
    on_evaluate (sessions env (launches t)) = inr document
    /\ pd = evaluate_callback document.
Proof.
  unfold_scrape.
  set (b := launches t).
  oracle env b; cbn; intros H; try discriminate;
    injection H as <- <-; eexists; split; reflexivity.
Qed.

Lemma live_app t1 t2 opened : live (t1 ++ t2) opened = live t2 (live t1 opened).
Proof.
  revert opened. induction t1 as [|e t1 IH]; intros opened; cbn; [reflexivity|].
  destruct e; try apply IH. destruct ok; apply IH.
Qed.

Lemma live_quiet mid opened :
  forallb (fun e => negb (is_session_boundary e)) mid = true ->
  live mid opened = opened.
Proof.
  induction mid as [|e mid IH]; cbn; [reflexivity|].
  intros H. apply andb_true_iff in H as [He Hm].
  destruct e; cbn in He; try discriminate; auto.
Qed.

Lemma live_bracket b mid :
  forallb (fun e => negb (is_session_boundary e)) mid = true ->
  live (ELaunch b true :: mid ++ [EClose b]) [] = [].
Proof.
  intros H. cbn. rewrite live_app, (live_quiet _ _ H). cbn.
  destruct (Nat.eq_dec b b); [reflexivity | contradiction].
Qed.

(** What one scrape adds to the trace. *)
Lemma scrape_trace url env t :
  exists new,
    snd (scrapeWithOptimizedPuppeteer url env t) = t ++ new
    /\ live new [] = []
    /\ ((new = [ELaunch (launches t) false]
         /\ exists e, fst (scrapeWithOptimizedPuppeteer url env t) = Throw e)
        \/ (exists mid,
              new = ELaunch (launches t) true :: mid ++ [EClose (launches t)]
              /\ forallb (fun e => negb (is_session_boundary e)) mid = true)).
Proof.
  unfold_scrape.
  set (b := launches t).
  oracle env b; cbn [fst snd]; rewrite <- ?app_assoc;
    (eexists; split; [reflexivity|]); cbn [app];
    try (split; [reflexivity | left; split; [reflexivity | eexists; reflexivity]]);
    match goal with
    | |- context [ELaunch b true :: ?rest] =>
        assert (Hq : forallb (fun e => negb (is_session_boundary e)) (removelast rest) = true)
          by reflexivity;
        split; [exact (live_bracket b _ Hq) | right; exists (removelast rest); split; [reflexivity | exact Hq]]
    end.
Qed.

(** C9.  Whatever the browser does, a call of
    [scrapeWithOptimizedPuppeteer] only appends to the trace, and what it
    appends is either a single failed launch (no session was opened, and
    the call throws) or a successful launch of a fresh session followed,
    with no other launch or close in between, by the close of that same
    session as the last event: on every exit path after a launch the
    session is released, and no session opened by the call is live when
    it returns. *)
Theorem scrape_releases_session url env t :
  exists new,
    snd (scrapeWithOptimizedPuppeteer url env t) = t ++ new
    /\ live new [] = []
    /\ ((new = [ELaunch (launches t) false]
         /\ exists e, fst (scrapeWithOptimizedPuppeteer url env t) = Throw e)
        \/ (exists mid,
              new = ELaunch (launches t) true :: mid ++ [EClose (launches t)]
              /\ forallb (fun e => negb (is_session_boundary e)) mid = true)).
Proof. exact (scrape_trace url env t). Qed.

(** The scraping stage never produces a difficulty, and labels its
    result with the generic source. *)
Lemma scrape_defaults url env t pd t' :
  scrapeWithOptimizedPuppeteer url env t = (Normal pd, t') ->
  source pd = js "Codeforces" /\ difficulty pd = None.
Proof.
  intros H. apply scrape_normal in H as (document & _ & ->). split; reflexivity.
Qed.

(** C5, as the code has it.  A URL in which no problem text of either
    shape occurs anywhere, in the path or past it, makes
    [extractProblemData] throw the invalid-URL error at once: the trace
    is left as it was, so neither the metadata fetch nor the browser was
    touched. *)
Theorem invalid_url_no_network NumberToString url env t :
  ~ (exists pre w1 ds w2 l rest,
       url = pre ++ w1 ++ ds ++ w2 ++ l :: rest /\ problem_text w1 ds w2 l) ->
  extractProblemData NumberToString url env t
  = (Throw (new_Error (js "Invalid Codeforces problem URL format")), t).
Proof.
  intros H. unfold extractProblemData.
  destruct (urlMatch url) as [m|] eqn:Hm; [|reflexivity].
  exfalso. apply H, urlMatch_occurs. congruence.
Qed.

(** The scenario of the specification: a blog URL. *)
Lemma invalid_url_no_network_witness :
  extractProblemData decimal_toString (js "https://codeforces.com/blog/123")
    Sample.env_ok []
  = (Throw (new_Error (js "Invalid Codeforces problem URL format")), []).
Proof.
  apply (@invalid_url_no_network decimal_toString
           (js "https://codeforces.com/blog/123") Sample.env_ok []).
  intros H. apply urlMatch_occurs in H. apply H. vm_compute. reflexivity.
Defined.

(** C5 as the specification words it fails: no shape begins the path of
    this URL, which is a blog entry, and yet the URL is accepted because
    its query string holds a problem text: the metadata is fetched and
    the browser launched, once each, and a record is returned. *)
Lemma shape_in_query_fetched_counterexample :
  let r := extractProblemData decimal_toString Sample.url_elsewhere Sample.env_ok [] in
  shape_begins_path Sample.url_elsewhere = false
  /\ (exists pd, fst r = Normal pd /\ title pd = js "Watermelon")
  /\ fetches (snd r) = 1 /\ launches (snd r) = 1.
Proof.
  cbv zeta. split; [vm_compute; reflexivity|]. split.
  - assert (H : match fst (extractProblemData decimal_toString Sample.url_elsewhere
                             Sample.env_ok []) with
                | Normal pd => title pd = js "Watermelon"
                | Throw _ => False
                end) by (vm_compute; reflexivity).
    destruct (fst (extractProblemData decimal_toString Sample.url_elsewhere Sample.env_ok []))
      as [pd | e]; [|contradiction].
    exists pd. split; [reflexivity | exact H].
  - split; vm_compute; reflexivity.
Qed.

(** C1.  For a URL that parses: if the metadata fetch throws, whatever
    the reason, and the scrape that follows succeeds, then
    [extractProblemData] returns exactly the scraped record, which is
    what the callback computed on the rendered page, with the source
    ["Codeforces"]. *)
Theorem metadata_failure_degrades NumberToString url m env t e t1 pd t2 :
  urlMatch url = Some m ->
  fetchFromCodeforcesAPI NumberToString (parseInt (group m 1)) (toUpperCase (group m 2)) env t
  = (Throw e, t1) ->
  scrapeWithOptimizedPuppeteer url env (t1 ++ [warn_api_failed e]) = (Normal pd, t2) ->
  extractProblemData NumberToString url env t = (Normal pd, t2)
  /\ source pd = js "Codeforces"
  /\ exists document, pd = evaluate_callback document.
Proof.
  intros Hm Hf Hs. split; [|split].
  - unfold extractProblemData. rewrite Hm.
    unfold try_catch at 1. unfold bind at 1. rewrite Hf.
    unfold bind, console, emit. exact Hs.
  - apply (scrape_defaults _ _ _ Hs).
  - apply scrape_normal in Hs as (document & _ & ->). eexists; reflexivity.
Qed.

Lemma metadata_failure_degrades_witness :
  let e := new_Error (js "Failed to fetch from Codeforces API: TypeError: fetch failed") in
  let t1 := [EFetch apiUrl] in
  let pd := evaluate_callback Sample.watermelon_page in
  let t2 := snd (scrapeWithOptimizedPuppeteer Sample.url_4A Sample.env_api_down
                   (t1 ++ [warn_api_failed e])) in
  extractProblemData decimal_toString Sample.url_4A Sample.env_api_down [] = (Normal pd, t2)
  /\ source pd = js "Codeforces"
  /\ exists document, pd = evaluate_callback document.
Proof.
  intros e t1 pd t2.
  apply (@metadata_failure_degrades decimal_toString Sample.url_4A
           [js "/contest/4/problem/A"; js "4"; js "A"] Sample.env_api_down [] e t1 pd t2);
    vm_compute; reflexivity.
Defined.

(** What [extractProblemData] returns when the metadata fetch and the
    scrape after it both succeed. *)
Lemma extract_both_succeed NumberToString url m env t apiData t1 detailedData t2 :
  urlMatch url = Some m ->
  fetchFromCodeforcesAPI NumberToString (parseInt (group m 1)) (toUpperCase (group m 2)) env t
  = (Normal apiData, t1) ->
  scrapeWithOptimizedPuppeteer url env t1 = (Normal detailedData, t2) ->
  extractProblemData NumberToString url env t
  = (Normal (combine_data NumberToString (parseInt (group m 1)) apiData detailedData), t2).
Proof.
  intros Hm Hf Hs. unfold extractProblemData. rewrite Hm.
  unfold try_catch at 1. unfold bind at 1. rewrite Hf.
  unfold bind at 1. rewrite Hs. reflexivity.
Qed.

(** What it returns when the metadata fetch throws. *)
Lemma extract_fetch_throws NumberToString url m env t e t1 :
  urlMatch url = Some m ->
  fetchFromCodeforcesAPI NumberToString (parseInt (group m 1)) (toUpperCase (group m 2)) env t
  = (Throw e, t1) ->
  extractProblemData NumberToString url env t
  = scrapeWithOptimizedPuppeteer url env (t1 ++ [warn_api_failed e]).
Proof.
  intros Hm Hf. unfold extractProblemData. rewrite Hm.
  unfold try_catch at 1. unfold bind at 1. rewrite Hf. reflexivity.
Qed.

(** C6, as the code has it.  When the metadata fetch and the scrape
    after it both succeed, the merged record takes its title from the
    metadata name unless that name is empty (then the scraped title), its
    difficulty is ["*"] followed by the metadata rating when the rating is
    there and is neither 0 nor NaN (otherwise the scraped difficulty),
    and the limits, description, formats, constraints and sample tests
    are the scraped ones. *)
Theorem merge_policy NumberToString url m env t apiData t1 detailedData t2 :
  urlMatch url = Some m ->
  fetchFromCodeforcesAPI NumberToString (parseInt (group m 1)) (toUpperCase (group m 2)) env t
  = (Normal apiData, t1) ->
  scrapeWithOptimizedPuppeteer url env t1 = (Normal detailedData, t2) ->
  exists pd,
    extractProblemData NumberToString url env t = (Normal pd, t2)
    /\ (name apiData <> [] -> title pd = name apiData)
    /\ (name apiData = [] -> title pd = title detailedData)
    /\ (forall r, rating apiData = Some r -> r <> Fin 0 -> r <> NaN ->
        difficulty pd = Some (js "*" ++ NumberToString r))
    /\ (rating apiData = None \/ rating apiData = Some (Fin 0) \/ rating apiData = Some NaN ->
        difficulty pd = difficulty detailedData)
    /\ timeLimit pd = timeLimit detailedData
    /\ memoryLimit pd = memoryLimit detailedData
    /\ description pd = description detailedData
    /\ inputFormat pd = inputFormat detailedData
    /\ outputFormat pd = outputFormat detailedData
    /\ constraints pd = constraints detailedData
    /\ sampleTests pd = sampleTests detailedData.
Proof.
  intros Hm Hf Hs. eexists. split; [apply (extract_both_succeed _ _ _ _ Hm Hf Hs)|].
  cbn. repeat split.
  - destruct (name apiData); [contradiction | reflexivity].
  - intros ->. reflexivity.
  - intros r -> H0 Hn. destruct r as [z| | |]; cbn; try reflexivity; try contradiction.
    destruct (Z.eqb_spec z 0); [subst; contradiction | reflexivity].
  - intros [-> | [-> | ->]]; reflexivity.
Qed.

(** The scenario of the specification: the API names problem 4A
    "Watermelon"; the page is titled otherwise; the merged title is
    "Watermelon". *)
Lemma merge_policy_witness :
  title (evaluate_callback Sample.retitled_page) = js "Arbuz"
  /\ exists pd t2,
       extractProblemData decimal_toString Sample.url_4A Sample.env_retitled [] = (Normal pd, t2)
       /\ title pd = js "Watermelon"
       /\ difficulty pd = Some (js "*800").
Proof.
  split; [vm_compute; reflexivity|].
  destruct (@merge_policy decimal_toString Sample.url_4A
              [js "/contest/4/problem/A"; js "4"; js "A"] Sample.env_retitled []
              (Sample.record_4A (Some (Fin 800))) [EFetch apiUrl; EJson]
              (evaluate_callback Sample.retitled_page)
              (snd (scrapeWithOptimizedPuppeteer Sample.url_4A Sample.env_retitled
                      [EFetch apiUrl; EJson])))
    as (pd & He & Ht & _ & Hd & _);
    [vm_compute; reflexivity | vm_compute; reflexivity | vm_compute; reflexivity |].
  exists pd, (snd (scrapeWithOptimizedPuppeteer Sample.url_4A Sample.env_retitled
                     [EFetch apiUrl; EJson])).
  split; [exact He|]. split.
  - apply Ht. discriminate.
  - apply (Hd (Fin 800)); [reflexivity | discriminate | discriminate].
Defined.

(** C6 as the specification words it fails when the rating that is
    present is 0: the record of the API carries a rating, both stages
    succeed, and the merged difficulty is not the formatted rating (it is
    the scraped one, which is undefined). *)
Lemma merge_rating_zero_counterexample :
  rating (Sample.record_4A (Some (Fin 0))) = Some (Fin 0)
  /\ exists pd t2,
       extractProblemData decimal_toString Sample.url_4A Sample.env_rating0 []
       = (Normal pd, t2)
       /\ difficulty pd <> Some (js "*" ++ decimal_toString (Fin 0))
       /\ difficulty pd = None.
Proof.
  split; [reflexivity|].
  eexists; eexists. split; [vm_compute; reflexivity|].
  split; [discriminate | reflexivity].
Qed.

(** C10, as the code has it.  A scrape that succeeds carries no
    difficulty.  For a URL that parses, when the scrape that follows the
    metadata fetch succeeds, [extractProblemData] returns a record whose
    difficulty is defined exactly when the fetch succeeded with a record
    whose rating is there and is neither 0 nor NaN; the difficulty is then
    ["*"] followed by that rating. *)
Theorem difficulty_policy NumberToString url m env t r t1 detailedData t2 :
  urlMatch url = Some m ->
  fetchFromCodeforcesAPI NumberToString (parseInt (group m 1)) (toUpperCase (group m 2)) env t
  = (r, t1) ->
  scrapeWithOptimizedPuppeteer url env (after_fetch r t1) = (Normal detailedData, t2) ->
  difficulty detailedData = None
  /\ exists pd,
       extractProblemData NumberToString url env t = (Normal pd, t2)
       /\ forall s,
            difficulty pd = Some s
            <-> exists apiData x,
                  r = Normal apiData /\ rating apiData = Some x
                  /\ truthy x = true /\ s = js "*" ++ NumberToString x.
Proof.
  intros Hm Hf Hs.
  pose proof (scrape_defaults _ _ _ Hs) as [_ Hd]. split; [exact Hd|].
  destruct r as [apiData | e]; cbn [after_fetch] in Hs.
  - eexists. split; [apply (extract_both_succeed _ _ _ _ Hm Hf Hs)|].
    intros s. cbn. rewrite Hd. split.
    + destruct (rating apiData) as [x|] eqn:Hr; [|discriminate].
      destruct (truthy x) eqn:Hx; [|discriminate].
      intros [= <-]. exists apiData, x. repeat split; assumption.
    + intros (a & x & [= <-] & Hr & Hx & ->). rewrite Hr, Hx. reflexivity.
  - exists detailedData. split.
    + rewrite (extract_fetch_throws _ _ _ _ Hm Hf). exact Hs.
    + intros s. rewrite Hd. split; [discriminate|].
      intros (a & x & Habs & _). discriminate.
Qed.

Lemma difficulty_policy_witness :
  exists pd t2,
    extractProblemData decimal_toString Sample.url_4A Sample.env_ok [] = (Normal pd, t2)
    /\ difficulty pd = Some (js "*800").
Proof.
  destruct (@difficulty_policy decimal_toString Sample.url_4A
              [js "/contest/4/problem/A"; js "4"; js "A"] Sample.env_ok []
              (Normal (Sample.record_4A (Some (Fin 800)))) [EFetch apiUrl; EJson]
              (evaluate_callback Sample.watermelon_page)
              (snd (scrapeWithOptimizedPuppeteer Sample.url_4A Sample.env_ok
                      [EFetch apiUrl; EJson])))
    as (_ & pd & He & Hd);
    [vm_compute; reflexivity | vm_compute; reflexivity | vm_compute; reflexivity |].
  exists pd, (snd (scrapeWithOptimizedPuppeteer Sample.url_4A Sample.env_ok
                     [EFetch apiUrl; EJson])).
  split; [exact He|].
  apply Hd. exists (Sample.record_4A (Some (Fin 800))), (Fin 800).
  repeat split; reflexivity.
Defined.

(** C10 as the specification words it fails when the rating carried by
    the record is 0: the fetch succeeded, the record carries a rating,
    and the merged difficulty is undefined. *)
Lemma difficulty_rating_zero_counterexample :
  fst (fetchFromCodeforcesAPI decimal_toString (Fin 4) (js "A") Sample.env_rating0 [])
  = Normal (Sample.record_4A (Some (Fin 0)))
  /\ rating (Sample.record_4A (Some (Fin 0))) <> None
  /\ exists pd t2,
       extractProblemData decimal_toString Sample.url_4A Sample.env_rating0 []
       = (Normal pd, t2)
       /\ difficulty pd = None.
Proof.
  split; [vm_compute; reflexivity|]. split; [discriminate|].
  eexists; eexists. split; [vm_compute; reflexivity | reflexivity].
Qed.

(** C2 at the failing input: the API answers, the first browser session
    times out at navigation.  The [catch] meant for the API failure takes
    the scrape's exception, logs it as an API failure, and runs the
    scrape a second time: two browsers are launched in one call. *)
Lemma scrape_retried_after_scrape_failure :
  let run := extractProblemData decimal_toString Sample.url_4A Sample.env_first_stalls [] in
  launches (snd run) = 2
  /\ List.length (filter (fun e => match e with EFetch _ => true | _ => false end) (snd run)) = 1
  /\ In (warn_api_failed
           (new_Error (js "Failed to scrape problem data: TimeoutError: Navigation timeout of 20000 ms exceeded")))
        (snd run)
  /\ fst run = Normal (evaluate_callback Sample.watermelon_page).
Proof.
  cbv zeta. split; [vm_compute; reflexivity|]. split; [vm_compute; reflexivity|].
  split; [|vm_compute; reflexivity].
  vm_compute. do 11 right. left. reflexivity.
Qed.

(* ===================================================================== *)
(** * Theorems: how often the stages run *)
(* ===================================================================== *)

Lemma launches_app t1 t2 : launches (t1 ++ t2) = launches t1 + launches t2.
Proof. unfold launches. now rewrite filter_app, length_app. Qed.

Lemma fetches_app t1 t2 : fetches (t1 ++ t2) = fetches t1 + fetches t2.
Proof. unfold fetches. now rewrite filter_app, length_app. Qed.

(** One scrape launches one browser and calls [fetch] never. *)
Lemma scrape_counts url env t :
  launches (snd (scrapeWithOptimizedPuppeteer url env t)) = S (launches t)
  /\ fetches (snd (scrapeWithOptimizedPuppeteer url env t)) = fetches t.
Proof.
  unfold_scrape.
  set (b := launches t).
  oracle env b; cbn [fst snd]; rewrite <- ?app_assoc;
    rewrite launches_app, fetches_app; cbn; lia.
Qed.

(** The metadata fetch calls [fetch] once and launches no browser; it
    returns a record exactly when the request and the body go through,
    the status is OK and the linear scan finds the problem. *)
Lemma fetch_counts NumberToString cid idx env t :
  launches (snd (fetchFromCodeforcesAPI NumberToString cid idx env t)) = launches t
  /\ fetches (snd (fetchFromCodeforcesAPI NumberToString cid idx env t)) = S (fetches t).
Proof.
  assert (H1 : forall l, launches l = 0 -> fetches l = 1 ->
            launches (t ++ l) = launches t /\ fetches (t ++ l) = S (fetches t)).
  { intros l Hl Hf. rewrite launches_app, fetches_app, Hl, Hf. lia. }
  unfold fetchFromCodeforcesAPI, try_catch, bind, fetch, Response_json, bind, emit, throw, ret.
  destruct (on_fetch env) as [e | r]; cbn -[launches fetches js str_eqb]; [now apply H1|].
  destruct (body r) as [e | d]; cbn -[launches fetches js str_eqb];
    [rewrite <- app_assoc; now apply H1|].
  destruct (negb (str_eqb (status d) (js "OK"))); cbn -[launches fetches js str_eqb];
    [rewrite <- app_assoc; now apply H1|].
  destruct (result_problems d) as [ps|]; cbn -[launches fetches js str_eqb];
    [|rewrite <- app_assoc; now apply H1].
  destruct (find _ ps); cbn -[launches fetches js str_eqb]; rewrite <- app_assoc; now apply H1.
Qed.

Lemma fetch_succeeds_iff NumberToString cid idx env t p t' :
  fetchFromCodeforcesAPI NumberToString cid idx env t = (Normal p, t')
  <-> exists r d ps,
        on_fetch env = inr r /\ body r = inr d
        /\ str_eqb (status d) (js "OK") = true
        /\ result_problems d = Some ps
        /\ find (fun q => strict_eq (contestId q) cid && str_eqb (index q) idx) ps = Some p
        /\ t' = t ++ [EFetch apiUrl; EJson].
Proof.
  unfold fetchFromCodeforcesAPI, try_catch, bind, fetch, Response_json, bind, emit, throw, ret.
  split.
  - destruct (on_fetch env) as [e | r]; cbn -[js str_eqb]; [discriminate|].
    destruct (body r) as [e | d] eqn:Hb; cbn -[js str_eqb]; [discriminate|].
    destruct (str_eqb (status d) (js "OK")) eqn:Hst; cbn -[js str_eqb]; [|discriminate].
    destruct (result_problems d) as [ps|] eqn:Hr; cbn -[js str_eqb]; [|discriminate].
    destruct (find _ ps) as [q|] eqn:Hf; cbn -[js str_eqb]; [|discriminate].
    intros [= <- <-]. exists r, d, ps. rewrite <- app_assoc.
    split; [reflexivity|]. split; [exact Hb|]. split; [exact Hst|].
    split; [exact Hr|]. split; [exact Hf | reflexivity].
  - intros (r & d & ps & -> & Hb & Hst & Hr & Hf & ->). cbn -[js str_eqb].
    rewrite Hb. cbn -[js str_eqb]. rewrite Hst. cbn -[js str_eqb]. rewrite Hr, Hf.
    cbn -[js str_eqb]. now rewrite <- app_assoc.
Qed.

(** One call of [extractProblemData] calls [fetch] at most once and
    launches at most two browsers; when the metadata fetch throws, it
    launches exactly one. *)
Lemma extract_attempts NumberToString url env t :
  let t' := snd (extractProblemData NumberToString url env t) in
  fetches t' <= S (fetches t)
  /\ launches t' <= 2 + launches t
  /\ (forall m e t1,
        urlMatch url = Some m ->
        fetchFromCodeforcesAPI NumberToString (parseInt (group m 1))
          (toUpperCase (group m 2)) env t = (Throw e, t1) ->
        launches t' = S (launches t)).
Proof.
  cbv zeta. remember (extractProblemData NumberToString url env t) as res eqn:He.
  unfold extractProblemData in He.
  destruct (urlMatch url) as [m|] eqn:Hm;
    [|subst res; cbn [snd throw]; split; [lia | split; [lia | intros; discriminate]]].
  set (cid := parseInt (group m 1)) in *. set (idx := toUpperCase (group m 2)) in *.
  pose proof (fetch_counts NumberToString cid idx env t) as [Hl Hf].
  unfold try_catch in He at 1. unfold bind in He at 1.
  destruct (fetchFromCodeforcesAPI NumberToString cid idx env t) as [[apiData | e] t1] eqn:Hfetch;
    cbn [snd] in Hl, Hf.
  - unfold bind in He at 1.
    pose proof (scrape_counts url env t1) as [Hl1 Hf1].
    destruct (scrapeWithOptimizedPuppeteer url env t1) as [[d | e1] t2] eqn:Hs1;
      cbn [snd] in Hl1, Hf1.
    + subst res. cbn [snd ret]. split; [lia|]. split; [lia|].
      intros m' e' t1' [= <-] Hx. unfold cid, idx in Hfetch.
      rewrite Hfetch in Hx. discriminate.
    + unfold bind, console, emit in He. fold (warn_api_failed e1) in He.
      pose proof (scrape_counts url env (t2 ++ [warn_api_failed e1])) as [Hl2 Hf2].
      rewrite launches_app in Hl2. rewrite fetches_app in Hf2.
      change (launches [warn_api_failed e1]) with 0 in Hl2.
      change (fetches [warn_api_failed e1]) with 0 in Hf2.
      subst res. split; [lia|]. split; [lia|].
      intros m' e' t1' [= <-] Hx. unfold cid, idx in Hfetch.
      rewrite Hfetch in Hx. discriminate.
  - unfold bind, console, emit in He. fold (warn_api_failed e) in He.
    pose proof (scrape_counts url env (t1 ++ [warn_api_failed e])) as [Hl2 Hf2].
    rewrite launches_app in Hl2. rewrite fetches_app in Hf2.
    change (launches [warn_api_failed e]) with 0 in Hl2.
    change (fetches [warn_api_failed e]) with 0 in Hf2.
    subst res. split; [lia|]. split; [lia|]. intros m' e' t1' _ _. lia.
Qed.

(* ===================================================================== *)
(** * Further properties: the metadata client *)
(* ===================================================================== *)

Lemma str_eqb_eq a b : str_eqb a b = true <-> a = b.
Proof.
  revert b. induction a as [|x a IH]; intros [|y b]; cbn; try (split; [discriminate | discriminate]).
  - split; reflexivity.
  - unfold cu_eqb. rewrite andb_true_iff, N.eqb_eq, IH. split.
    + intros [-> ->]. reflexivity.
    + intros [= -> ->]. split; reflexivity.
Qed.

Lemma find_first {A} (f : A -> bool) l x :
  find f l = Some x ->
  exists l1 l2, l = l1 ++ x :: l2 /\ f x = true /\ Forall (fun y => f y = false) l1.
Proof.
  induction l as [|y l IH]; cbn; [discriminate|].
  destruct (f y) eqn:Hy.
  - intros [= <-]. exists [], l. repeat split; [exact Hy | constructor].
  - intros H. destruct (IH H) as (l1 & l2 & -> & Hx & Hall).
    exists (y :: l1), l2. repeat split; [exact Hx | now constructor].
Qed.

(** X1.  Whatever goes wrong in [fetchFromCodeforcesAPI] (the request,
    the body, a status other than OK, a document without a problem list,
    a problem that is not listed), the caller gets an [Error] whose
    message is ["Failed to fetch from Codeforces API: "] followed by the
    cause as it prints; the cause itself never escapes. *)
Theorem fetch_failure_wrapped NumberToString cid idx env t e t' :
  fetchFromCodeforcesAPI NumberToString cid idx env t = (Throw e, t') ->
  exists cause,
    e = api_failure cause
    /\ (on_fetch env = inl cause
        \/ (exists r, on_fetch env = inr r /\ body r = inl cause)
        \/ (exists r d, on_fetch env = inr r /\ body r = inr d
                        /\ status d <> js "OK"
                        /\ cause = new_Error (js "API Error: " ++ show_optional (comment d)))
        \/ (exists r d, on_fetch env = inr r /\ body r = inr d
                        /\ status d = js "OK" /\ result_problems d = None
                        /\ err_name cause = js "TypeError")
        \/ (exists r d ps, on_fetch env = inr r /\ body r = inr d
                           /\ status d = js "OK" /\ result_problems d = Some ps
                           /\ find (is_problem cid idx) ps = None
                           /\ cause = new_Error (js "Problem " ++ NumberToString cid ++ js "/"
                                                 ++ idx ++ js " not found in API"))).
Proof.
  unfold fetchFromCodeforcesAPI, try_catch, bind, fetch, Response_json, bind, emit, throw, ret.
  fold (is_problem cid idx).
  destruct (on_fetch env) as [c | r]; cbn -[js str_eqb].
  - intros [= <- <-]. exists c. split; [reflexivity | now left].
  - destruct (body r) as [c | d] eqn:Hb; cbn -[js str_eqb].
    + intros [= <- <-]. exists c. split; [reflexivity|]. right; left. now exists r.
    + destruct (str_eqb (status d) (js "OK")) eqn:Hst; cbn -[js str_eqb].
      * apply str_eqb_eq in Hst.
        destruct (result_problems d) as [ps|] eqn:Hr; cbn -[js str_eqb].
        -- destruct (find (is_problem cid idx) ps) as [q|] eqn:Hf; cbn -[js str_eqb];
             [discriminate|].
           intros [= <- <-]. eexists. split; [reflexivity|].
           do 4 right. exists r, d, ps. repeat split; assumption.
        -- intros [= <- <-]. eexists. split; [reflexivity|].
           do 3 right; left. exists r, d. repeat split; assumption.
      * intros [= <- <-]. eexists. split; [reflexivity|].
        do 2 right; left. exists r, d. repeat split; try assumption.
        intros Heq. apply str_eqb_eq in Heq. congruence.
Qed.

Lemma fetch_failure_wrapped_witness :
  exists cause,
    new_Error (js "Failed to fetch from Codeforces API: TypeError: fetch failed")
    = api_failure cause.
Proof.
  destruct (@fetch_failure_wrapped decimal_toString (Fin 4) (js "A") Sample.env_api_down []
              (new_Error (js "Failed to fetch from Codeforces API: TypeError: fetch failed"))
              [EFetch apiUrl])
    as (cause & He & _); [vm_compute; reflexivity|].
  exists cause. exact He.
Defined.

(** X2.  When [fetchFromCodeforcesAPI] returns a record, the request and
    the body went through, the status is OK, and the record is the first
    one of the list, in the order of the document, whose contest number
    and index are both the ones asked for. *)
Theorem fetch_returns_first_match NumberToString cid idx env t p t' :
  fetchFromCodeforcesAPI NumberToString cid idx env t = (Normal p, t') ->
  strict_eq (contestId p) cid = true /\ index p = idx
  /\ t' = t ++ [EFetch apiUrl; EJson]
  /\ exists r d before after,
       on_fetch env = inr r /\ body r = inr d /\ status d = js "OK"
       /\ result_problems d = Some (before ++ p :: after)
       /\ Forall (fun q => is_problem cid idx q = false) before.
Proof.
  intros H. apply fetch_succeeds_iff in H as (r & d & ps & Hr & Hb & Hst & Hps & Hf & Ht).
  fold (is_problem cid idx) in Hf.
  apply find_first in Hf as (l1 & l2 & -> & Hp & Hall).
  unfold is_problem in Hp. apply andb_true_iff in Hp as [Hc Hi].
  apply str_eqb_eq in Hi, Hst.
  split; [exact Hc|]. split; [exact Hi|]. split; [exact Ht|].
  exists r, d, l1, l2. repeat split; assumption.
Qed.

Lemma fetch_returns_first_match_witness :
  index (Sample.record_4A (Some (Fin 800))) = js "A"
  /\ strict_eq (contestId (Sample.record_4A (Some (Fin 800)))) (Fin 4) = true.
Proof.
  destruct (@fetch_returns_first_match decimal_toString (Fin 4) (js "A") Sample.env_ok []
              (Sample.record_4A (Some (Fin 800))) [EFetch apiUrl; EJson])
    as (Hc & Hi & _); [vm_compute; reflexivity|].
  split; [exact Hi | exact Hc].
Defined.

(* ===================================================================== *)
(** * Further properties: the rendered-page scrape *)
(* ===================================================================== *)

(** X3.  The readiness wait is not fatal: when the launch, the page set-up,
    the navigation, the evaluation and the close go through, the scrape
    returns what the callback computes on the page, whether or not
    [page.waitForFunction] timed out. *)
Theorem readiness_timeout_not_fatal url env t document :
  let s := sessions env (launches t) in
  on_launch s = None -> on_newPage s = None ->
  on_setRequestInterception s = None -> on_setViewport s = None ->
  on_setUserAgent s = None -> on_goto s = None ->
  on_evaluate s = inr document -> on_close s = None ->
  fst (scrapeWithOptimizedPuppeteer url env t) = Normal (evaluate_callback document).
Proof.
  cbv zeta. intros H1 H2 H3 H4 H5 H6 H7 H8. unfold_scrape.
  rewrite H1. cbn. rewrite H2. cbn. rewrite H3. cbn. rewrite H4. cbn. rewrite H5. cbn.
  rewrite H6. cbn.
  destruct (on_waitForFunction (sessions env (launches t))); cbn;
    rewrite H7; cbn; rewrite H8; reflexivity.
Qed.

Lemma readiness_timeout_not_fatal_witness :
  on_waitForFunction (sessions Sample.env_slow_ready 0) = Some Sample.TimeoutError
  /\ fst (scrapeWithOptimizedPuppeteer Sample.url_4A Sample.env_slow_ready [])
     = Normal (evaluate_callback Sample.watermelon_page).
Proof.
  split; [reflexivity|].
  apply (@readiness_timeout_not_fatal Sample.url_4A Sample.env_slow_ready []
           Sample.watermelon_page); reflexivity.
Defined.

(** The exceptions of one scrape. *)
Lemma scrape_throw_inv url env t e t' :
  scrapeWithOptimizedPuppeteer url env t = (Throw e, t') ->
  let s := sessions env (launches t) in
  on_launch s = Some e
  \/ (on_launch s = None /\ on_close s = Some e)
  \/ (on_launch s = None /\ on_close s = None
      /\ exists cause,
           e = scrape_failure cause
           /\ In (EConsole (js "error") (js "Error during scraping:") (Some cause)) t').
Proof.
  cbv zeta. unfold_scrape.
  set (b := launches t).
  oracle env b; cbn -[js]; intros H; try discriminate; injection H as <- <-;
    try (left; reflexivity);
    try (right; left; split; reflexivity);
    (right; right; split; [reflexivity|]; split; [reflexivity|];
     eexists; split; [reflexivity|];
     rewrite ?in_app_iff; cbn -[js]; tauto).
Qed.

(** X4.  An exception of the scrape is one of three: the launch error as
    it is (no browser exists), the error of [browser.close()], or an
    [Error] whose message is ["Failed to scrape problem data: "] followed
    by the cause as it prints, the cause having been logged with
    [console.error]. *)
Theorem scrape_failure_shape url env t e t' :
  scrapeWithOptimizedPuppeteer url env t = (Throw e, t') ->
  let s := sessions env (launches t) in
  on_launch s = Some e
  \/ (on_launch s = None /\ on_close s = Some e)
  \/ (on_launch s = None /\ on_close s = None
      /\ exists cause,
           e = scrape_failure cause
           /\ In (EConsole (js "error") (js "Error during scraping:") (Some cause)) t').
Proof. exact (@scrape_throw_inv url env t e t'). Qed.

Lemma scrape_failure_shape_witness :
  exists cause,
    new_Error (js "Failed to scrape problem data: TimeoutError: Navigation timeout of 20000 ms exceeded")
    = scrape_failure cause.
Proof.
  destruct (@scrape_failure_shape Sample.url_4A Sample.env_first_stalls []
              (new_Error (js "Failed to scrape problem data: TimeoutError: Navigation timeout of 20000 ms exceeded"))
              (snd (scrapeWithOptimizedPuppeteer Sample.url_4A Sample.env_first_stalls [])))
    as [H | [[_ H] | (_ & _ & cause & He & _)]];
    [vm_compute; reflexivity | discriminate | discriminate |].
  exists cause. exact He.
Defined.

(** X5.  The [finally] block has the last word: when the browser was
    launched and [browser.close()] rejects, the scrape throws the error
    of the close, even if the problem data had been extracted. *)
Theorem close_failure_overrides url env t e :
  let s := sessions env (launches t) in
  on_launch s = None -> on_close s = Some e ->
  fst (scrapeWithOptimizedPuppeteer url env t) = Throw e.
Proof.
  cbv zeta. intros H1 H2. unfold_scrape. rewrite H1. cbn -[js].
  set (b := launches t) in *.
  oracle env b; cbn -[js]; try discriminate;
    repeat match goal with
    | H : on_close _ = _ |- _ => rewrite H in *
    end; cbn -[js]; congruence.
Qed.

Lemma close_failure_overrides_witness :
  on_evaluate (sessions Sample.env_close_fails 0) = inr Sample.watermelon_page
  /\ fst (scrapeWithOptimizedPuppeteer Sample.url_4A Sample.env_close_fails [])
     = Throw {| err_name := js "Error"; err_message := js "Protocol error" |}.
Proof.
  split; [reflexivity|].
  apply (@close_failure_overrides Sample.url_4A Sample.env_close_fails []); reflexivity.
Defined.

(* ===================================================================== *)
(** * Further properties: the orchestrator *)
(* ===================================================================== *)

(** The two ways [extractProblemData] returns: the merged record, or the
    scraped record of the fallback. *)
Lemma extract_normal_inv NumberToString url env t pd t' :
  extractProblemData NumberToString url env t = (Normal pd, t') ->
  exists document,
    pd = evaluate_callback document
    \/ exists m apiData,
         urlMatch url = Some m
         /\ pd = combine_data NumberToString (parseInt (group m 1)) apiData
                   (evaluate_callback document).
Proof.
  unfold extractProblemData.
  destruct (urlMatch url) as [m|] eqn:Hm; [|discriminate].
  unfold try_catch at 1. unfold bind at 1.
  destruct (fetchFromCodeforcesAPI _ _ _ env t) as [[apiData | e] t1].
  - unfold bind at 1.
    destruct (scrapeWithOptimizedPuppeteer url env t1) as [[d | e1] t2] eqn:Hs.
    + intros [= <- <-]. apply scrape_normal in Hs as (document & _ & ->).
      exists document. right. now exists m, apiData.
    + unfold bind, console, emit. intros Hs2.
      apply scrape_normal in Hs2 as (document & _ & ->). exists document. now left.
  - unfold bind, console, emit. intros Hs2.
    apply scrape_normal in Hs2 as (document & _ & ->). exists document. now left.
Qed.

Lemma or_default_nonempty s d : d <> [] -> or_default s d <> [].
Proof. intros Hd. destruct s; cbn; [exact Hd | discriminate]. Qed.

Lemma scraped_sampleTests_bounds document :
  Forall (fun tc => input tc <> [] /\ output tc <> []
                    /\ List.length (input tc) < 200 /\ List.length (output tc) < 200)
         (scraped_sampleTests document).
Proof.
  destruct (input_families_spec document (selectors := inputSelectors))
    as (inputSel & outputSel & _ & _ & Heq); [discriminate|].
  unfold scraped_sampleTests. rewrite Heq, pair_up_spec.
  apply Forall_forall. intros tc Htc. apply in_map_iff in Htc as (i & <- & Hin).
  apply filter_In in Hin as [_ Hacc]. unfold accepted_at in Hacc. unfold test_at.
  destruct (nth_error _ i) as [a|]; [|discriminate].
  destruct (nth_error _ i) as [b|]; [|discriminate].
  exact (accepted_bounds _ _ Hacc).
Qed.

(** X6.  Every record [extractProblemData] returns is fully filled: the
    title, the two limits, the description, the two formats and the
    source are never empty, and every sample test has two non-empty
    sides shorter than 200 code units. *)
Theorem returned_record_filled NumberToString url env t pd t' :
  extractProblemData NumberToString url env t = (Normal pd, t') ->
  title pd <> [] /\ timeLimit pd <> [] /\ memoryLimit pd <> []
  /\ description pd <> [] /\ inputFormat pd <> [] /\ outputFormat pd <> []
  /\ source pd <> []
  /\ Forall (fun tc => input tc <> [] /\ output tc <> []
                       /\ List.length (input tc) < 200 /\ List.length (output tc) < 200)
            (sampleTests pd).
Proof.
  intros H. apply extract_normal_inv in H as (document & [-> | (m & apiData & _ & ->)]).
  - cbn [evaluate_callback title timeLimit memoryLimit description inputFormat outputFormat
           source sampleTests].
    repeat split; try (apply or_default_nonempty; discriminate); try discriminate.
    apply scraped_sampleTests_bounds.
  - cbn [combine_data evaluate_callback title timeLimit memoryLimit description inputFormat
           outputFormat source sampleTests].
    repeat split; try (apply or_default_nonempty; discriminate); try discriminate.
    + apply or_default_nonempty, or_default_nonempty. discriminate.
    + apply scraped_sampleTests_bounds.
Qed.

Lemma returned_record_filled_witness :
  title (evaluate_callback Sample.watermelon_page) <> []
  /\ source (evaluate_callback Sample.watermelon_page) <> [].
Proof.
  destruct (@returned_record_filled decimal_toString Sample.url_4A Sample.env_api_down []
              (evaluate_callback Sample.watermelon_page)
              (snd (extractProblemData decimal_toString Sample.url_4A Sample.env_api_down [])))
    as (Ht & _ & _ & _ & _ & _ & Hs & _); [vm_compute; reflexivity|].
  split; [exact Ht | exact Hs].
Defined.

(** X7.  An exception of [extractProblemData] is the invalid-URL error or
    an exception of the scrape (the launch error, the close error, or
    the rewrapped ["Failed to scrape problem data: ..."]); the error of
    the metadata fetch never reaches the caller. *)
Theorem extract_failure_shape NumberToString url env t e t' :
  extractProblemData NumberToString url env t = (Throw e, t') ->
  (urlMatch url = None /\ t' = t
   /\ e = new_Error (js "Invalid Codeforces problem URL format"))
  \/ (exists b, on_launch (sessions env b) = Some e)
  \/ (exists b, on_close (sessions env b) = Some e)
  \/ (exists cause, e = scrape_failure cause).
Proof.
  assert (Hscrape : forall t0 t1,
            scrapeWithOptimizedPuppeteer url env t0 = (Throw e, t1) ->
            (exists b, on_launch (sessions env b) = Some e)
            \/ (exists b, on_close (sessions env b) = Some e)
            \/ (exists cause, e = scrape_failure cause)).
  { intros t0 t1 H. apply scrape_throw_inv in H. cbv zeta in H.
    destruct H as [H | [[_ H] | (_ & _ & cause & He & _)]].
    - left. eexists; exact H.
    - right; left. eexists; exact H.
    - right; right. now exists cause. }
  unfold extractProblemData.
  destruct (urlMatch url) as [m|] eqn:Hm.
  - intros H. right. revert H.
    unfold try_catch at 1. unfold bind at 1.
    destruct (fetchFromCodeforcesAPI _ _ _ env t) as [[apiData | e0] t1].
    + unfold bind at 1.
      destruct (scrapeWithOptimizedPuppeteer url env t1) as [[d | e1] t2] eqn:Hs;
        [discriminate|].
      unfold bind, console, emit. apply Hscrape.
    + unfold bind, console, emit. apply Hscrape.
  - intros [= <- <-]. left. repeat split.
Qed.

Lemma extract_failure_shape_witness :
  let e := {| err_name := js "Error"; err_message := js "Protocol error" |} in
  fst (extractProblemData decimal_toString Sample.url_4A Sample.env_close_fails []) = Throw e
  /\ ((urlMatch Sample.url_4A = None
       /\ snd (extractProblemData decimal_toString Sample.url_4A Sample.env_close_fails []) = []
       /\ e = new_Error (js "Invalid Codeforces problem URL format"))
      \/ (exists b, on_launch (sessions Sample.env_close_fails b) = Some e)
      \/ (exists b, on_close (sessions Sample.env_close_fails b) = Some e)
      \/ (exists cause, e = scrape_failure cause)).
Proof.
  cbv zeta. split; [vm_compute; reflexivity|].
  apply (@extract_failure_shape decimal_toString Sample.url_4A Sample.env_close_fails []
           {| err_name := js "Error"; err_message := js "Protocol error" |}
           (snd (extractProblemData decimal_toString Sample.url_4A Sample.env_close_fails []))).
  vm_compute; reflexivity.
Defined.

(* ===================================================================== *)
(** * Further properties: the choice of the sample-test families *)
(* ===================================================================== *)

Lemma output_families_first document inputs o_pre outputSel o_post :
  (forall o, In o o_pre -> pair_up inputs (querySelectorAll document o) [] = []) ->
  pair_up inputs (querySelectorAll document outputSel) [] <> [] ->
  output_families document inputs (o_pre ++ outputSel :: o_post) []
  = pair_up inputs (querySelectorAll document outputSel) [].
Proof.
  intros Hpre Hne. induction o_pre as [|o o_pre IH]; cbn [app output_families].
  - destruct (0 <? List.length (querySelectorAll document outputSel)) eqn:Hlen.
    + destruct (pair_up inputs (querySelectorAll document outputSel) []); [contradiction|].
      reflexivity.
    + apply length_pos_false in Hlen. exfalso. apply Hne. rewrite Hlen.
      unfold pair_up. cbn. now rewrite Nat.min_0_r.
  - destruct (0 <? List.length (querySelectorAll document o));
      [rewrite (Hpre o (or_introl eq_refl)); cbn [List.length Nat.ltb Nat.leb]|];
      apply IH; intros o' Ho'; apply Hpre; now right.
Qed.

Lemma output_families_none document inputs selectors :
  (forall o, In o selectors -> pair_up inputs (querySelectorAll document o) [] = []) ->
  output_families document inputs selectors [] = [].
Proof.
  induction selectors as [|o rest IH]; intros H; cbn [output_families]; [reflexivity|].
  destruct (0 <? List.length (querySelectorAll document o));
    [rewrite (H o (or_introl eq_refl)); cbn [List.length Nat.ltb Nat.leb]|];
    apply IH; intros o' Ho'; apply H; now right.
Qed.

Lemma pair_up_no_inputs outputs : pair_up [] outputs [] = [].
Proof. reflexivity. Qed.

(** X8.  The pairing is greedy: in the order input family first, output
    family second, the first pair of families that yields at least one
    accepted test gives all the sample tests, whatever later families
    would have given. *)
Theorem sample_tests_first_family document i_pre inputSel i_post o_pre outputSel o_post :
  inputSelectors = i_pre ++ inputSel :: i_post ->
  outputSelectors = o_pre ++ outputSel :: o_post ->
  (forall i o, In i i_pre -> In o outputSelectors -> family_tests document i o = []) ->
  (forall o, In o o_pre -> family_tests document inputSel o = []) ->
  family_tests document inputSel outputSel <> [] ->
  scraped_sampleTests document = family_tests document inputSel outputSel.
Proof.
  unfold family_tests, scraped_sampleTests. intros -> Hout Hi Ho Hne.
  induction i_pre as [|i i_pre IH]; cbn [app input_families].
  - destruct (0 <? List.length (querySelectorAll document inputSel)) eqn:Hlen.
    + rewrite Hout, (@output_families_first document _ o_pre outputSel o_post Ho Hne).
      destruct (pair_up _ _ []); [contradiction | reflexivity].
    + apply length_pos_false in Hlen. rewrite Hlen in Hne. now rewrite pair_up_no_inputs in Hne.
  - assert (Hnone : output_families document (querySelectorAll document i) outputSelectors [] = []).
    { apply output_families_none. intros o Hin. apply Hi; [now left | exact Hin]. }
    destruct (0 <? List.length (querySelectorAll document i));
      [rewrite Hnone; cbn [List.length Nat.ltb Nat.leb]|];
      apply IH; intros i' o Hi' Ho'; apply Hi; try (now right); exact Ho'.
Qed.

Lemma sample_tests_first_family_witness :
  scraped_sampleTests Sample.bare_samples_page
  = [ {| input := js "3"; output := js "9"; explanation := None |};
      {| input := js "5"; output := js "25"; explanation := None |} ].
Proof.
  rewrite (@sample_tests_first_family Sample.bare_samples_page
             [js ".input pre"; js ".sample-input pre"] (js ".input") [js ".sample-input"]
             [js ".output pre"; js ".sample-output pre"] (js ".output") [js ".sample-output"]).
  - vm_compute. reflexivity.
  - reflexivity.
  - reflexivity.
  - intros i o [<- | [<- | []]] Ho; cbn in Ho;
      repeat (destruct Ho as [<- | Ho]; [vm_compute; reflexivity|]); destruct Ho.
  - intros o [<- | [<- | []]]; vm_compute; reflexivity.
  - vm_compute. discriminate.
Defined.

(* ===================================================================== *)
(** * Further properties: the contest number *)
(* ===================================================================== *)

Lemma round53_nonneg z : (0 <= z)%Z -> (0 <= round53 z)%Z.
Proof.
  intros Hz. unfold round53. destruct (Z.ltb_spec z (2 ^ 53)); [exact Hz|].
  cbv zeta. rewrite Z.shiftl_nonneg.
  assert (Hq : (0 <= Z.shiftr z (Z.log2 z - 52))%Z) by (now apply Z.shiftr_nonneg).
  destruct (Z.ltb _ _); [lia|]. destruct (_ && _); lia.
Qed.

(** X9.  The contest number of an accepted URL is never NaN and never
    negative: it is a non-negative integer-valued double, or positive
    infinity when the digits run past the range of a double. *)
Theorem contest_id_range url m :
  urlMatch url = Some m ->
  (exists z, parseInt (group m 1) = Fin z /\ (0 <= z)%Z)
  \/ parseInt (group m 1) = PosInf.
Proof.
  intros H.
  apply urlMatch_groups in H
    as (pre & w1 & ds & w2 & l & d & rest & _ & (_ & Hne & Hds & _) & _ & ->).
  cbn [group nth]. rewrite (parseInt_digits Hne Hds). unfold to_number.
  pose proof (decimal_value_nonneg ds) as Hv.
  destruct (Z.ltb_spec (decimal_value ds) 0); [lia|].
  destruct (Z.ltb _ (2 ^ 1024)); [|now right].
  left. eexists. split; [reflexivity|]. now apply round53_nonneg.
Qed.

Lemma contest_id_range_witness :
  urlMatch (js "https://codeforces.com/problemset/problem/007/b2")
  = Some [js "/problemset/problem/007/b2"; js "007"; js "b2"]
  /\ ((exists z, parseInt (js "007") = Fin z /\ (0 <= z)%Z) \/ parseInt (js "007") = PosInf).
Proof.
  split; [vm_compute; reflexivity|].
  apply (@contest_id_range (js "https://codeforces.com/problemset/problem/007/b2")
           [js "/problemset/problem/007/b2"; js "007"; js "b2"]).
  vm_compute. reflexivity.
Defined.

(* ===================================================================== *)
(** * Further properties: text cleaning *)
(* ===================================================================== *)

Lemma star_plain p s pos :
  star p (fun s1 pos1 => run [] s1 pos1 [] []) s pos = Some (pos + span_len p s, []).
Proof.
  revert pos. induction s as [|c s IH]; intros pos; cbn [star span_len].
  - cbn. now rewrite Nat.add_0_r.
  - destruct (p c).
    + rewrite IH. now rewrite Nat.add_succ_r.
    + cbn. now rewrite Nat.add_0_r.
Qed.

Lemma run_plus p s pos :
  run [Atom p Plus] s pos [] []
  = match s with
    | c :: s' => if p c then Some (S pos + span_len p s', []) else None
    | [] => None
    end.
Proof.
  cbn [run]. destruct s as [|c s]; [reflexivity|].
  destruct (p c); [|reflexivity]. apply star_plain.
Qed.

Lemma search_plus p s pos :
  search [Atom p Plus] s pos
  = match s with
    | c :: s' =>
        if p c then Some {| m_start := pos; m_end := S pos + span_len p s'; m_caps := [] |}
        else search [Atom p Plus] s' (S pos)
    | [] => None
    end.
Proof.
  destruct s as [|c s]; cbn [search]; rewrite run_plus; [reflexivity|].
  destruct (p c); reflexivity.
Qed.

Lemma span_len_le p s : span_len p s <= List.length s.
Proof. induction s as [|c s IH]; cbn; [lia|]. destruct (p c); lia. Qed.

(** Skipping a leading code unit outside the class shifts the matches. *)
Lemma matches_from_skip p fuel c s pos :
  p c = false ->
  matches_from fuel [Atom p Plus] (c :: s) pos
  = matches_from fuel [Atom p Plus] s (S pos).
Proof.
  intros Hc. destruct fuel as [|fuel]; [reflexivity|]. cbn [matches_from].
  rewrite (search_plus p (c :: s)), Hc.
  destruct (search [Atom p Plus] s (S pos)) as [m|] eqn:Hs; [|reflexivity].
  apply search_bounds in Hs. cbv zeta. f_equal.
  set (next := if Nat.eqb (m_end m) (m_start m) then S (m_end m) else m_end m).
  assert (Hn : S pos <= next) by (unfold next; destruct (Nat.eqb _ _); lia).
  replace (next - pos) with (S (next - S pos)) by lia. cbn [skipn List.length].
  destruct (Nat.ltb_spec (S (List.length s)) (S (next - S pos))),
    (Nat.ltb_spec (List.length s) (next - S pos)); try lia; reflexivity.
Qed.

Lemma splice_skip c s pos ms by_ :
  Forall (fun m => S pos <= fst m /\ S pos <= snd m) ms ->
  splice (c :: s) pos ms by_ = c :: splice s (S pos) ms by_.
Proof.
  destruct ms as [|[b e] ms]; intros H; cbn [splice]; [reflexivity|].
  apply Forall_inv in H. cbn in H.
  replace (b - pos) with (S (b - S pos)) by lia.
  replace (e - pos) with (S (e - S pos)) by lia. reflexivity.
Qed.

Lemma matches_from_above lo fuel re s pos :
  lo <= pos ->
  Forall (fun m => lo <= fst m /\ lo <= snd m) (matches_from fuel re s pos).
Proof.
  revert s pos. induction fuel as [|fuel IH]; intros s pos Hlo; cbn [matches_from];
    [constructor|].
  destruct (search re s pos) as [m|] eqn:Hs; [|constructor].
  apply search_bounds in Hs. constructor; [cbn; lia|].
  cbv zeta. destruct (Nat.ltb _ _); [constructor|]. apply IH.
  destruct (Nat.eqb _ _); lia.
Qed.

Lemma matches_from_bounds fuel re s pos :
  Forall (fun m => pos <= fst m /\ pos <= snd m) (matches_from fuel re s pos).
Proof. apply matches_from_above. lia. Qed.

Lemma collapse_inrun p s :
  collapse p true s = collapse p false (skipn (span_len p s) s).
Proof.
  induction s as [|c s IH]; cbn [collapse span_len]; [reflexivity|].
  destruct (p c) eqn:Hc; [exact IH|]. cbn [skipn collapse]. now rewrite Hc.
Qed.

(** [s.replace(/p+/g, ' ')] is the one-pass collapse of the runs. *)
Lemma replace_g_plus p s :
  replace_g s [Atom p Plus] (js " ") = collapse p false s.
Proof.
  unfold replace_g, matches_g.
  assert (H : forall fuel s pos, List.length s < fuel ->
            splice s pos (matches_from fuel [Atom p Plus] s pos) (js " ")
            = collapse p false s).
  { induction fuel as [|fuel IH]; intros u pos Hlen; [lia|].
    induction u as [|c u IHu] in pos, Hlen |- *.
    - reflexivity.
    - destruct (p c) eqn:Hc.
      + cbn [matches_from]. rewrite search_plus, Hc. cbv zeta. cbn [m_start m_end].
        pose proof (span_len_le p u) as Hsp.
        replace (Nat.eqb (S pos + span_len p u) pos) with false
          by (symmetry; apply Nat.eqb_neq; lia).
        replace (S pos + span_len p u - pos) with (S (span_len p u)) by lia.
        cbn [List.length]. destruct (Nat.ltb_spec (S (List.length u)) (S (span_len p u))); [lia|].
        cbn [splice skipn]. rewrite Nat.sub_diag. cbn [firstn app].
        replace (S pos + span_len p u - pos) with (S (span_len p u)) by lia.
        cbn [skipn collapse]. rewrite Hc, collapse_inrun.
        change (js " ") with [32%N]. cbn [app]. f_equal.
        apply IH. rewrite length_skipn. cbn [List.length] in Hlen. lia.
      + rewrite (@matches_from_skip p (S fuel) c u pos Hc).
        rewrite splice_skip by (apply matches_from_above; lia).
        cbn [collapse]. rewrite Hc. f_equal.
        apply IHu. cbn [List.length] in Hlen. lia. }
  apply H. lia.
Qed.

Lemma space_32 : is_space 32%N = true.
Proof. reflexivity. Qed.

Lemma collapse_spaces b s :
  Forall (fun c => is_space c = true -> c = 32%N) (collapse is_space b s).
Proof.
  revert b. induction s as [|c s IH]; intros b; cbn [collapse]; [constructor|].
  destruct (is_space c) eqn:Hc.
  - destruct b; [apply IH|]. constructor; [reflexivity | apply IH].
  - constructor; [congruence | apply IH].
Qed.

Lemma collapse_starts s : starts_nonspace (collapse is_space true s) = true.
Proof.
  induction s as [|c s IH]; cbn [collapse]; [reflexivity|].
  destruct (is_space c) eqn:Hc; [exact IH|]. cbn. now rewrite Hc.
Qed.

Lemma single_spaced_cons a s :
  single_spaced (a :: s)
  = (negb (is_space a && negb (starts_nonspace s)) && single_spaced s
     || match s with [] => true | _ => false end)%bool.
Proof.
  destruct s as [|b s]; cbn [single_spaced starts_nonspace].
  - now rewrite orb_true_r.
  - rewrite negb_involutive, orb_false_r. reflexivity.
Qed.

Lemma collapse_single_spaced b s : single_spaced (collapse is_space b s) = true.
Proof.
  revert b. induction s as [|c s IH]; intros b; cbn [collapse]; [reflexivity|].
  destruct (is_space c) eqn:Hc.
  - destruct b; [apply IH|]. rewrite single_spaced_cons, collapse_starts, IH. reflexivity.
  - rewrite single_spaced_cons, Hc, IH. reflexivity.
Qed.

Lemma collapse_filter b s :
  filter nonspace (collapse is_space b s) = filter nonspace s.
Proof.
  revert b. induction s as [|c s IH]; intros b; cbn [collapse filter]; [reflexivity|].
  unfold nonspace at 2. destruct (is_space c) eqn:Hc; cbn [negb].
  - destruct b; [apply IH|]. cbn [filter]. unfold nonspace at 1. rewrite space_32. apply IH.
  - cbn [filter]. unfold nonspace at 1. rewrite Hc. cbn [negb]. now rewrite IH.
Qed.

Lemma collapse_none p b s :
  forallb (fun c => negb (p c)) s = true -> collapse p b s = s.
Proof.
  revert b. induction s as [|c s IH]; intros b; cbn [collapse forallb]; [reflexivity|].
  rewrite andb_true_iff, negb_true_iff. intros [-> Hs]. now rewrite IH.
Qed.

Lemma collapse_no_newline b s :
  forallb (fun c => negb (cu_eqb 10%N c)) (collapse is_space b s) = true.
Proof.
  apply forallb_forall. intros c Hc.
  pose proof (collapse_spaces b s) as H. rewrite Forall_forall in H. specialize (H c Hc).
  unfold cu_eqb. destruct (N.eqb_spec 10 c) as [<- | Hne]; [|reflexivity].
  specialize (H eq_refl). discriminate.
Qed.

(** The second replacement of [cleanText] finds nothing to replace. *)
Lemma cleanText_collapse t : cleanText t = trim (collapse is_space false t).
Proof.
  unfold cleanText. rewrite (replace_g_plus is_space), (replace_g_plus (cu_eqb 10%N)).
  now rewrite (collapse_none _ _ _ (collapse_no_newline false t)).
Qed.

Lemma trimStart_spec s :
  exists pre, s = pre ++ trimStart s /\ forallb is_space pre = true
              /\ starts_nonspace (trimStart s) = true.
Proof.
  induction s as [|c s (pre & Hs & Hp & Hn)]; cbn [trimStart].
  - exists []. repeat split.
  - destruct (is_space c) eqn:Hc.
    + exists (c :: pre). cbn. rewrite Hc, Hp. repeat split; [now f_equal | exact Hn].
    + exists []. cbn. rewrite Hc. repeat split.
Qed.

Lemma trimEnd_spec s :
  exists post, s = trimEnd s ++ post /\ forallb is_space post = true
               /\ starts_nonspace (rev (trimEnd s)) = true.
Proof.
  unfold trimEnd. destruct (trimStart_spec (rev s)) as (pre & Hs & Hp & Hn).
  exists (rev pre). rewrite rev_involutive. split; [|split; [|exact Hn]].
  - rewrite <- rev_app_distr, <- Hs. now rewrite rev_involutive.
  - rewrite forallb_forall in *. intros x Hx. apply Hp. now apply in_rev.
Qed.

Lemma trim_spec s :
  exists pre post,
    s = pre ++ trim s ++ post
    /\ forallb is_space pre = true /\ forallb is_space post = true
    /\ starts_nonspace (trim s) = true /\ starts_nonspace (rev (trim s)) = true.
Proof.
  unfold trim. destruct (trimStart_spec s) as (pre & Hs & Hp & Hn).
  destruct (trimEnd_spec (trimStart s)) as (post & Hs' & Hp' & Hn').
  exists pre, post. split; [now rewrite <- Hs'|]. split; [exact Hp|]. split; [exact Hp'|].
  split; [|exact Hn'].
  destruct (trimEnd (trimStart s)) as [|c u] eqn:Hu; [reflexivity|].
  rewrite Hs' in Hn. exact Hn.
Qed.

Lemma single_spaced_app a b :
  single_spaced (a ++ b) = true -> single_spaced a = true /\ single_spaced b = true.
Proof.
  induction a as [|x a IH]; cbn [app]; [now split|].
  destruct a as [|y a].
  - cbn [app single_spaced]. destruct b as [|z b]; [now split|].
    rewrite andb_true_iff. intros [_ H]. now split.
  - cbn [app single_spaced] in *. rewrite !andb_true_iff. intros [Hxy H].
    destruct (IH H) as [Ha Hb]. repeat split; assumption.
Qed.

Lemma filter_spaces s : forallb is_space s = true -> filter nonspace s = [].
Proof.
  induction s as [|c s IH]; cbn [forallb filter]; [reflexivity|].
  rewrite andb_true_iff. intros [Hc Hs]. unfold nonspace at 1. rewrite Hc. cbn. now apply IH.
Qed.

Lemma trim_filter s : filter nonspace (trim s) = filter nonspace s.
Proof.
  destruct (trim_spec s) as (pre & post & Hs & Hp & Hq & _).
  rewrite Hs at 2. rewrite !filter_app, (filter_spaces _ Hp), (filter_spaces _ Hq).
  now rewrite app_nil_r.
Qed.

(** The normal form of a cleaned text. *)
Lemma cleanText_normal t :
  Forall (fun c => is_space c = true -> c = 32%N) (cleanText t)
  /\ single_spaced (cleanText t) = true
  /\ starts_nonspace (cleanText t) = true
  /\ starts_nonspace (rev (cleanText t)) = true
  /\ filter nonspace (cleanText t) = filter nonspace t.
Proof.
  rewrite cleanText_collapse.
  destruct (trim_spec (collapse is_space false t)) as (pre & post & Hs & _ & _ & Hn & Hr).
  pose proof (collapse_spaces false t) as Hsp.
  pose proof (collapse_single_spaced false t) as Hss.
  rewrite Hs in Hsp, Hss.
  apply Forall_app in Hsp as [_ Hsp]. apply Forall_app in Hsp as [Hsp _].
  apply single_spaced_app in Hss as [_ Hss]. apply single_spaced_app in Hss as [Hss _].
  repeat split; try assumption.
  now rewrite trim_filter, collapse_filter.
Qed.

(** X10.  A cleaned text is in normal form: its only white space is
    single U+0020 spaces, none at the start, none at the end, no two in
    a row; and the code units that are not white space are those of the
    original text, in the same order. *)
Theorem cleanText_normal_form t :
  Forall (fun c => is_space c = true -> c = 32%N) (cleanText t)
  /\ single_spaced (cleanText t) = true
  /\ starts_nonspace (cleanText t) = true
  /\ starts_nonspace (rev (cleanText t)) = true
  /\ filter nonspace (cleanText t) = filter nonspace t.
Proof. exact (cleanText_normal t). Qed.

(** X11.  The second replacement of [cleanText] is idle: after
    [replace(/\s+/g, ' ')] no line feed is left, so [replace(/\n+/g, ' ')]
    returns its argument. *)
Theorem newline_replacement_idle t :
  replace_g (replace_g t [Atom is_space Plus] (js " ")) [Atom (cu_eqb 10%N) Plus] (js " ")
  = replace_g t [Atom is_space Plus] (js " ").
Proof.
  rewrite (replace_g_plus is_space), (replace_g_plus (cu_eqb 10%N)).
  apply collapse_none, collapse_no_newline.
Qed.

Lemma collapse_fixed s :
  Forall (fun c => is_space c = true -> c = 32%N) s ->
  single_spaced s = true ->
  collapse is_space false s = s.
Proof.
  induction s as [|c s IH]; intros Hsp Hss; cbn [collapse]; [reflexivity|].
  apply Forall_cons_iff in Hsp as [Hc Hsp].
  assert (Hss' : single_spaced s = true).
  { destruct s as [|d s]; [reflexivity|]. cbn [single_spaced] in Hss.
    apply andb_true_iff in Hss as [_ H]. exact H. }
  destruct (is_space c) eqn:Hsc.
  - rewrite (Hc eq_refl). f_equal. rewrite collapse_inrun.
    destruct s as [|d s]; [reflexivity|].
    cbn [single_spaced] in Hss. apply andb_true_iff in Hss as [Hcd _].
    rewrite Hsc in Hcd. cbn in Hcd. apply negb_true_iff in Hcd.
    cbn [span_len]. rewrite Hcd. cbn [skipn]. now apply IH.
  - f_equal. now apply IH.
Qed.

Lemma trimStart_fixed s : starts_nonspace s = true -> trimStart s = s.
Proof.
  destruct s as [|c s]; cbn; [reflexivity|]. intros H. apply negb_true_iff in H. now rewrite H.
Qed.

Lemma trim_fixed s :
  starts_nonspace s = true -> starts_nonspace (rev s) = true -> trim s = s.
Proof.
  intros H1 H2. unfold trim, trimEnd.
  rewrite (trimStart_fixed _ H1), (trimStart_fixed _ H2). apply rev_involutive.
Qed.

(** X12.  Cleaning is idempotent: a cleaned text is left as it is by a
    second cleaning. *)
Theorem cleanText_idempotent t : cleanText (cleanText t) = cleanText t.
Proof.
  destruct (cleanText_normal t) as (Hsp & Hss & Hn & Hr & _).
  rewrite (cleanText_collapse (cleanText t)), (collapse_fixed Hsp Hss).
  now apply trim_fixed.
Qed.

Lemma trim_nil_iff s : trim s = [] <-> forallb is_space s = true.
Proof.
  destruct (trim_spec s) as (pre & post & Hs & Hp & Hq & Hn & _). split.
  - intros H. rewrite H in Hs. rewrite Hs, forallb_app, Hp. exact Hq.
  - intros H. destruct (trim s) as [|c u]; [reflexivity|].
    rewrite Hs, !forallb_app in H. cbn in H, Hn.
    apply negb_true_iff in Hn. rewrite Hn in H.
    rewrite andb_false_r in H. discriminate.
Qed.

Lemma cleanText_nil_iff t : cleanText t = [] <-> forallb is_space t = true.
Proof.
  destruct (cleanText_normal t) as (_ & _ & Hn & _ & Hf). split.
  - intros H. rewrite H in Hf. cbn in Hf.
    apply forallb_forall. intros c Hc.
    destruct (is_space c) eqn:Hsc; [reflexivity|].
    assert (Hin : In c (filter nonspace t)).
    { apply filter_In. split; [exact Hc|]. unfold nonspace. now rewrite Hsc. }
    rewrite <- Hf in Hin. destruct Hin.
  - intros H. rewrite (filter_spaces _ H) in Hf.
    destruct (cleanText t) as [|c u]; [reflexivity|].
    cbn in Hn, Hf. unfold nonspace in Hf. rewrite Hn in Hf. discriminate.
Qed.

Lemma getTextBySelectors_step document selector rest :
  getTextBySelectors document (selector :: rest)
  = match located_text document selector with
    | Some t => cleanText t
    | None => getTextBySelectors document rest
    end.
Proof.
  cbn [getTextBySelectors]. unfold located_text.
  destruct (querySelector document selector) as [element|]; [|reflexivity].
  destruct (textContent element) as [t|]; [|reflexivity].
  destruct (forallb is_space t) eqn:Hb.
  - apply trim_nil_iff in Hb. rewrite Hb. cbn. now rewrite andb_false_r.
  - assert (Ht : trim t <> []) by (intros H; apply trim_nil_iff in H; congruence).
    assert (Hne : t <> []) by (intros ->; discriminate).
    destruct t as [|c t]; [contradiction|]. destruct (trim (c :: t)); [contradiction|].
    reflexivity.
Qed.

(** X13.  The selector cascade returns the cleaned text of the first
    selector, in the order given, whose first element has text that is
    not blank; that text is never empty; the cascade returns the empty
    string exactly when no selector has such an element. *)
Theorem cascade_first_nonblank document selectors :
  (getTextBySelectors document selectors = []
   /\ forall selector, In selector selectors -> located_text document selector = None)
  \/ exists before selector after t,
       selectors = before ++ selector :: after
       /\ (forall s, In s before -> located_text document s = None)
       /\ located_text document selector = Some t
       /\ getTextBySelectors document selectors = cleanText t
       /\ cleanText t <> [].
Proof.
  induction selectors as [|sel rest IH].
  - left. split; [reflexivity | intros ? []].
  - rewrite getTextBySelectors_step.
    destruct (located_text document sel) as [t|] eqn:Hsel.
    + right. exists [], sel, rest, t. repeat split; try assumption; [intros ? []|].
      intros Hnil. apply cleanText_nil_iff in Hnil.
      unfold located_text in Hsel.
      destruct (querySelector document sel) as [e|]; [|discriminate].
      destruct (textContent e) as [t'|]; [|discriminate].
      destruct (forallb is_space t') eqn:Hb; [discriminate|].
      injection Hsel as ->. congruence.
    + destruct IH as [[Hnil Hall] | (before & s & after & t & -> & Hb & Hs & Hr & Hne)].
      * left. split; [exact Hnil|]. intros s [<- | Hin]; [exact Hsel | now apply Hall].
      * right. exists (sel :: before), s, after, t. repeat split; try assumption.
        intros s' [<- | Hin]; [exact Hsel | now apply Hb].
Qed.

(* ===================================================================== *)
(** * Further properties: the title *)
(* ===================================================================== *)

Lemma search_bol re s pos : 0 < pos -> search (Bol :: re) s pos = None.
Proof.
  revert pos. induction s as [|c s IH]; intros pos Hpos; cbn [search run];
    destruct (Nat.eqb_spec pos 0); try lia; [reflexivity|].
  apply IH. lia.
Qed.

Lemma exec_bol re s :
  exec (Bol :: re) s
  = match run re s 0 [] [] with
    | Some (e, caps) => Some {| m_start := 0; m_end := e; m_caps := caps |}
    | None => None
    end.
Proof.
  unfold exec. destruct s as [|c s]; cbn [search run Nat.eqb].
  - destruct (run re [] 0 [] []) as [[e caps]|]; reflexivity.
  - destruct (run re (c :: s) 0 [] []) as [[e caps]|]; [reflexivity|].
    apply search_bol. lia.
Qed.

(** A greedy repetition in front of a continuation that cannot start
    with a code unit of the class takes the whole run. *)
Lemma star_disjoint p k s pos :
  (forall c s' pos', p c = true -> k (c :: s') pos' = None) ->
  star p k s pos = k (skipn (span_len p s) s) (pos + span_len p s).
Proof.
  intros Hk. revert pos. induction s as [|c s IH]; intros pos; cbn [star span_len skipn].
  - now rewrite Nat.add_0_r.
  - destruct (p c) eqn:Hc.
    + rewrite IH, Nat.add_succ_r. cbn [skipn].
      destruct (k _ _); [reflexivity|]. now apply Hk.
    + cbn [skipn]. now rewrite Nat.add_0_r.
Qed.

Lemma span_len_app p a c tail :
  forallb p a = true -> p c = false -> span_len p (a ++ c :: tail) = List.length a.
Proof.
  intros Ha Hc. induction a as [|x a IH]; cbn [app span_len List.length].
  - now rewrite Hc.
  - cbn [forallb] in Ha. apply andb_true_iff in Ha as [Hx Ha]. rewrite Hx. f_equal. now apply IH.
Qed.

Lemma span_split p s :
  exists a b, s = a ++ b /\ List.length a = span_len p s /\ forallb p a = true
              /\ skipn (span_len p s) s = b
              /\ match b with c :: _ => p c = false | [] => True end.
Proof.
  induction s as [|c s (a & b & Hs & Hl & Ha & Hk & Hb)]; cbn [span_len].
  - exists [], []. repeat split.
  - destruct (p c) eqn:Hc.
    + exists (c :: a), b. cbn. rewrite Hc, Ha. repeat split; try assumption; [now f_equal | now f_equal].
    + exists [], (c :: s). repeat split. exact Hc.
Qed.

(** The run of the title pattern behind its [^]. *)
Lemma run_title_prefix s :
  run [Atom is_upper One; Atom is_digit Star; chr 46%N; Atom is_space Star] s 0 [] []
  = match s with
    | l :: s1 =>
        if is_upper l then
          match skipn (span_len is_digit s1) s1 with
          | c :: s3 =>
              if cu_eqb 46%N c
              then Some (S (span_len is_digit s1) + S (span_len is_space s3), [])
              else None
          | [] => None
          end
        else None
    | [] => None
    end.
Proof.
  cbn [run]. destruct s as [|l s1]; [reflexivity|].
  destruct (is_upper l); [|reflexivity].
  rewrite star_disjoint.
  - cbn [run chr]. destruct (skipn (span_len is_digit s1) s1) as [|c s3]; [reflexivity|].
    destruct (cu_eqb 46%N c); [|reflexivity].
    rewrite star_plain. f_equal. f_equal. lia.
  - intros c s' pos' Hc. cbn [run chr].
    replace (cu_eqb 46%N c) with false; [reflexivity|].
    symmetry. unfold cu_eqb. apply N.eqb_neq. intros <-. discriminate.
Qed.

(** X14.  The title loses a leading index and nothing else: when the
    located text starts with an upper-case letter, digits if any, a full
    stop and white space if any, that prefix is removed; in every other
    case the title is the located text as it is. *)
Theorem title_prefix_stripped document :
  let located :=
    getTextBySelectors document
      [js ".problem-statement .title"; js ".problemindexholder .title";
       js ".header .title"; js "h1"; js "h2"] in
  (exists l ds ws rest,
      located = l :: ds ++ 46%N :: ws ++ rest
      /\ is_upper l = true /\ forallb is_digit ds = true /\ forallb is_space ws = true
      /\ starts_nonspace rest = true
      /\ scraped_title document = rest)
  \/ (scraped_title document = located
      /\ ~ exists l ds tail,
             located = l :: ds ++ 46%N :: tail
             /\ is_upper l = true /\ forallb is_digit ds = true).
Proof.
  cbv zeta. unfold scraped_title.
  set (located := getTextBySelectors document _). clearbody located.
  unfold replace, re_title_prefix. rewrite exec_bol, run_title_prefix.
  destruct located as [|l s1].
  - right. split; [reflexivity|]. intros (l & ds & tail & H & _). discriminate.
  - destruct (is_upper l) eqn:Hl.
    + destruct (span_split is_digit s1) as (ds & b & Hs1 & Hlen & Hds & Hk & Hb).
      rewrite Hk. destruct b as [|c s3].
      * right. split; [reflexivity|]. intros (l' & ds' & tail & [= <- H] & _ & Hds').
        rewrite H in Hlen, Hs1. pose proof (@span_len_app is_digit ds' 46%N tail Hds' eq_refl) as Hsp.
        unfold codeunit, jsstring in *. rewrite Hsp in Hlen.
        rewrite app_nil_r in Hs1. apply (f_equal (@List.length _)) in Hs1.
        rewrite length_app in Hs1. cbn in Hs1. lia.
      * unfold cu_eqb. destruct (N.eqb_spec 46 c) as [<- | Hne].
        -- left. destruct (span_split is_space s3) as (ws & rest & Hs3 & Hlen3 & Hws & Hk3 & Hr).
           exists l, ds, ws, rest. cbn [m_start m_end firstn app].
           split; [now rewrite Hs1, Hs3|]. split; [exact Hl|]. split; [exact Hds|].
           split; [exact Hws|]. split.
           ++ destruct rest as [|x rest]; [reflexivity|]. cbn. now rewrite Hr.
           ++ rewrite <- Hlen. cbn [plus skipn]. rewrite Hs1.
              rewrite skipn_app, skipn_all2 by lia.
              replace (List.length ds + S (span_len is_space s3) - List.length ds)
                with (S (span_len is_space s3)) by lia.
              cbn [skipn app]. exact Hk3.
        -- right. split; [reflexivity|]. intros (l' & ds' & tail & [= <- H] & _ & Hds').
           rewrite H in Hlen, Hs1. pose proof (@span_len_app is_digit ds' 46%N tail Hds' eq_refl) as Hsp.
        unfold codeunit, jsstring in *. rewrite Hsp in Hlen.
           symmetry in Hlen.
           destruct (app_eq_length _ _ _ _ Hlen Hs1) as [_ Htl]. congruence.
    + right. split; [reflexivity|]. intros (l' & ds' & tail & [= <- _] & Hl' & _). congruence.
Qed.

(* ===================================================================== *)
(** * Further properties: the description *)
(* ===================================================================== *)

Lemma description_elements_spec elements d :
  exists k,
    k <= List.length (qualifying elements)
    /\ description_elements elements d
       = d ++ List.concat (List.map piece (firstn k (qualifying elements)))
    /\ (k < List.length (qualifying elements) ->
        200 < List.length (description_elements elements d))
    /\ (forall j, 0 < j < k ->
        List.length (d ++ List.concat (List.map piece (firstn j (qualifying elements)))) <= 200)
    /\ (qualifying elements <> [] -> 0 < k).
Proof.
  revert d. induction elements as [|element rest IH]; intros d.
  - exists 0. cbn. rewrite app_nil_r. repeat split; try lia. congruence.
  - cbn [description_elements qualifying]. unfold qualifies.
    destruct (textContent element) as [t|]; [|apply IH].
    destruct (nonempty t && _ && _ && _ && _)%bool; [|apply IH].
    fold (piece t).
    destruct (Nat.ltb_spec 200 (List.length (d ++ piece t))) as [Hbig | Hsmall].
    + exists 1. cbn [firstn List.map List.concat List.length]. rewrite app_nil_r.
      split; [lia|]. split; [reflexivity|]. split; [intros _; exact Hbig|].
      split; [intros j Hj; lia | intros _; lia].
    + destruct (IH (d ++ piece t)) as (k & Hk & Heq & Hstop & Hprev & Hpos).
      exists (S k). cbn [firstn List.map List.concat List.length].
      split; [lia|]. split; [now rewrite Heq, <- app_assoc|].
      split; [intros Hlt; apply Hstop; lia|].
      split; [|intros _; lia].
      intros [|[|j]] Hj; try lia.
      * cbn [firstn List.map List.concat]. now rewrite app_nil_r.
      * change (firstn (S (S j)) (t :: qualifying rest))
          with (t :: firstn (S j) (qualifying rest)).
        cbn [List.map List.concat]. rewrite app_assoc. apply Hprev. lia.
Qed.

Lemma piece_not_blank t d :
  20 < List.length (trim t) -> trim (piece t ++ d) <> [].
Proof.
  intros Hlen H. apply trim_nil_iff in H. unfold piece in H.
  assert (Hne : cleanText t <> []).
  { intros Hnil. apply cleanText_nil_iff, trim_nil_iff in Hnil. rewrite Hnil in Hlen. cbn in Hlen. lia. }
  destruct (cleanText_normal t) as (_ & _ & Hn & _ & _).
  destruct (cleanText t) as [|c u]; [contradiction|].
  cbn in Hn, H. apply negb_true_iff in Hn. rewrite Hn in H. discriminate.
Qed.

Lemma qualifying_long elements t :
  In t (qualifying elements) -> 20 < List.length (trim t).
Proof.
  induction elements as [|element rest IH]; cbn [qualifying]; [intros []|].
  unfold qualifies. destruct (textContent element) as [t'|]; [|exact IH].
  destruct (nonempty t' && _ && _ && _ && (20 <? List.length (trim t')))%bool eqn:Hq; [|exact IH].
  intros [<- | Hin]; [|now apply IH].
  apply andb_true_iff in Hq as [_ Hq]. now apply Nat.ltb_lt.
Qed.

(** X15.  The description is built from one selector only: the first
    one, in the order of the source, with a qualifying block.  It is the
    cleaned texts of the first [k] qualifying blocks of that selector,
    each followed by a space; blocks are added as long as the text built
    so far has at most 200 code units, so the text is cut at a block
    boundary and may itself be longer than 200; without any qualifying
    block it is empty. *)
Theorem description_accumulates document :
  (scraped_description document = []
   /\ forall selector, In selector descriptionSelectors ->
        qualifying (querySelectorAll document selector) = [])
  \/ exists before selector after k,
       let blocks := qualifying (querySelectorAll document selector) in
       descriptionSelectors = before ++ selector :: after
       /\ (forall s, In s before -> qualifying (querySelectorAll document s) = [])
       /\ 0 < k <= List.length blocks
       /\ scraped_description document = List.concat (List.map piece (firstn k blocks))
       /\ (k < List.length blocks -> 200 < List.length (scraped_description document))
       /\ (forall j, 0 < j < k ->
             List.length (List.concat (List.map piece (firstn j blocks))) <= 200).
Proof.
  unfold scraped_description.
  generalize descriptionSelectors. intros selectors.
  induction selectors as [|sel rest IH].
  - left. split; [reflexivity | intros ? []].
  - cbn [description_selectors].
    destruct (description_elements_spec (querySelectorAll document sel) [])
      as (k & Hk & Heq & Hstop & Hprev & Hpos).
    cbn [app] in Heq, Hprev.
    destruct (qualifying (querySelectorAll document sel)) as [|t blocks] eqn:Hq.
    + assert (Hnil : description_elements (querySelectorAll document sel) [] = []).
      { rewrite Heq. destruct k; reflexivity. }
      rewrite Hnil. cbn [trim trimStart trimEnd rev nonempty].
      destruct IH as [[Hr Hall] | (before & s & after & k' & Hrest)].
      * left. split; [exact Hr|]. intros s [<- | Hin]; [exact Hq | now apply Hall].
      * right. cbv zeta in Hrest.
        destruct Hrest as (-> & Hb & Hk' & Hr & Hstop' & Hprev').
        exists (sel :: before), s, after, k'. cbv zeta.
        split; [reflexivity|]. split; [|repeat split; try assumption; lia].
        intros s' [<- | Hin]; [exact Hq | now apply Hb].
    + assert (Hkpos : 0 < k) by (apply Hpos; discriminate).
      assert (Hnb : nonempty (trim (description_elements (querySelectorAll document sel) []))
                    = true).
      { rewrite Heq. destruct k as [|k]; [lia|]. cbn [firstn List.map List.concat].
        assert (Hne : trim (piece t ++ List.concat (List.map piece (firstn k blocks))) <> []).
        { apply piece_not_blank.
          apply (qualifying_long (querySelectorAll document sel)). rewrite Hq. now left. }
        destruct (trim (piece t ++ List.concat (List.map piece (firstn k blocks))));
          [contradiction | reflexivity]. }
      rewrite Hnb. right. exists [], sel, rest, k. cbv zeta. rewrite Hq.
      split; [reflexivity|]. split; [intros ? []|]. split; [lia|].
      split; [exact Heq|]. split; [exact Hstop | exact Hprev].
Qed.

(* ===================================================================== *)
(** * Further properties: the problem viewer *)
(* ===================================================================== *)

(** X16.  Without a URL, or with the empty string for one, the viewer
    shows the built-in sample problem: [showProblem] completes, makes no
    external call, opens the panel (a reveal when there is one, a
    creation otherwise) and gives it the page of [getDummyProblemData]. *)
Theorem show_sample_offline NumberToString problemUrl user env st :
  problemUrl = None \/ problemUrl = Some [] ->
  let res := showProblem NumberToString problemUrl user env st in
  fst res = Normal tt
  /\ net (snd res) = net st
  /\ ui (snd res) = ui st ++ [opening st; USetHtml (getWebviewContent getDummyProblemData)]
  /\ panel (snd res) = Some {| html := getWebviewContent getDummyProblemData |}.
Proof.
  intros Hurl. cbv zeta. unfold opening.
  destruct Hurl as [-> | ->]; destruct st as [[p|] u t]; ui_run;
    rewrite <- ?app_assoc; repeat split.
Qed.

Lemma show_sample_offline_witness :
  let res := showProblem decimal_toString (Some [])
               {| input_box := None; closes_panel_while_loading := false |}
               Sample.env_ok {| panel := None; ui := []; net := [] |} in
  fst res = Normal tt /\ net (snd res) = []
  /\ ui (snd res) = [UCreateWebviewPanel; USetHtml (getWebviewContent getDummyProblemData)].
Proof.
  cbv zeta.
  destruct (@show_sample_offline decimal_toString (Some [])
              {| input_box := None; closes_panel_while_loading := false |}
              Sample.env_ok {| panel := None; ui := []; net := [] |})
    as (H1 & H2 & H3 & _); [now right|].
  split; [exact H1|]. split; [exact H2 | exact H3].
Defined.

(** What [showProblem] does with a URL, by the outcome of the extraction. *)
Lemma showProblem_with_url NumberToString c url user env st :
  showProblem NumberToString (Some (c :: url)) user env st
  = let '(r, t) := extractProblemData NumberToString (c :: url) env (net st) in
    let shown := if closes_panel_while_loading user then None else Some (opened_panel st) in
    match r, shown with
    | Normal pd, Some _ =>
        (Normal tt,
         {| panel := Some {| html := getWebviewContent pd |};
            ui := (ui st ++ [opening st]) ++ [USetHtml (getWebviewContent pd)];
            net := t |})
    | Normal pd, None =>
        (Throw {| err_name := js "TypeError";
                  err_message := js "Cannot read properties of undefined (reading 'webview')" |},
         {| panel := None; ui := ui st ++ [opening st]; net := t |})
    | Throw e, _ => (Throw e, {| panel := shown; ui := ui st ++ [opening st]; net := t |})
    end.
Proof.
  unfold opening, opened_panel.
  destruct st as [[p|] u t]; ui_run;
    destruct (extractProblemData NumberToString (c :: url) env t) as [[pd | e] t'];
    destruct user as [ib [|]]; reflexivity.
Qed.

(** X17.  A failed extraction leaves the viewer open on what it showed:
    when [extractProblemData] throws, [showProblem] throws the same
    error after having opened the panel; no page is set, so a panel that
    was there keeps its content and a new one stays empty. *)
Theorem failed_load_keeps_panel NumberToString c url user env st e t :
  extractProblemData NumberToString (c :: url) env (net st) = (Throw e, t) ->
  closes_panel_while_loading user = false ->
  let res := showProblem NumberToString (Some (c :: url)) user env st in
  fst res = Throw e
  /\ ui (snd res) = ui st ++ [opening st]
  /\ panel (snd res) = Some (opened_panel st)
  /\ net (snd res) = t.
Proof.
  intros He Hc. cbv zeta. rewrite showProblem_with_url, He, Hc. repeat split.
Qed.

Lemma failed_load_keeps_panel_witness :
  let st := {| panel := Some {| html := js "<p>earlier problem</p>" |}; ui := []; net := [] |} in
  let res := showProblem decimal_toString (Some (js "https://codeforces.com/blog/123"))
               {| input_box := None; closes_panel_while_loading := false |}
               Sample.env_ok st in
  fst res = Throw (new_Error (js "Invalid Codeforces problem URL format"))
  /\ ui (snd res) = [UReveal]
  /\ panel (snd res) = Some {| html := js "<p>earlier problem</p>" |}
  /\ net (snd res) = [].
Proof.
  cbv zeta.
  apply (@failed_load_keeps_panel decimal_toString 104%N
           (js "ttps://codeforces.com/blog/123")
           {| input_box := None; closes_panel_while_loading := false |}
           Sample.env_ok
           {| panel := Some {| html := js "<p>earlier problem</p>" |}; ui := []; net := [] |}
           (new_Error (js "Invalid Codeforces problem URL format")) []);
    [vm_compute; reflexivity | reflexivity].
Defined.

(** X18.  Closing the panel while the problem loads loses the result:
    the dispose handler has cleared [this.panel], so after a successful
    extraction [showProblem] throws a TypeError instead of showing the
    problem, and no page is set. *)
Theorem closed_while_loading NumberToString c url user env st pd t :
  extractProblemData NumberToString (c :: url) env (net st) = (Normal pd, t) ->
  closes_panel_while_loading user = true ->
  let res := showProblem NumberToString (Some (c :: url)) user env st in
  (exists m, fst res = Throw {| err_name := js "TypeError"; err_message := m |})
  /\ ui (snd res) = ui st ++ [opening st]
  /\ panel (snd res) = None.
Proof.
  intros He Hc. cbv zeta. rewrite showProblem_with_url, He, Hc.
  split; [eexists; reflexivity | split; reflexivity].
Qed.

Lemma closed_while_loading_witness :
  let res := showProblem decimal_toString (Some Sample.url_4A)
               {| input_box := None; closes_panel_while_loading := true |}
               Sample.env_ok {| panel := None; ui := []; net := [] |} in
  (exists m, fst res = Throw {| err_name := js "TypeError"; err_message := m |})
  /\ ui (snd res) = [UCreateWebviewPanel]
  /\ panel (snd res) = None.
Proof.
  cbv zeta.
  apply (@closed_while_loading decimal_toString 104%N
           (js "ttps://codeforces.com/contest/4/problem/A")
           {| input_box := None; closes_panel_while_loading := true |}
           Sample.env_ok {| panel := None; ui := []; net := [] |}
           (fst (match extractProblemData decimal_toString Sample.url_4A Sample.env_ok [] with
                 | (Normal pd, _) => (pd, tt)
                 | (Throw _, _) => (getDummyProblemData, tt)
                 end))
           (snd (extractProblemData decimal_toString Sample.url_4A Sample.env_ok [])));
    [vm_compute; reflexivity | reflexivity].
Defined.

(** X19.  One call of [showProblem] opens the viewer once and never
    makes a second panel: the first call it adds is a reveal when a
    panel is there and a creation only when there is none, and after it
    comes at most the setting of the page; unless the user closed it
    meanwhile, a panel is there when the call ends, however it ends. *)
Theorem viewer_opened_once NumberToString problemUrl user env st :
  let res := showProblem NumberToString problemUrl user env st in
  (exists rest,
      ui (snd res) = ui st ++ opening st :: rest
      /\ (rest = [] \/ exists page, rest = [USetHtml page]))
  /\ (closes_panel_while_loading user = false -> panel (snd res) <> None).
Proof.
  cbv zeta.
  assert (Hoff : problemUrl = None \/ problemUrl = Some [] \/
                 exists c url, problemUrl = Some (c :: url)).
  { destruct problemUrl as [[|c url]|]; [right; now left | right; right; now exists c, url
                                        | now left]. }
  destruct Hoff as [-> | [-> | (c & url & ->)]].
  - unfold opening. destruct st as [[p|] u t]; ui_run; rewrite <- ?app_assoc;
      (split; [eexists; split; [reflexivity | right; eexists; reflexivity] | discriminate]).
  - unfold opening. destruct st as [[p|] u t]; ui_run; rewrite <- ?app_assoc;
      (split; [eexists; split; [reflexivity | right; eexists; reflexivity] | discriminate]).
  - rewrite showProblem_with_url.
    destruct (extractProblemData NumberToString (c :: url) env (net st)) as [[pd | e] t].
    + destruct (closes_panel_while_loading user); cbn [fst snd ui panel].
      * split; [exists []; split; [reflexivity | now left] | discriminate].
      * rewrite <- app_assoc.
        split; [eexists; split; [reflexivity | right; eexists; reflexivity] | discriminate].
    + cbn [fst snd ui panel]. split; [exists []; split; [reflexivity | now left]|].
      intros ->. discriminate.
Qed.

(** X20.  The load command with no URL (the input box dismissed or left
    empty) shows the error message and does nothing else: no panel is
    opened, no external call is made. *)
Theorem load_without_url NumberToString user env st :
  input_box user = None \/ input_box user = Some [] ->
  loadProblem NumberToString user env st
  = (Normal tt,
     {| panel := panel st;
        ui := ui st ++ [UShowInputBox; UShowErrorMessage (js "No problem URL provided")];
        net := net st |}).
Proof.
  intros H. destruct user as [ib cl]. cbn [input_box] in H.
  destruct H as [-> | ->]; destruct st as [p u t]; ui_run; rewrite <- app_assoc; reflexivity.
Qed.

Lemma load_without_url_witness :
  loadProblem decimal_toString {| input_box := Some []; closes_panel_while_loading := false |}
    Sample.env_ok {| panel := None; ui := []; net := [] |}
  = (Normal tt,
     {| panel := None;
        ui := [UShowInputBox; UShowErrorMessage (js "No problem URL provided")];
        net := [] |}).
Proof.
  apply (@load_without_url decimal_toString
           {| input_box := Some []; closes_panel_while_loading := false |}
           Sample.env_ok {| panel := None; ui := []; net := [] |}).
  now right.
Defined.

(** X21.  The load command reports only what has happened: the message
    ["Loading problem from: ..."] is shown after the page has been set,
    as the last call; when the extraction throws, the command throws
    the same error and shows no message. *)
Theorem load_reports_after_page NumberToString c url user env st r t :
  input_box user = Some (c :: url) ->
  closes_panel_while_loading user = false ->
  extractProblemData NumberToString (c :: url) env (net st) = (r, t) ->
  let res := loadProblem NumberToString user env st in
  match r with
  | Normal pd =>
      fst res = Normal tt
      /\ ui (snd res)
         = ui st ++ [UShowInputBox; opening st; USetHtml (getWebviewContent pd);
                     UShowInformationMessage (js "Loading problem from: " ++ c :: url)]
      /\ panel (snd res) = Some {| html := getWebviewContent pd |}
  | Throw e =>
      fst res = Throw e
      /\ ui (snd res) = ui st ++ [UShowInputBox; opening st]
      /\ panel (snd res) = Some (opened_panel st)
  end.
Proof.
  intros Hin Hcl He. cbv zeta.
  assert (Hload : loadProblem NumberToString user env st
                  = match showProblem NumberToString (Some (c :: url)) user env
                            {| panel := panel st; ui := ui st ++ [UShowInputBox]; net := net st |}
                    with
                    | (Normal _, st') =>
                        (Normal tt,
                         {| panel := panel st';
                            ui := ui st' ++ [UShowInformationMessage
                                               (js "Loading problem from: " ++ c :: url)];
                            net := net st' |})
                    | (Throw e, st') => (Throw e, st')
                    end).
  { unfold loadProblem at 1. unfold pbind at 1. unfold log at 1. cbv beta iota.
    unfold pbind at 1. cbv beta iota. rewrite Hin. cbv beta iota.
    unfold pbind at 1.
    unfold jsstring.
    destruct (showProblem NumberToString (Some (c :: url)) user env _) as [[[] | e] st'];
      unfold log; reflexivity. }
  rewrite Hload, showProblem_with_url. cbn [net]. rewrite He, Hcl.
  unfold opening, opened_panel. cbn [panel ui].
  destruct r as [pd | e]; cbn [fst snd ui panel]; rewrite <- ?app_assoc; repeat split.
Qed.

Lemma load_reports_after_page_witness :
  let res := loadProblem decimal_toString
               {| input_box := Some (js "https://codeforces.com/blog/123");
                  closes_panel_while_loading := false |}
               Sample.env_ok {| panel := None; ui := []; net := [] |} in
  fst res = Throw (new_Error (js "Invalid Codeforces problem URL format"))
  /\ ui (snd res) = [UShowInputBox; UCreateWebviewPanel]
  /\ panel (snd res) = Some {| html := [] |}.
Proof.
  cbv zeta.
  apply (@load_reports_after_page decimal_toString 104%N (js "ttps://codeforces.com/blog/123")
           {| input_box := Some (js "https://codeforces.com/blog/123");
              closes_panel_while_loading := false |}
           Sample.env_ok {| panel := None; ui := []; net := [] |}
           (Throw (new_Error (js "Invalid Codeforces problem URL format"))) []);
    [reflexivity | reflexivity | vm_compute; reflexivity].
Defined.

(* ===================================================================== *)
(** * Further properties: the constraints *)
(* ===================================================================== *)

Lemma forallb_impl (p P : codeunit -> bool) l :
  (forall c, p c = true -> P c = true) -> forallb p l = true -> forallb P l = true.
Proof.
  intros H. induction l as [|c l IH]; cbn; [reflexivity|].
  intros Hl. apply andb_true_iff in Hl as [Hc Hl]. now rewrite (H c Hc), IH.
Qed.

Lemma firstn_plus {A} n m (l : list A) :
  firstn (n + m) l = firstn n l ++ firstn m (skipn n l).
Proof.
  revert l. induction n as [|n IH]; intros l; [reflexivity|].
  destruct l as [|x l]; cbn; [now rewrite firstn_nil | now rewrite IH].
Qed.

Lemma run_within P re :
  atoms_within P re ->
  forall s pos opened caps r,
    run re s pos opened caps = Some r ->
    exists n, fst r = pos + n /\ n <= List.length s /\ forallb P (firstn n s) = true.
Proof.
  induction 1 as [|nd re Hnd Hre IH]; intros s pos opened caps r.
  - cbn. intros [= <-]. exists 0. cbn. repeat split; lia.
  - destruct nd as [p q| | |].
    + assert (Hstar : forall s0 pos0,
                star p (fun s1 pos1 => run re s1 pos1 opened caps) s0 pos0 = Some r ->
                exists n, fst r = pos0 + n /\ n <= List.length s0
                          /\ forallb P (firstn n s0) = true).
      { intros s0 pos0 Hs. apply star_sound in Hs as (n1 & Hn1 & Hp & Hk).
        apply IH in Hk as (n2 & Hr & Hn2 & HP).
        rewrite length_skipn in Hn2.
        exists (n1 + n2). split; [lia|]. split; [lia|].
        rewrite firstn_plus, forallb_app, HP, (@forallb_impl p P _ Hnd Hp). reflexivity. }
      assert (Hone : forall c s', p c = true ->
                (exists n, fst r = S pos + n /\ n <= List.length s'
                           /\ forallb P (firstn n s') = true) ->
                exists n, fst r = pos + n /\ n <= List.length (c :: s')
                          /\ forallb P (firstn n (c :: s')) = true).
      { intros c s' Hc (n & Hr & Hn & HP). exists (S n). cbn [List.length firstn forallb].
        rewrite (Hnd c Hc), HP. repeat split; lia. }
      destruct q; cbn [run].
      * destruct s as [|c s']; [discriminate|]. destruct (p c) eqn:Hc; [|discriminate].
        intros Hr. apply Hone; [exact Hc|]. exact (IH _ _ _ _ _ Hr).
      * destruct s as [|c s']; [apply IH|]. destruct (p c) eqn:Hc; [|apply IH].
        destruct (run re s' (S pos) opened caps) as [r'|] eqn:Hr'; [|apply IH].
        intros [= <-]. apply Hone; [exact Hc|]. exact (IH _ _ _ _ _ Hr').
      * apply Hstar.
      * destruct s as [|c s']; [discriminate|]. destruct (p c) eqn:Hc; [|discriminate].
        intros Hr. apply Hone; [exact Hc|]. exact (Hstar _ _ Hr).
    + cbn [run]. apply IH.
    + cbn [run]. destruct opened; [discriminate | apply IH].
    + cbn [run]. destruct (Nat.eqb pos 0); [apply IH | discriminate].
Qed.

Lemma run_first p q re s pos opened caps r :
  q = One \/ q = Plus ->
  run (Atom p q :: re) s pos opened caps = Some r ->
  exists c s', s = c :: s' /\ p c = true.
Proof.
  intros [-> | ->]; cbn [run]; destruct s as [|c s']; try discriminate;
    destruct (p c) eqn:Hc; try discriminate; intros _; now exists c, s'.
Qed.

Lemma nth_firstn_forallb (p : codeunit -> bool) n i (s : jsstring) :
  forallb p (firstn n s) = true -> i < n -> n <= List.length s -> p (nth i s 0%N) = true.
Proof.
  revert i s. induction n as [|n IH]; intros i s H Hi Hn; [lia|].
  destruct s as [|c s]; [cbn in Hn; lia|].
  cbn in H. apply andb_true_iff in H as [Hc H].
  destruct i as [|i]; [exact Hc|]. cbn. apply IH; [exact H | lia | cbn in Hn; lia].
Qed.

Lemma nth_skipn_plus (n i : nat) (s : jsstring) :
  nth i (skipn n s) 0%N = nth (n + i) s 0%N.
Proof.
  revert s. induction n as [|n IH]; intros s; [reflexivity|].
  destruct s as [|c s]; [now destruct i | apply IH].
Qed.

(** A pattern that ends with [p+] ends its match on a code unit of [p]. *)
Lemma run_last p re :
  forall s pos opened caps r,
    run (re ++ [Atom p Plus]) s pos opened caps = Some r ->
    exists n, fst r = pos + S n /\ S n <= List.length s /\ p (nth n s 0%N) = true.
Proof.
  assert (Hstar : forall q (k : jsstring -> nat -> option result) r,
            (forall s pos, k s pos = Some r ->
               exists n, fst r = pos + S n /\ S n <= List.length s
                         /\ p (nth n s 0%N) = true) ->
            forall s pos, star q k s pos = Some r ->
              exists n, fst r = pos + S n /\ S n <= List.length s
                        /\ p (nth n s 0%N) = true).
  { intros q k r Hk s pos Hs. apply star_sound in Hs as (n1 & Hn1 & _ & Hs).
    apply Hk in Hs as (n & Hr & Hn & Hp). rewrite length_skipn in Hn.
    rewrite nth_skipn_plus in Hp. exists (n1 + n). repeat split; [lia | lia | exact Hp]. }
  assert (Hone : forall (c : codeunit) (s' : jsstring) pos (r : result),
            (exists n, fst r = S pos + S n /\ S n <= List.length s'
                       /\ p (nth n s' 0%N) = true) ->
            exists n, fst r = pos + S n /\ S n <= List.length (c :: s')
                      /\ p (nth n (c :: s') 0%N) = true).
  { intros c s' pos r (n & Hr & Hn & Hp). exists (S n). cbn [List.length nth].
    repeat split; [lia | lia | exact Hp]. }
  induction re as [|nd re IH]; intros s pos opened caps r.
  - cbn [app run]. destruct s as [|c s']; [discriminate|].
    destruct (p c) eqn:Hc; [|discriminate].
    intros Hs. apply star_sound in Hs as (n1 & Hn1 & Hp & Hs).
    cbn in Hs. injection Hs as <-. cbn [fst].
    destruct n1 as [|n1].
    + exists 0. cbn. repeat split; [lia | lia | exact Hc].
    + exists (S n1). cbn [List.length nth]. repeat split; [lia | lia |].
      apply (@nth_firstn_forallb p (S n1) n1 s' Hp); lia.
  - cbn [app]. destruct nd as [q0 q| | |].
    + destruct q; cbn [run].
      * destruct s as [|c s']; [discriminate|]. destruct (q0 c); [|discriminate].
        intros Hr. apply Hone. exact (IH _ _ _ _ _ Hr).
      * destruct s as [|c s']; [apply IH|]. destruct (q0 c); [|apply IH].
        destruct (run (re ++ [Atom p Plus]) s' (S pos) opened caps) as [r'|] eqn:Hr';
          [|apply IH].
        intros [= <-]. apply Hone. exact (IH _ _ _ _ _ Hr').
      * apply Hstar. intros s1 pos1. apply IH.
      * destruct s as [|c s']; [discriminate|]. destruct (q0 c); [|discriminate].
        intros Hr. apply Hone. revert Hr. apply Hstar. intros s1 pos1. apply IH.
    + cbn [run]. apply IH.
    + cbn [run]. destruct opened; [discriminate | apply IH].
    + cbn [run]. destruct (Nat.eqb pos 0); [apply IH | discriminate].
Qed.

(** Every global match is a match of the pattern at its own start. *)
Lemma matches_from_run fuel re :
  forall s pos,
    Forall (fun m => exists k caps,
                fst m = pos + k /\ k <= List.length s
                /\ run re (skipn k s) (pos + k) [] [] = Some (snd m, caps))
           (matches_from fuel re s pos).
Proof.
  induction fuel as [|fuel IH]; intros s pos; cbn [matches_from]; [constructor|].
  destruct (search re s pos) as [m|] eqn:Hm; [|constructor].
  pose proof (search_bounds _ _ _ Hm) as Hb.
  apply search_sound in Hm as (k & Hk & Hst & Hrun & _).
  constructor.
  - exists k, (m_caps m). cbn [fst snd]. repeat split; [exact Hst | exact Hk | exact Hrun].
  - set (next := if Nat.eqb (m_end m) (m_start m) then S (m_end m) else m_end m).
    destruct (List.length s <? next - pos) eqn:Hlen; [constructor|].
    apply Nat.ltb_ge in Hlen.
    assert (Hnext : pos <= next).
    { unfold next. destruct (Nat.eqb (m_end m) (m_start m)); lia. }
    eapply Forall_impl; [|apply IH].
    intros [b e] (k' & caps' & Hb' & Hk' & Hrun'). cbn [fst snd] in *.
    rewrite length_skipn in Hk'. rewrite skipn_skipn in Hrun'.
    exists (k' + (next - pos)), caps'. cbn [fst snd].
    split; [lia|]. split; [lia|].
    replace (pos + (k' + (next - pos))) with (next + k') by lia. exact Hrun'.
Qed.

Lemma String_match_g_run s re ms :
  String_match_g s re = Some ms ->
  Forall (fun c => exists k n caps,
              c = firstn n (skipn k s) /\ k <= List.length s
              /\ run re (skipn k s) k [] [] = Some (k + n, caps)) ms.
Proof.
  unfold String_match_g, matches_g.
  pose proof (matches_from_run (S (List.length s)) re s 0) as H.
  destruct (matches_from (S (List.length s)) re s 0) as [|m0 ms0]; [discriminate|].
  intros [= <-]. rewrite Forall_forall in H. apply Forall_forall. intros c Hc.
  change (In c (List.map (fun m => substring s (fst m) (snd m)) (m0 :: ms0))) in Hc.
  apply in_map_iff in Hc as ([b e] & <- & Hin).
  destruct (H _ Hin) as (k & caps & Hb & Hk & Hrun). cbn [fst snd] in *. subst b.
  pose proof (run_end_ge _ _ _ _ _ Hrun) as Hge. cbn [fst] in Hge.
  exists k, (e - k), caps. unfold substring.
  split; [reflexivity|]. split; [exact Hk|].
  replace (k + (e - k)) with e by lia. exact Hrun.
Qed.

Lemma last_firstn (n : nat) (s : jsstring) :
  S n <= List.length s -> last (firstn (S n) s) 0%N = nth n s 0%N.
Proof.
  revert s. induction n as [|n IH]; intros s Hn.
  - destruct s as [|c s]; [cbn in Hn; lia | reflexivity].
  - destruct s as [|c s]; [cbn in Hn; lia|].
    cbn [List.length] in Hn. change (firstn (S (S n)) (c :: s)) with (c :: firstn (S n) s).
    cbn [nth]. rewrite <- IH by lia.
    destruct s as [|d s]; [cbn in Hn; lia | reflexivity].
Qed.

Lemma constraint_patterns_within :
  Forall (atoms_within constraint_unit) constraint_patterns.
Proof.
  unfold constraint_patterns, chr.
  repeat constructor; intros c Hc; unfold constraint_unit;
    try (rewrite Hc, ?orb_true_r; reflexivity);
    apply N.eqb_eq in Hc; subst c; reflexivity.
Qed.

Lemma constraint_match_shape re s k n caps :
  In re constraint_patterns ->
  k <= List.length s ->
  run re (skipn k s) k [] [] = Some (k + n, caps) ->
  range_text s (firstn n (skipn k s)).
Proof.
  intros Hre Hk Hrun.
  assert (Hw : atoms_within constraint_unit re).
  { pose proof constraint_patterns_within as H.
    rewrite Forall_forall in H. exact (H re Hre). }
  destruct (run_within Hw _ _ _ _ Hrun) as (n' & Hn' & _ & HP). cbn [fst] in Hn'.
  assert (n' = n) by lia. subst n'.
  assert (Hfirst : exists c s', skipn k s = c :: s' /\ is_digit c = true).
  { destruct Hre as [<- | [<- | []]].
    - eapply run_first; [|exact Hrun]. now right.
    - unfold chr in Hrun.
      destruct (@run_first _ One _ _ _ _ _ _ (or_introl eq_refl) Hrun) as (c & s' & Hs & Hc).
      exists c, s'. split; [exact Hs|]. apply N.eqb_eq in Hc. now subst c. }
  assert (Hlast : exists n0, n = S n0 /\ S n0 <= List.length (skipn k s)
                             /\ is_digit (nth n0 (skipn k s) 0%N) = true).
  { assert (H : exists re', re = re' ++ [Atom is_digit Plus]).
    { destruct Hre as [<- | [<- | []]]; eexists;
        [exact (eq_refl : _ = [_; _; _; _; _; _; _; _] ++ [_])
        | exact (eq_refl : _ = [_; _; _; _; _; _; _; _; _; _; _] ++ [_])]. }
    destruct H as (re' & ->).
    apply run_last in Hrun as (n0 & Hr & Hn0 & Hp). cbn [fst] in Hr.
    exists n0. repeat split; [lia | exact Hn0 | exact Hp]. }
  destruct Hlast as (n0 & -> & Hn0 & Hp).
  destruct Hfirst as (c & s' & Hs & Hc).
  repeat split.
  - exists (firstn k s), (skipn (S n0) (skipn k s)).
    now rewrite firstn_skipn, firstn_skipn.
  - exact HP.
  - rewrite Hs. now exists c, (firstn n0 s').
  - rewrite last_firstn by exact Hn0. exact Hp.
Qed.

Lemma scraped_constraints_shape document :
  Forall (range_text (note_text document)) (scraped_constraints document).
Proof.
  unfold scraped_constraints. fold (note_text document).
  destruct (nonempty (note_text document)); [|constructor].
  assert (H : forall re, In re constraint_patterns ->
            forall ms, String_match_g (note_text document) re = Some ms ->
                       Forall (range_text (note_text document)) ms).
  { intros re Hre ms Hms. apply String_match_g_run in Hms.
    eapply Forall_impl; [|exact Hms].
    intros c (k & n & caps & -> & Hk & Hrun). exact (constraint_match_shape _ _ Hre Hk Hrun). }
  unfold constraint_patterns in *. cbn [fold_left].
  match goal with
  | |- context [String_match_g _ ?p1] =>
      destruct (String_match_g (note_text document) p1) as [ms1|] eqn:H1
  end;
  match goal with
  | |- context [String_match_g _ ?p2] =>
      destruct (String_match_g (note_text document) p2) as [ms2|] eqn:H2
  end; cbn [app]; rewrite ?Forall_app; repeat split; try constructor;
    (eapply H; [|eassumption]; cbn [In]; auto).
Qed.

(** X22.  Every constraint the scrape returns is a piece of the note
    text that begins and ends with a digit and is made of digits, word
    characters, white space, [^] and the five code units of the class
    between the brackets of the two patterns (U+201A, U+00E2, U+00A7,
    [<], [=]); the code unit U+2264 is not among them, so no returned
    constraint holds it. *)
Theorem constraints_are_ranges document :
  Forall (fun c => range_text (note_text document) c /\ ~ In 8804%N c)
         (scraped_constraints document).
Proof.
  eapply Forall_impl; [|apply scraped_constraints_shape].
  intros c Hc. split; [exact Hc|].
  destruct Hc as (_ & Hunits & _). intros Hin.
  rewrite forallb_forall in Hunits. apply Hunits in Hin. discriminate Hin.
Qed.
